(** * PowerAuth for React Native: the JavaScript facade over the native engine

    A shallow embedding of [lib/PowerAuth.js] (class [PowerAuth]) and of the
    model class [PowerAuthAuthentication].  Every method of the class is a
    thin asynchronous function: it updates a few cached properties of the
    instance and forwards to [this.wrapper] (an object of class
    [__NativeWrapper], whose code lives outside the embedded sources).

    Asynchronous functions are modelled in a state-and-rejection monad: a
    computation takes the world (the properties of the instance, the state
    behind the native bridge and a trace of the calls that crossed the
    bridge) and gives back the settled promise together with the new world.
    A rejected promise keeps the world as it was at the point of rejection,
    as in JavaScript. *)

From Stdlib Require Import String ZArith NArith List Bool Lia.
From stdpp Require Import base option list gmap strings.
Import ListNotations.
Local Open Scope string_scope.
Set Warnings "-register-all".

(** ** Values *)

(** A JavaScript slot that can hold [undefined], [null] or a value. *)
Inductive Nullable (A : Type) : Type :=
| undefined
| null
| value (a : A).
Arguments undefined {A}.
Arguments null {A}.
Arguments value {A} a.

(** [x !== null && x !== void 0 ? x : d], the compiled form of [x ?? d]. *)
Definition nullish_or {A : Type} (x : Nullable A) (d : A) : A :=
  match x with
  | value a => a
  | null | undefined => d
  end.

(** [PowerAuthAuthentication]: the five declared properties with the
    initialisers of the class.  [biometryKey] is not declared by the class:
    it is the property through which a prepared (reusable) object carries the
    unlocked key material (spec, 4.4); an object built by the integrator does
    not have it. *)
Record PowerAuthAuthentication : Type := {
  usePossession : bool;
  useBiometry : bool;
  userPassword : Nullable string;
  biometryMessage : Nullable string;
  biometryTitle : Nullable string;
  biometryKey : Nullable string
}.

Definition new_PowerAuthAuthentication : PowerAuthAuthentication :=
  {| usePossession := false;
     useBiometry := false;
     userPassword := null;
     biometryMessage := null;
     biometryTitle := null;
     biometryKey := undefined |}.

(** [PowerAuthConfiguration(appKey, appSecret, masterServerPublicKey,
    baseEndpointUrl)], as documented in [docs/Configuration.md]. *)
Record PowerAuthConfiguration : Type := {
  appKey : string;
  appSecret : string;
  masterServerPublicKey : string;
  baseEndpointUrl : string
}.

(** The three optional configuration objects, with the properties listed in
    [docs/Configuration.md]. *)
Record PowerAuthClientConfiguration : Type := {
  enableUnsecureTraffic : bool;
  connectionTimeout : Z;
  readTimeout : Z
}.

Record PowerAuthBiometryConfiguration : Type := {
  linkItemsToCurrentSet : bool;
  fallbackToDevicePasscode : bool;
  confirmBiometricAuthentication : bool;
  authenticateOnBiometricKeySetup : bool
}.

Record PowerAuthKeychainConfiguration : Type := {
  accessGroupName : Nullable string;
  userDefaultsSuiteName : Nullable string;
  minimalRequiredKeychainProtection : string
}.

(** [clientConfiguration.enableUnsecureTraffic = v] *)
Definition set_enableUnsecureTraffic (v : bool) (c : PowerAuthClientConfiguration)
  : PowerAuthClientConfiguration :=
  {| enableUnsecureTraffic := v;
     connectionTimeout := connectionTimeout c;
     readTimeout := readTimeout c |}.

(** What crosses the bridge: the arguments and results of [wrapper.call]. *)
Inductive JsValue : Type :=
| JsUndefined
| JsNull
| JsBool (b : bool)
| JsNumber (z : Z)
| JsString (s : string)
| JsAuthentication (a : PowerAuthAuthentication)
| JsConfiguration (c : PowerAuthConfiguration)
| JsClientConfiguration (c : PowerAuthClientConfiguration)
| JsBiometryConfiguration (c : PowerAuthBiometryConfiguration)
| JsKeychainConfiguration (c : PowerAuthKeychainConfiguration)
| JsSignature (counter : N) (method uriId : string) (nonce : Nullable string) (data : JsValue)
| JsObject (fields : list (string * JsValue)).

(** An optional argument as it reaches the callee. *)
Definition js_of_nullable {A : Type} (inj : A -> JsValue) (x : Nullable A) : JsValue :=
  match x with
  | undefined => JsUndefined
  | null => JsNull
  | value a => inj a
  end.

(** Machine-readable kinds of failure reported by the native side. *)
Inductive BiometryFailure : Type := UserCancelled | Unavailable | LockedOut.

Inductive ErrorKind : Type :=
| InvalidActivationState
| MissingActivation
| AlreadyConfigured
| NotConfigured
| WrongPassword
| BiometryFailed (why : BiometryFailure)
| NetworkError
| ServerRejected (code : Z)
| CounterDesynchronized
| InsufficientStorageProtection
| CorruptedState
| StorageError
| WrongParameter
| NoSuchMethod.

(** What a promise can be rejected with: a raw rejection of the native side,
    or a [PowerAuthError(originalException, message)]. *)
Inductive Thrown : Type :=
| NativeRejection (kind : ErrorKind)
| PowerAuthError (originalException : option Thrown) (message : option string).

(** A settled promise. *)
Inductive Outcome (A : Type) : Type :=
| Fulfilled (a : A)
| Rejected (e : Thrown).
Arguments Fulfilled {A} a.
Arguments Rejected {A} e.

Definition is_fulfilled {A : Type} (o : Outcome A) : bool :=
  match o with Fulfilled _ => true | Rejected _ => false end.

(** ** The instance, the bridge and the world *)

(** The properties of a [PowerAuth] object.  Its [wrapper] is the bridge
    below; its [tokenStore] takes no part in the methods of the class. *)
Record PowerAuth : Type := {
  instanceId : string;
  configuration : Nullable PowerAuthConfiguration;
  clientConfiguration : Nullable PowerAuthClientConfiguration;
  biometryConfiguration : Nullable PowerAuthBiometryConfiguration;
  keychainConfiguration : Nullable PowerAuthKeychainConfiguration
}.

(** [new PowerAuth(instanceId)]: the four cached properties are not set. *)
Definition new_PowerAuth (id : string) : PowerAuth :=
  {| instanceId := id;
     configuration := undefined;
     clientConfiguration := undefined;
     biometryConfiguration := undefined;
     keychainConfiguration := undefined |}.

(** What is observable at the bridge: the calls of [wrapper.call] and
    [wrapper.authenticate] with their arguments, and the invocations of the
    callback of a grouped scope with its argument. *)
Inductive Event : Type :=
| EvCall (name : string) (args : list JsValue)
| EvAuthenticate (authentication : PowerAuthAuthentication) (makeReusable : option bool)
| EvCallback (reusableAuthentication : PowerAuthAuthentication).

(** The collaborators of the class that are imported from other modules:
    [__NativeWrapper] ([call], [authenticate], the static [processException]),
    the static [default()] of the three configuration classes and
    [Platform.OS]. *)
Class Bridge (NativeState : Type) : Type := {
  wrapper_call : string -> list JsValue -> NativeState -> Outcome JsValue * NativeState;
  wrapper_authenticate :
    PowerAuthAuthentication -> option bool -> NativeState ->
    Outcome PowerAuthAuthentication * NativeState;
  processException : Thrown -> Thrown;
  PowerAuthClientConfiguration_default : PowerAuthClientConfiguration;
  PowerAuthBiometryConfiguration_default : PowerAuthBiometryConfiguration;
  PowerAuthKeychainConfiguration_default : PowerAuthKeychainConfiguration;
  Platform_OS : string
}.

Record World (NativeState : Type) : Type := {
  self : PowerAuth;
  native : NativeState;
  trace : list Event
}.
Arguments self {NativeState} w.
Arguments native {NativeState} w.
Arguments trace {NativeState} w.
Arguments Build_World {NativeState} self native trace.

(** ** Asynchronous computations *)

Definition Async (St A : Type) : Type := World St -> Outcome A * World St.

Definition resolve {St A : Type} (a : A) : Async St A := fun w => (Fulfilled a, w).

Definition throw {St A : Type} (e : Thrown) : Async St A := fun w => (Rejected e, w).

Definition await {St A B : Type} (c : Async St A) (k : A -> Async St B) : Async St B :=
  fun w =>
    match c w with
    | (Fulfilled a, w') => k a w'
    | (Rejected e, w') => (Rejected e, w')
    end.

(** [try { c } catch (e) { h e }] *)
Definition try_catch {St A : Type} (c : Async St A) (h : Thrown -> Async St A) : Async St A :=
  fun w =>
    match c w with
    | (Fulfilled a, w') => (Fulfilled a, w')
    | (Rejected e, w') => h e w'
    end.

Notation "x <~ c ;; k" := (await c (fun x => k))
  (at level 100, c at next level, right associativity).

Definition emit {St : Type} (ev : Event) : Async St unit :=
  fun w => (Fulfilled tt, Build_World (self w) (native w) (trace w ++ [ev])%list).

Definition update_self {St : Type} (f : PowerAuth -> PowerAuth) : Async St unit :=
  fun w => (Fulfilled tt, Build_World (f (self w)) (native w) (trace w)).

Definition lift_native {St A : Type} (f : St -> Outcome A * St) : Async St A :=
  fun w => let '(r, n) := f (native w) in (r, Build_World (self w) n (trace w)).

(** ** The class [PowerAuth] *)

(** The two overloads of [configure]. *)
Inductive ConfigureArguments : Type :=
| WithObjects (configuration : PowerAuthConfiguration)
    (clientConfiguration : Nullable PowerAuthClientConfiguration)
    (biometryConfiguration : Nullable PowerAuthBiometryConfiguration)
    (keychainConfiguration : Nullable PowerAuthKeychainConfiguration)
| WithKeys (appKey appSecret masterServerPublicKey baseEndpointUrl : string)
    (enableUnsecureTraffic : bool).

Section PowerAuthClass.
Context {St : Type} {B : Bridge St}.

(** [this.wrapper.call(name, ...args)] *)
Definition call (name : string) (args : list JsValue) : Async St JsValue :=
  _ <~ emit (EvCall name args) ;;
  lift_native (wrapper_call name args).

(** [this.wrapper.authenticate(authentication, makeReusable)]; the second
    argument is [None] where the call site omits it. *)
Definition authenticate (authentication : PowerAuthAuthentication)
    (makeReusable : option bool) : Async St PowerAuthAuthentication :=
  _ <~ emit (EvAuthenticate authentication makeReusable) ;;
  lift_native (wrapper_authenticate authentication makeReusable).

Definition isConfigured : Async St JsValue :=
  call "isConfigured" [].

(** The four values that [configure] computes from its arguments. *)
Definition configure_values (arguments : ConfigureArguments)
  : PowerAuthConfiguration * PowerAuthClientConfiguration *
    PowerAuthBiometryConfiguration * PowerAuthKeychainConfiguration :=
  match arguments with
  | WithObjects param1 args0 args1 args2 =>
      (param1,
       nullish_or args0 PowerAuthClientConfiguration_default,
       nullish_or args1 PowerAuthBiometryConfiguration_default,
       nullish_or args2 PowerAuthKeychainConfiguration_default)
  | WithKeys param1 args0 args1 args2 args3 =>
      (Build_PowerAuthConfiguration param1 args0 args1 args2,
       set_enableUnsecureTraffic args3 PowerAuthClientConfiguration_default,
       PowerAuthBiometryConfiguration_default,
       PowerAuthKeychainConfiguration_default)
  end.

Definition configure (arguments : ConfigureArguments) : Async St JsValue :=
  let '(configuration, clientConfiguration, biometryConfiguration, keychainConfiguration) :=
    configure_values arguments in
  _ <~ update_self (fun this =>
         {| instanceId := instanceId this;
            configuration := value configuration;
            clientConfiguration := value clientConfiguration;
            biometryConfiguration := value biometryConfiguration;
            keychainConfiguration := value keychainConfiguration |}) ;;
  call "configure"
    [JsConfiguration configuration; JsClientConfiguration clientConfiguration;
     JsBiometryConfiguration biometryConfiguration;
     JsKeychainConfiguration keychainConfiguration].

Definition deconfigure : Async St JsValue :=
  _ <~ update_self (fun this =>
         {| instanceId := instanceId this;
            configuration := null;
            clientConfiguration := null;
            biometryConfiguration := null;
            keychainConfiguration := null |}) ;;
  call "deconfigure" [].

Definition hasValidActivation : Async St JsValue := call "hasValidActivation" [].
Definition canStartActivation : Async St JsValue := call "canStartActivation" [].
Definition hasPendingActivation : Async St JsValue := call "hasPendingActivation" [].
Definition fetchActivationStatus : Async St JsValue := call "fetchActivationStatus" [].

Definition createActivation (activation : JsValue) : Async St JsValue :=
  call "createActivation" [activation].

Definition commitActivation (authentication : PowerAuthAuthentication) : Async St JsValue :=
  call "commitActivation" [JsAuthentication authentication].

Definition getActivationIdentifier : Async St JsValue := call "activationIdentifier" [].
Definition getActivationFingerprint : Async St JsValue := call "activationFingerprint" [].

Definition removeActivationWithAuthentication (authentication : PowerAuthAuthentication)
  : Async St JsValue :=
  sent <~ authenticate authentication None ;;
  call "removeActivationWithAuthentication" [JsAuthentication sent].

Definition removeActivationLocal : Async St JsValue := call "removeActivationLocal" [].

Definition requestGetSignature (authentication : PowerAuthAuthentication)
    (uriId : string) (params : JsValue) : Async St JsValue :=
  sent <~ authenticate authentication None ;;
  call "requestGetSignature"
    [JsAuthentication sent; JsString uriId;
     match params with JsNull | JsUndefined => JsNull | _ => params end].

Definition requestSignature (authentication : PowerAuthAuthentication)
    (method uriId : string) (body : Nullable string) : Async St JsValue :=
  sent <~ authenticate authentication None ;;
  call "requestSignature"
    [JsAuthentication sent; JsString method; JsString uriId; js_of_nullable JsString body].

Definition offlineSignature (authentication : PowerAuthAuthentication)
    (uriId nonce : string) (body : Nullable string) : Async St JsValue :=
  sent <~ authenticate authentication None ;;
  call "offlineSignature"
    [JsAuthentication sent; JsString uriId; js_of_nullable JsString body; JsString nonce].

Definition verifyServerSignedData (data signature : string) (masterKey : bool)
  : Async St JsValue :=
  call "verifyServerSignedData" [JsString data; JsString signature; JsBool masterKey].

Definition changePassword (oldPassword newPassword : string) : Async St JsValue :=
  call "changePassword" [JsString oldPassword; JsString newPassword].

Definition unsafeChangePassword (oldPassword newPassword : string) : Async St JsValue :=
  call "unsafeChangePassword" [JsString oldPassword; JsString newPassword].

Definition addBiometryFactor (password title description : string) : Async St JsValue :=
  if String.eqb Platform_OS "android"
  then call "addBiometryFactor" [JsString password; JsString title; JsString description]
  else call "addBiometryFactor" [JsString password].

Definition hasBiometryFactor : Async St JsValue := call "hasBiometryFactor" [].
Definition removeBiometryFactor : Async St JsValue := call "removeBiometryFactor" [].
Definition getBiometryInfo : Async St JsValue := call "getBiometryInfo" [].

Definition fetchEncryptionKey (authentication : PowerAuthAuthentication) (index : Z)
  : Async St JsValue :=
  sent <~ authenticate authentication None ;;
  call "fetchEncryptionKey" [JsAuthentication sent; JsNumber index].

Definition signDataWithDevicePrivateKey (authentication : PowerAuthAuthentication)
    (data : string) : Async St JsValue :=
  sent <~ authenticate authentication None ;;
  call "signDataWithDevicePrivateKey" [JsAuthentication sent; JsString data].

Definition validatePassword (password : string) : Async St JsValue :=
  call "validatePassword" [JsString password].

Definition hasActivationRecoveryData : Async St JsValue :=
  call "hasActivationRecoveryData" [].

Definition activationRecoveryData (authentication : PowerAuthAuthentication)
  : Async St JsValue :=
  sent <~ authenticate authentication None ;;
  call "activationRecoveryData" [JsAuthentication sent].

Definition confirmRecoveryCode (recoveryCode : string)
    (authentication : PowerAuthAuthentication) : Async St JsValue :=
  sent <~ authenticate authentication None ;;
  alreadyConfirmed <~ call "confirmRecoveryCode" [JsString recoveryCode; JsAuthentication sent] ;;
  resolve (JsObject [("alreadyConfirmed", alreadyConfirmed)]).

(** The inner [try] wraps whatever the callback rejects with; the outer
    [catch] sees both a failed [authenticate] and that wrapped error.  The
    invocation of the callback is recorded in the trace. *)
Definition groupedBiometricAuthentication (authentication : PowerAuthAuthentication)
    (groupedAuthenticationCalls : PowerAuthAuthentication -> Async St unit)
  : Async St unit :=
  if Bool.eqb (useBiometry authentication) false
  then throw (PowerAuthError None
                (Some "Requesting biometric authentication, but `useBiometry` is set to false."))
  else
    try_catch
      (reusable <~ authenticate authentication (Some true) ;;
       try_catch
         (_ <~ emit (EvCallback reusable) ;;
          groupedAuthenticationCalls reusable)
         (fun e_1 =>
            throw (PowerAuthError (Some e_1)
                     (Some "Your 'groupedAuthenticationCalls' function threw an exception. Please make sure that you catch errors yourself."))))
      (fun e_2 => throw (processException e_2)).

End PowerAuthClass.

(** ** Integrator code: chains of authorised calls *)

(** The methods of the class that take an authentication object; a callback
    given to [groupedBiometricAuthentication] is a chain of such calls, each
    awaited, made with the reusable object. *)
Inductive AuthorizedCall : Type :=
| RequestSignature (method uriId : string) (body : Nullable string)
| RequestGetSignature (uriId : string) (params : JsValue)
| OfflineSignature (uriId nonce : string) (body : Nullable string)
| FetchEncryptionKey (index : Z)
| SignDataWithDevicePrivateKey (data : string)
| ActivationRecoveryData
| ConfirmRecoveryCode (recoveryCode : string)
| RemoveActivationWithAuthentication.

Section Integrator.
Context {St : Type} {B : Bridge St}.

Definition authorized (c : AuthorizedCall) (authentication : PowerAuthAuthentication)
  : Async St JsValue :=
  match c with
  | RequestSignature method uriId body => requestSignature authentication method uriId body
  | RequestGetSignature uriId params => requestGetSignature authentication uriId params
  | OfflineSignature uriId nonce body => offlineSignature authentication uriId nonce body
  | FetchEncryptionKey index => fetchEncryptionKey authentication index
  | SignDataWithDevicePrivateKey data => signDataWithDevicePrivateKey authentication data
  | ActivationRecoveryData => activationRecoveryData authentication
  | ConfirmRecoveryCode recoveryCode => confirmRecoveryCode recoveryCode authentication
  | RemoveActivationWithAuthentication => removeActivationWithAuthentication authentication
  end.

(** [async (auth) => { await c1(auth); await c2(auth); ... }] *)
Fixpoint chain (cs : list AuthorizedCall) (authentication : PowerAuthAuthentication)
  : Async St unit :=
  match cs with
  | [] => resolve tt
  | c :: rest =>
      _ <~ authorized c authentication ;;
      chain rest authentication
  end.

(** The outcomes of a sequence of calls made one after the other, whether
    or not an earlier one was rejected. *)
Fixpoint outcomes (cs : list (PowerAuthAuthentication * AuthorizedCall)) (w : World St)
  : list (Outcome JsValue) * World St :=
  match cs with
  | [] => ([], w)
  | (a, c) :: rest =>
      let '(r, w1) := authorized c a w in
      let '(rs, w2) := outcomes rest w1 in
      (r :: rs, w2)
  end.

End Integrator.

(** ** Reading a trace *)

Definition is_gate_unlock (ev : Event) : bool :=
  match ev with
  | EvAuthenticate _ (Some true) => true
  | _ => false
  end.

(** The arguments with which the callback was invoked, in order. *)
Fixpoint callback_arguments (evs : list Event) : list PowerAuthAuthentication :=
  match evs with
  | [] => []
  | EvCallback r :: rest => r :: callback_arguments rest
  | _ :: rest => callback_arguments rest
  end.

Definition gate_unlocks (evs : list Event) : nat :=
  length (filter (fun ev => is_gate_unlock ev = true) evs).

(** The events that a computation adds to the trace. *)
Definition emitted {St A : Type} (c : Async St A) (w : World St) : list Event :=
  drop (length (trace w)) (trace (snd (c w))).

(** A callback that makes no gate unlock of its own and does not re-enter
    the grouped scope. *)
Definition plain_callback {St : Type} (cb : PowerAuthAuthentication -> Async St unit) : Prop :=
  forall r w, exists evs,
    trace (snd (cb r w)) = (trace w ++ evs)%list /\
    gate_unlocks evs = 0 /\ callback_arguments evs = [].

(** ** The engine behind the bridge *)
Module Native.

(** Modelled from the spec: the [status] enumeration of ActivationState;
    the engine itself is native code reached through [__NativeWrapper]. *)
Inductive ActivationStatus : Type :=
| NoActivation
| PendingCreation
| Valid
| Blocked
| Removed
| Deadlock.

(** Modelled from the spec: [protocolVersion] of ActivationState (3); the
    upgrade process migrates V2 to V3. *)
Inductive ProtocolVersion : Type := V2 | V3.

(** Modelled from the spec: the answers of the BiometricGate collaborator,
    [unlock(prompt) -> key | UserCancelled | BiometryUnavailable]; on
    approval the gate releases the key kept in secure storage. *)
Inductive GateAnswer : Type := Approve | Cancel | NotAvailable.

(** Modelled from the spec: the Transport collaborator,
    [send(...) -> (status, body) | NetworkError]; an answer says whether
    the server found the local counter lagging. *)
Inductive Reply : Type :=
| Answer (lagging : bool) (body : string)
| Refused (code : Z)
| Unreachable.

Inductive Request : Type :=
| Endpoint (url : string)
| Resynchronize.

(** Modelled from the spec: the state of one configured or unconfigured
    instance (sections 3 and 4.1): configuration, activation status,
    identifier, counter and protocol version, the consecutive password
    failures and their threshold, the pending activation, the SecureStorage
    key-value store, and the three collaborators as scripts of what they
    will answer.  Three records are kept beside them: [wire], the round
    trips made, each request with the reply it got; [issued], the counter
    values under which the signatures of the current activation were
    produced, in order; [prompts], the biometric prompts shown.
    [recovered] is local to the call in progress: it says that this call
    has already made its resynchronization handshake.

    [signatureCounter] is the [uint64] of the spec: a value below [2 ^ 64]
    held in [N], advanced with the wrap-around of 64-bit arithmetic. *)
Record Session : Type := {
  config : option PowerAuthConfiguration;
  status : ActivationStatus;
  activationId : option string;
  signatureCounter : N;
  protocolVersion : ProtocolVersion;
  failedAttempts : nat;
  maxFailedAttempts : nat;
  pending : option string;
  storage : gmap string string;
  gate : list GateAnswer;
  replies : list Reply;
  faults : list bool;
  goneCodes : list Z;
  wire : list (Request * Reply);
  issued : list N;
  recovered : bool;
  prompts : nat
}.

Definition set_config (v : option PowerAuthConfiguration) (s : Session) : Session :=
  {| config := v; status := status s; activationId := activationId s;
     signatureCounter := signatureCounter s; protocolVersion := protocolVersion s;
     failedAttempts := failedAttempts s; maxFailedAttempts := maxFailedAttempts s;
     pending := pending s; storage := storage s; gate := gate s; replies := replies s;
     faults := faults s; goneCodes := goneCodes s; wire := wire s; issued := issued s;
     recovered := recovered s; prompts := prompts s |}.

Definition set_status (v : ActivationStatus) (s : Session) : Session :=
  {| config := config s; status := v; activationId := activationId s;
     signatureCounter := signatureCounter s; protocolVersion := protocolVersion s;
     failedAttempts := failedAttempts s; maxFailedAttempts := maxFailedAttempts s;
     pending := pending s; storage := storage s; gate := gate s; replies := replies s;
     faults := faults s; goneCodes := goneCodes s; wire := wire s; issued := issued s;
     recovered := recovered s; prompts := prompts s |}.

Definition set_activationId (v : option string) (s : Session) : Session :=
  {| config := config s; status := status s; activationId := v;
     signatureCounter := signatureCounter s; protocolVersion := protocolVersion s;
     failedAttempts := failedAttempts s; maxFailedAttempts := maxFailedAttempts s;
     pending := pending s; storage := storage s; gate := gate s; replies := replies s;
     faults := faults s; goneCodes := goneCodes s; wire := wire s; issued := issued s;
     recovered := recovered s; prompts := prompts s |}.

Definition set_signatureCounter (v : N) (s : Session) : Session :=
  {| config := config s; status := status s; activationId := activationId s;
     signatureCounter := v; protocolVersion := protocolVersion s;
     failedAttempts := failedAttempts s; maxFailedAttempts := maxFailedAttempts s;
     pending := pending s; storage := storage s; gate := gate s; replies := replies s;
     faults := faults s; goneCodes := goneCodes s; wire := wire s; issued := issued s;
     recovered := recovered s; prompts := prompts s |}.

Definition set_protocolVersion (v : ProtocolVersion) (s : Session) : Session :=
  {| config := config s; status := status s; activationId := activationId s;
     signatureCounter := signatureCounter s; protocolVersion := v;
     failedAttempts := failedAttempts s; maxFailedAttempts := maxFailedAttempts s;
     pending := pending s; storage := storage s; gate := gate s; replies := replies s;
     faults := faults s; goneCodes := goneCodes s; wire := wire s; issued := issued s;
     recovered := recovered s; prompts := prompts s |}.

Definition set_failedAttempts (v : nat) (s : Session) : Session :=
  {| config := config s; status := status s; activationId := activationId s;
     signatureCounter := signatureCounter s; protocolVersion := protocolVersion s;
     failedAttempts := v; maxFailedAttempts := maxFailedAttempts s;
     pending := pending s; storage := storage s; gate := gate s; replies := replies s;
     faults := faults s; goneCodes := goneCodes s; wire := wire s; issued := issued s;
     recovered := recovered s; prompts := prompts s |}.

Definition set_pending (v : option string) (s : Session) : Session :=
  {| config := config s; status := status s; activationId := activationId s;
     signatureCounter := signatureCounter s; protocolVersion := protocolVersion s;
     failedAttempts := failedAttempts s; maxFailedAttempts := maxFailedAttempts s;
     pending := v; storage := storage s; gate := gate s; replies := replies s;
     faults := faults s; goneCodes := goneCodes s; wire := wire s; issued := issued s;
     recovered := recovered s; prompts := prompts s |}.

Definition set_storage (v : gmap string string) (s : Session) : Session :=
  {| config := config s; status := status s; activationId := activationId s;
     signatureCounter := signatureCounter s; protocolVersion := protocolVersion s;
     failedAttempts := failedAttempts s; maxFailedAttempts := maxFailedAttempts s;
     pending := pending s; storage := v; gate := gate s; replies := replies s;
     faults := faults s; goneCodes := goneCodes s; wire := wire s; issued := issued s;
     recovered := recovered s; prompts := prompts s |}.

Definition set_faults (v : list bool) (s : Session) : Session :=
  {| config := config s; status := status s; activationId := activationId s;
     signatureCounter := signatureCounter s; protocolVersion := protocolVersion s;
     failedAttempts := failedAttempts s; maxFailedAttempts := maxFailedAttempts s;
     pending := pending s; storage := storage s; gate := gate s; replies := replies s;
     faults := v; goneCodes := goneCodes s; wire := wire s; issued := issued s;
     recovered := recovered s; prompts := prompts s |}.

Definition set_issued (v : list N) (s : Session) : Session :=
  {| config := config s; status := status s; activationId := activationId s;
     signatureCounter := signatureCounter s; protocolVersion := protocolVersion s;
     failedAttempts := failedAttempts s; maxFailedAttempts := maxFailedAttempts s;
     pending := pending s; storage := storage s; gate := gate s; replies := replies s;
     faults := faults s; goneCodes := goneCodes s; wire := wire s; issued := v;
     recovered := recovered s; prompts := prompts s |}.

Definition set_recovered (v : bool) (s : Session) : Session :=
  {| config := config s; status := status s; activationId := activationId s;
     signatureCounter := signatureCounter s; protocolVersion := protocolVersion s;
     failedAttempts := failedAttempts s; maxFailedAttempts := maxFailedAttempts s;
     pending := pending s; storage := storage s; gate := gate s; replies := replies s;
     faults := faults s; goneCodes := goneCodes s; wire := wire s; issued := issued s;
     recovered := v; prompts := prompts s |}.

(** The gate was asked once more and the script moved on. *)
Definition prompted (rest : list GateAnswer) (s : Session) : Session :=
  {| config := config s; status := status s; activationId := activationId s;
     signatureCounter := signatureCounter s; protocolVersion := protocolVersion s;
     failedAttempts := failedAttempts s; maxFailedAttempts := maxFailedAttempts s;
     pending := pending s; storage := storage s; gate := rest; replies := replies s;
     faults := faults s; goneCodes := goneCodes s; wire := wire s; issued := issued s;
     recovered := recovered s; prompts := S (prompts s) |}.

(** A request went out and was answered: the script of replies moved on. *)
Definition requested (q : Request) (r : Reply) (rest : list Reply) (s : Session) : Session :=
  {| config := config s; status := status s; activationId := activationId s;
     signatureCounter := signatureCounter s; protocolVersion := protocolVersion s;
     failedAttempts := failedAttempts s; maxFailedAttempts := maxFailedAttempts s;
     pending := pending s; storage := storage s; gate := gate s; replies := rest;
     faults := faults s; goneCodes := goneCodes s; wire := (wire s ++ [(q, r)])%list;
     issued := issued s; recovered := recovered s; prompts := prompts s |}.
(** *** The engine as a state-and-rejection computation *)

Definition M (A : Type) : Type := Session -> Outcome A * Session.

Definition ret {A : Type} (a : A) : M A := fun s => (Fulfilled a, s).

Definition reject {A : Type} (kind : ErrorKind) : M A :=
  fun s => (Rejected (NativeRejection kind), s).

(** A rejection ends the computation with the state reached so far. *)
Definition bind {A B : Type} (f : M A) (g : A -> M B) : M B :=
  fun s =>
    match f s with
    | (Fulfilled a, s1) => g a s1
    | (Rejected e, s1) => (Rejected e, s1)
    end.

(** What a step gave, fulfilled or rejected, is looked at and the
    computation goes on from the state the step left. *)
Definition inspect {A B : Type} (f : M A) (k : Outcome A -> M B) : M B :=
  fun s => let '(r, s1) := f s in k r s1.

Definition raise {A : Type} (e : Thrown) : M A := fun s => (Rejected e, s).

Definition read {A : Type} (f : Session -> A) : M A := fun s => (Fulfilled (f s), s).

Definition modify (f : Session -> Session) : M unit := fun s => (Fulfilled tt, f s).

Notation "'do' x <- c ; k" := (bind c (fun x => k))
  (at level 10, x name, c at level 100, k at level 200).

Notation "c ;; k" := (bind c (fun _ => k))
  (at level 100, k at level 200, right associativity).

(** Modelled from the spec: the Unconfigured and Configured states of the
    SessionStateMachine, as the native ["isConfigured"] reports them. *)
Definition is_configured (s : Session) : bool :=
  match config s with Some _ => true | None => false end.

(** *** Collaborators *)

(** Modelled from the spec: [BiometricGate.unlock]; one prompt per call. *)
Definition unlock : M string :=
  fun s =>
    match gate s with
    | Approve :: rest =>
        match storage s !! "biometryKey" with
        | Some key => (Fulfilled key, prompted rest s)
        | None => reject (BiometryFailed Unavailable) (prompted rest s)
        end
    | Cancel :: rest => reject (BiometryFailed UserCancelled) (prompted rest s)
    | NotAvailable :: rest => reject (BiometryFailed Unavailable) (prompted rest s)
    | [] => reject (BiometryFailed Unavailable) (prompted [] s)
    end.

(** Modelled from the spec: [Transport.send]; one round trip, recorded on
    the wire with its reply.  A script that has run out is a server that
    cannot be reached. *)
Definition send (q : Request) : M Reply :=
  fun s =>
    match replies s with
    | r :: rest => (Fulfilled r, requested q r rest s)
    | [] => (Fulfilled Unreachable, requested q Unreachable [] s)
    end.

(** Modelled from the spec: [SecureStorage.set] and [SecureStorage.remove],
    which an injected fault can make fail; a failed operation leaves the
    store as it was. *)
Definition storage_set (k v : string) : M unit :=
  fun s =>
    match faults s with
    | true :: rest => reject StorageError (set_faults rest s)
    | false :: rest => (Fulfilled tt, set_storage (<[k:=v]> (storage s)) (set_faults rest s))
    | [] => (Fulfilled tt, set_storage (<[k:=v]> (storage s)) s)
    end.

Definition storage_remove (k : string) : M unit :=
  fun s =>
    match faults s with
    | true :: rest => reject StorageError (set_faults rest s)
    | false :: rest => (Fulfilled tt, set_storage (delete k (storage s)) (set_faults rest s))
    | [] => (Fulfilled tt, set_storage (delete k (storage s)) s)
    end.

(** *** SignatureEngine *)

(** Modelled from the spec: [signatureCounter : uint64] advances by exactly
    one per signature; the addition is that of 64-bit unsigned integers. *)
Definition uint64_modulus : N := 2 ^ 64.

Definition advance (c : N) : N := ((c + 1) mod uint64_modulus)%N.

(** Modelled from the spec: step 5 of [computeSignature]: a signature is
    made under the current counter value, and the advanced counter is
    stored before the signature is handed out. *)
Definition issue : M N :=
  fun s =>
    (Fulfilled (signatureCounter s),
     set_issued (issued s ++ [signatureCounter s])%list
       (set_signatureCounter (advance (signatureCounter s)) s)).

(** Modelled from the spec: counter-desynchronization recovery (4.2, 7).
    If the answer says that the local counter lags and this call has not
    yet made a handshake, one signature-validate round trip, itself signed,
    is made before the answer of the original request is surfaced; what an
    answer says about lagging after that is not acted on again in the same
    call.  [CounterDesynchronized] is surfaced when the handshake fails. *)
Definition exchange (url : string) : M string :=
  do r <- send (Endpoint url);
  match r with
  | Answer lagging body =>
      do already <- read recovered;
      if lagging && negb already then
        modify (set_recovered true) ;;
        issue ;;
        do h <- send Resynchronize;
        match h with
        | Answer _ _ => ret body
        | _ => reject CounterDesynchronized
        end
      else ret body
  | Refused code => reject (ServerRejected code)
  | Unreachable => reject NetworkError
  end.

Definition has_value {A : Type} (x : Nullable A) : bool :=
  match x with value _ => true | _ => false end.

(** Modelled from the spec: step 1 of [computeSignature]; with
    [useBiometry], a prior gate unlock must have produced the key material,
    which is the biometry key kept in secure storage. *)
Definition biometry_unlocked (a : PowerAuthAuthentication) (s : Session) : bool :=
  match biometryKey a, storage s !! "biometryKey" with
  | value k, Some k' => String.eqb k k'
  | _, _ => false
  end.

(** Modelled from the spec: step 2 of [computeSignature]; the knowledge key
    decrypts under the supplied password, and under no other. *)
Definition password_accepted (a : PowerAuthAuthentication) (s : Session) : bool :=
  match userPassword a with
  | value p =>
      match storage s !! "knowledgeKey" with
      | Some p' => String.eqb p p'
      | None => false
      end
  | _ => true
  end.

(** Modelled from the spec: step 6 of [computeSignature]; one more
    consecutive password failure, and Blocked when the configured threshold
    is reached. *)
Definition wrong_password (s : Session) : Session :=
  let n := S (failedAttempts s) in
  if Nat.leb (maxFailedAttempts s) n
  then set_status Blocked (set_failedAttempts n s)
  else set_failedAttempts n s.

(** Modelled from the spec: [computeSignature] (4.2), steps 1 to 6: the
    descriptor is validated, the factors are checked, the signature is
    made over method, uriId, nonce, data and the counter value, and the
    advanced counter is stored before the header is returned. *)
Definition computeSignature (a : PowerAuthAuthentication) (method uriId : string)
    (nonce : Nullable string) (data : JsValue) : M JsValue :=
  do s <- read (fun s => s);
  if negb (usePossession a || useBiometry a || has_value (userPassword a))
  then reject WrongParameter
  else if useBiometry a && negb (biometry_unlocked a s)
  then reject (BiometryFailed Unavailable)
  else if negb (password_accepted a s)
  then modify wrong_password ;; reject WrongPassword
  else
    do counter <- issue;
    modify (set_failedAttempts 0) ;;
    ret (JsSignature counter method uriId nonce data).

(** Modelled from the spec: [unlockVault] (4.3): the unlock request is
    itself signed, then the vault key is fetched from the server. *)
Definition unlockVault (a : PowerAuthAuthentication) : M JsValue :=
  computeSignature a "POST" "/pa/vault/unlock" undefined JsNull ;;
  do vaultKey <- exchange "/pa/vault/unlock";
  ret (JsString vaultKey).

(** The descriptor of a call that authenticates with a password alone:
    possession and knowledge. *)
Definition knowledge (password : string) : PowerAuthAuthentication :=
  {| usePossession := true; useBiometry := false; userPassword := value password;
     biometryMessage := null; biometryTitle := null; biometryKey := undefined |}.

(** Modelled from the spec and from the doc comment of [validatePassword]:
    the password is checked by a signed request to [/pa/signature/validate]. *)
Definition validate (password : string) : M unit :=
  computeSignature (knowledge password) "POST" "/pa/signature/validate" undefined JsNull ;;
  exchange "/pa/signature/validate" ;;
  ret tt.

(** *** SessionStateMachine *)

(** Modelled from the spec: the [NotConfigured] failure; by
    [docs/Configuration.md] an unconfigured instance throws. *)
Definition configured_only {A : Type} (f : M A) : M A :=
  do c <- read config;
  match c with
  | Some _ => f
  | None => reject NotConfigured
  end.

(** Modelled from the spec: any signing operation requires
    [status == Valid]; otherwise it fails with [MissingActivation] (4.1). *)
Definition signing {A : Type} (f : M A) : M A :=
  configured_only
    (do st <- read status;
     match st with
     | Valid => f
     | _ => reject MissingActivation
     end).

(** Modelled from the spec: [configure()]: Unconfigured to
    Configured/NoActivation; fails with [AlreadyConfigured] otherwise. *)
Definition configure (c : PowerAuthConfiguration) : M JsValue :=
  do current <- read config;
  match current with
  | None =>
      modify (fun s => set_status NoActivation (set_config (Some c) s)) ;;
      ret (JsBool true)
  | Some _ => reject AlreadyConfigured
  end.

(** Modelled from the spec: [deconfigure()], back to Unconfigured. *)
Definition deconfigure : M JsValue :=
  configured_only (modify (set_config None) ;; ret (JsBool true)).

(** Modelled from the spec: [createActivation()]: valid only from
    NoActivation; on success PendingCreation holds the server response;
    a transport or protocol failure leaves NoActivation. *)
Definition createActivation : M JsValue :=
  configured_only
    (do st <- read status;
     match st with
     | NoActivation =>
         do body <- exchange "/pa/activation/create";
         modify (fun s => set_status PendingCreation (set_pending (Some body) s)) ;;
         ret (JsString body)
     | _ => reject InvalidActivationState
     end).

(** Modelled from the spec: the persistence sub-steps of a commit, in
    order: the cached possession-related key, the biometry key, the knowledge
    key, then the activation state itself. *)
Definition commit_writes (a : PowerAuthAuthentication) (s : Session)
  : list (string * string) :=
  ((if usePossession a then [("possessionKey", "possession")] else []) ++
   (if useBiometry a then [("biometryKey", "biometry")] else []) ++
   (match userPassword a with value p => [("knowledgeKey", p)] | _ => [] end) ++
   [("activationState", default "activation" (pending s))])%list.

(** Modelled from the spec and from the doc comment of
    [removeActivationLocal]: the activation state, the biometry factor key
    and the knowledge key are removed; the cached possession-related key
    remains intact.  The counter and the record of the signatures issued
    belong to the activation and go with it. *)
Definition clear_activation (s : Session) : Session :=
  set_status NoActivation
    (set_activationId None
       (set_signatureCounter 0
          (set_issued []
             (set_failedAttempts 0
                (set_storage
                   (delete "activationState"
                      (delete "biometryKey" (delete "knowledgeKey" (storage s)))) s))))).

(** Modelled from the spec: undoing one write of a commit is itself a
    SecureStorage operation, which can fail. *)
Definition restore (k : string) (old : option string) : M unit :=
  match old with
  | Some v => storage_set k v
  | None => storage_remove k
  end.

(** Modelled from the spec: the full rollback of a failed commit; the
    writes made so far are undone, the latest first, until one of the
    undoing operations fails. *)
Fixpoint rollback (undo : list (string * option string)) : M unit :=
  match undo with
  | [] => ret tt
  | (k, old) :: rest => restore k old ;; rollback rest
  end.

(** Modelled from the spec: the writes of a commit are made one by one,
    remembering what each one replaced; the first failure rolls everything
    back and is surfaced as the storage failure it is.  When the rollback
    itself cannot be completed the failure propagates as [CorruptedState],
    which forces the semantics of [removeActivationLocal] (4.1, 7): the
    pending activation is dropped and the instance is back in NoActivation. *)
Fixpoint persist (writes : list (string * string)) (undo : list (string * option string))
  : M unit :=
  match writes with
  | [] => ret tt
  | (k, v) :: rest =>
      do old <- read (fun s => storage s !! k);
      inspect (storage_set k v)
        (fun written =>
           match written with
           | Fulfilled _ => persist rest ((k, old) :: undo)
           | Rejected _ =>
               inspect (rollback undo)
                 (fun undone =>
                    match undone with
                    | Fulfilled _ => reject StorageError
                    | Rejected _ =>
                        modify (fun s => set_pending None (clear_activation s)) ;;
                        reject CorruptedState
                    end)
           end)
  end.

(** Modelled from the spec: [commitActivation(authentication)]: valid only
    from PendingCreation; stores the keys for the supplied factors and the
    activation state, then moves to Valid with a zero counter; a failure
    of any persistence sub-step rolls the store back (4.1). *)
Definition commitActivation (a : PowerAuthAuthentication) : M JsValue :=
  configured_only
    (do s <- read (fun s => s);
     match status s with
     | PendingCreation =>
         persist (commit_writes a s) [] ;;
         modify (fun s1 =>
                   set_status Valid
                     (set_signatureCounter 0
                        (set_issued []
                           (set_protocolVersion V3
                              (set_failedAttempts 0
                                 (set_activationId (pending s1) (set_pending None s1))))))) ;;
         ret JsUndefined
     | _ => reject InvalidActivationState
     end).

(** Modelled from the spec: [removeActivationLocal()]: Valid or Blocked to
    NoActivation. *)
Definition removeActivationLocal : M JsValue :=
  configured_only
    (do st <- read status;
     match st with
     | Valid | Blocked => modify clear_activation ;; ret JsUndefined
     | _ => reject InvalidActivationState
     end).

(** Modelled from the spec: the remote removal is refused with one of the
    codes that mean already removed remotely. *)
Definition already_removed (e : Thrown) (s : Session) : bool :=
  match e with
  | NativeRejection (ServerRejected code) => existsb (Z.eqb code) (goneCodes s)
  | _ => false
  end.

(** Modelled from the spec and from the doc comment of
    [removeActivationWithAuthentication]: the request, signed with the
    factors of the authentication, goes to the remote removal endpoint
    first; the local state is cleared only on success, or on one of the
    codes that mean already removed remotely. *)
Definition removeActivationWithAuthentication (a : PowerAuthAuthentication) : M JsValue :=
  configured_only
    (do st <- read status;
     match st with
     | Valid | Blocked =>
         computeSignature a "POST" "/pa/activation/remove" undefined JsNull ;;
         inspect (exchange "/pa/activation/remove")
           (fun answered =>
              match answered with
              | Fulfilled _ => modify clear_activation ;; ret JsUndefined
              | Rejected e =>
                  do gone <- read (already_removed e);
                  if gone then modify clear_activation ;; ret JsUndefined else raise e
              end)
     | _ => reject InvalidActivationState
     end).

(** Modelled from the spec and from the doc comment of
    [fetchActivationStatus]: the status round trip, then, when the
    activation still runs protocol V2, the two round trips of the upgrade;
    the signature-validate round trip of the list in the doc comment is the
    resynchronization handshake, made at most once among them. *)
Definition fetchActivationStatus : M JsValue :=
  configured_only
    (do id <- read activationId;
     match id with
     | None => reject MissingActivation
     | Some _ =>
         do body <- exchange "/pa/activation/status";
         do version <- read protocolVersion;
         match version with
         | V3 => ret (JsString body)
         | V2 =>
             exchange "/pa/upgrade/start" ;;
             exchange "/pa/upgrade/commit" ;;
             modify (set_protocolVersion V3) ;;
             ret (JsString body)
         end
     end).

(** Modelled from the spec: the status queries [hasValidActivation],
    [canStartActivation] and [hasPendingActivation]. *)
Definition status_is (st : ActivationStatus) : M JsValue :=
  configured_only
    (do current <- read status;
     ret (JsBool match current, st with
                 | NoActivation, NoActivation
                 | PendingCreation, PendingCreation
                 | Valid, Valid => true
                 | _, _ => false
                 end)).

(** Modelled from the doc comments of [getActivationIdentifier] and
    [getActivationFingerprint]: the identifier, or the fingerprint derived
    from the device key of the activation, or [null] without activation. *)
Definition activationIdentifier : M JsValue :=
  configured_only
    (do id <- read activationId;
     ret match id with Some i => JsString i | None => JsNull end).

Definition activationFingerprint : M JsValue :=
  configured_only
    (do id <- read activationId;
     ret match id with Some i => JsString ("fingerprint of " ++ i) | None => JsNull end).

(** Modelled from the doc comment of [verifyServerSignedData]: the data is
    checked against the master server public key or the key of the
    personalized server; a signature by a key is the key followed by the
    data. *)
Definition verifyServerSignedData (data signature : string) (masterKey : bool)
  : M JsValue :=
  do s <- read (fun s => s);
  match config s with
  | None => reject NotConfigured
  | Some c =>
      if masterKey
      then ret (JsBool (String.eqb signature (masterServerPublicKey c ++ ":" ++ data)))
      else
        match activationId s with
        | Some i => ret (JsBool (String.eqb signature (i ++ ":" ++ data)))
        | None => ret (JsBool false)
        end
  end.

(** Modelled from the spec and from the doc comment of [validatePassword]. *)
Definition validatePassword (password : string) : M JsValue :=
  signing (validate password ;; ret JsUndefined).

(** Modelled from the spec and from the doc comment of [changePassword]:
    the old password is validated on the server, then the knowledge key is
    stored again under the new one. *)
Definition changePassword (oldPassword newPassword : string) : M JsValue :=
  signing
    (validate oldPassword ;;
     storage_set "knowledgeKey" newPassword ;;
     ret JsUndefined).

(** Modelled from the doc comment of [unsafeChangePassword]: the knowledge
    key is re-encrypted locally and no endpoint is called; with a wrong old
    password the re-encrypted data is useless, no password opens it. *)
Definition unsafeChangePassword (oldPassword newPassword : string) : M JsValue :=
  configured_only
    (do s <- read (fun s => s);
     match status s, storage s !! "knowledgeKey" with
     | Valid, Some current =>
         (if String.eqb oldPassword current
          then storage_set "knowledgeKey" newPassword
          else storage_remove "knowledgeKey") ;;
         ret (JsBool true)
     | _, _ => ret (JsBool false)
     end).

(** Modelled from the spec and from the doc comment of [addBiometryFactor]:
    the vault is unlocked with the password, then the regenerated biometry
    key is stored.  The dialog that the platform shows at key setup is not
    part of the model. *)
Definition addBiometryFactor (password : string) : M JsValue :=
  signing
    (unlockVault (knowledge password) ;;
     storage_set "biometryKey" "biometry" ;;
     ret JsUndefined).

(** Modelled from the doc comments of [hasBiometryFactor] and
    [removeBiometryFactor]: whether the key is in the keychain; whether it
    was removed. *)
Definition hasBiometryFactor : M JsValue :=
  configured_only
    (do m <- read storage;
     ret (JsBool match m !! "biometryKey" with Some _ => true | None => false end)).

Definition removeBiometryFactor : M JsValue :=
  configured_only
    (do m <- read storage;
     match m !! "biometryKey" with
     | None => ret (JsBool false)
     | Some _ =>
         inspect (storage_remove "biometryKey")
           (fun removed => ret (JsBool (is_fulfilled removed)))
     end).

(** Modelled from the doc comment of [getBiometryInfo]: whether the gate
    can be asked at all. *)
Definition getBiometryInfo : M JsValue :=
  configured_only
    (do g <- read gate;
     ret (JsObject [("canAuthenticate",
                     JsBool match g with NotAvailable :: _ => false | _ => true end)])).

(** Modelled from the spec: [recoveryData] of ActivationState, present only
    if the server issued recovery credentials; vault-backed (6). *)
Definition hasActivationRecoveryData : M JsValue :=
  configured_only
    (do m <- read storage;
     ret (JsBool match m !! "recoveryData" with Some _ => true | None => false end)).

Definition activationRecoveryData (a : PowerAuthAuthentication) : M JsValue :=
  signing
    (unlockVault a ;;
     do m <- read storage;
     ret match m !! "recoveryData" with Some d => JsString d | None => JsNull end).

(** Modelled from the spec and from the doc comment of
    [confirmRecoveryCode]: a signed request to [/pa/recovery/confirm]; the
    answer says whether the code was already confirmed. *)
Definition confirmRecoveryCode (recoveryCode : string) (a : PowerAuthAuthentication)
  : M JsValue :=
  signing
    (computeSignature a "POST" "/pa/recovery/confirm" undefined (JsString recoveryCode) ;;
     do body <- exchange "/pa/recovery/confirm";
     ret (JsBool (String.eqb body "ALREADY_CONFIRMED"))).

(** *** The bridge *)

(** Modelled from the spec: the dispatch of [__NativeWrapper.call] on the
    name of the native method, for every name that the class [PowerAuth]
    uses; arguments of another shape are refused. *)
Definition dispatch (name : string) (args : list JsValue) : M JsValue :=
  if String.eqb name "isConfigured" then read (fun s => JsBool (is_configured s))
  else if String.eqb name "configure" then
    match args with
    | JsConfiguration c :: _ => configure c
    | _ => reject WrongParameter
    end
  else if String.eqb name "deconfigure" then deconfigure
  else if String.eqb name "hasValidActivation" then status_is Valid
  else if String.eqb name "canStartActivation" then status_is NoActivation
  else if String.eqb name "hasPendingActivation" then status_is PendingCreation
  else if String.eqb name "fetchActivationStatus" then fetchActivationStatus
  else if String.eqb name "createActivation" then createActivation
  else if String.eqb name "commitActivation" then
    match args with
    | [JsAuthentication a] => commitActivation a
    | _ => reject WrongParameter
    end
  else if String.eqb name "activationIdentifier" then activationIdentifier
  else if String.eqb name "activationFingerprint" then activationFingerprint
  else if String.eqb name "removeActivationLocal" then removeActivationLocal
  else if String.eqb name "removeActivationWithAuthentication" then
    match args with
    | [JsAuthentication a] => removeActivationWithAuthentication a
    | _ => reject WrongParameter
    end
  else if String.eqb name "requestSignature" then
    match args with
    | [JsAuthentication a; JsString method; JsString uriId; body] =>
        signing (computeSignature a method uriId undefined body)
    | _ => reject WrongParameter
    end
  else if String.eqb name "requestGetSignature" then
    match args with
    | [JsAuthentication a; JsString uriId; params] =>
        signing (computeSignature a "GET" uriId undefined params)
    | _ => reject WrongParameter
    end
  else if String.eqb name "offlineSignature" then
    match args with
    | [JsAuthentication a; JsString uriId; body; JsString nonce] =>
        signing (computeSignature a "POST" uriId (value nonce) body)
    | _ => reject WrongParameter
    end
  else if String.eqb name "verifyServerSignedData" then
    match args with
    | [JsString data; JsString signature; JsBool masterKey] =>
        verifyServerSignedData data signature masterKey
    | _ => reject WrongParameter
    end
  else if String.eqb name "changePassword" then
    match args with
    | [JsString oldPassword; JsString newPassword] => changePassword oldPassword newPassword
    | _ => reject WrongParameter
    end
  else if String.eqb name "unsafeChangePassword" then
    match args with
    | [JsString oldPassword; JsString newPassword] =>
        unsafeChangePassword oldPassword newPassword
    | _ => reject WrongParameter
    end
  else if String.eqb name "addBiometryFactor" then
    match args with
    | [JsString password] | [JsString password; JsString _; JsString _] =>
        addBiometryFactor password
    | _ => reject WrongParameter
    end
  else if String.eqb name "hasBiometryFactor" then hasBiometryFactor
  else if String.eqb name "removeBiometryFactor" then removeBiometryFactor
  else if String.eqb name "getBiometryInfo" then getBiometryInfo
  else if String.eqb name "fetchEncryptionKey" then
    match args with
    | [JsAuthentication a; JsNumber _] => signing (unlockVault a)
    | _ => reject WrongParameter
    end
  else if String.eqb name "signDataWithDevicePrivateKey" then
    match args with
    | [JsAuthentication a; JsString _] => signing (unlockVault a)
    | _ => reject WrongParameter
    end
  else if String.eqb name "validatePassword" then
    match args with
    | [JsString password] => validatePassword password
    | _ => reject WrongParameter
    end
  else if String.eqb name "hasActivationRecoveryData" then hasActivationRecoveryData
  else if String.eqb name "activationRecoveryData" then
    match args with
    | [JsAuthentication a] => activationRecoveryData a
    | _ => reject WrongParameter
    end
  else if String.eqb name "confirmRecoveryCode" then
    match args with
    | [JsString recoveryCode; JsAuthentication a] => confirmRecoveryCode recoveryCode a
    | _ => reject WrongParameter
    end
  else reject NoSuchMethod.

(** Modelled from the spec: [__NativeWrapper.call]: one call of a native
    method.  The recovery allowance is per call (4.2): it is fresh when the
    method starts and is not carried over to the next call. *)
Definition call (name : string) (args : list JsValue) : M JsValue :=
  fun s =>
    let '(r, s1) := dispatch name args (set_recovered false s) in
    (r, set_recovered (recovered s) s1).

Definition with_biometryKey (k : string) (a : PowerAuthAuthentication)
  : PowerAuthAuthentication :=
  {| usePossession := usePossession a;
     useBiometry := useBiometry a;
     userPassword := userPassword a;
     biometryMessage := biometryMessage a;
     biometryTitle := biometryTitle a;
     biometryKey := value k |}.

(** Modelled from the spec: [__NativeWrapper.authenticate] (4.4): a
    descriptor that asks for biometry and is not yet bound to key material
    goes through one gate unlock and comes back bound to the key; any
    other descriptor is returned as it is, without a prompt. *)
Definition authenticate (a : PowerAuthAuthentication) (makeReusable : option bool)
    (s : Session) : Outcome PowerAuthAuthentication * Session :=
  if useBiometry a && negb (has_value (biometryKey a)) then
    match unlock s with
    | (Fulfilled key, s1) => (Fulfilled (with_biometryKey key a), s1)
    | (Rejected e, s1) => (Rejected e, s1)
    end
  else (Fulfilled a, s).

(** Modelled from the spec: the static [__NativeWrapper.processException];
    by the comment at its call site in [groupedBiometricAuthentication], the
    caught error is rethrown as a [PowerAuthError]. *)
Definition processException (e : Thrown) : Thrown :=
  match e with
  | PowerAuthError _ _ => e
  | NativeRejection _ => PowerAuthError (Some e) None
  end.

(** The bridge over the modelled engine, with the defaults of
    [docs/Configuration.md] on Android. *)
#[global] Instance bridge : Bridge Session :=
  Build_Bridge Session call authenticate processException
    {| enableUnsecureTraffic := false; connectionTimeout := 20; readTimeout := 20 |}
    {| linkItemsToCurrentSet := true;
       fallbackToDevicePasscode := false;
       confirmBiometricAuthentication := false;
       authenticateOnBiometricKeySetup := true |}
    {| accessGroupName := null;
       userDefaultsSuiteName := null;
       minimalRequiredKeychainProtection := "NONE" |}
    "android".

(** A freshly started application: nothing configured, nothing stored; the
    activation is blocked at the fifth consecutive password failure. *)
Definition fresh (gate : list GateAnswer) (replies : list Reply) (faults : list bool)
  : Session :=
  {| config := None; status := NoActivation; activationId := None;
     signatureCounter := 0; protocolVersion := V3;
     failedAttempts := 0; maxFailedAttempts := 5;
     pending := None; storage := ∅;
     gate := gate; replies := replies; faults := faults; goneCodes := [];
     wire := []; issued := []; recovered := false; prompts := 0 |}.

End Native.

(** [new PowerAuth(id)] over a given native session, with an empty trace. *)
Definition boot (id : string) (s : Native.Session) : World Native.Session :=
  Build_World (new_PowerAuth id) s [].

(** ** Readers and concrete inputs used in the statements *)

(** An optional argument that was omitted or passed as [null]. *)
Definition is_missing {A : Type} (x : Nullable A) : bool :=
  match x with
  | value _ => false
  | undefined | null => true
  end.

(** The instance after [deconfigure] has reset its cached properties. *)
Definition forgotten (this : PowerAuth) : PowerAuth :=
  {| instanceId := instanceId this;
     configuration := null;
     clientConfiguration := null;
     biometryConfiguration := null;
     keychainConfiguration := null |}.

(** The signature operations proper. *)
Definition is_signature_operation (c : AuthorizedCall) : bool :=
  match c with
  | RequestSignature _ _ _ | RequestGetSignature _ _ | OfflineSignature _ _ _ => true
  | _ => false
  end.

(** The signing operations among the methods that take an authentication
    object: the signature operations and the vault-backed calls, which sign
    their request.  [removeActivationWithAuthentication] is a transition of
    the activation lifecycle, allowed from Valid and from Blocked (4.1). *)
Definition is_signing_operation (c : AuthorizedCall) : bool :=
  match c with
  | RemoveActivationWithAuthentication => false
  | _ => true
  end.

(** The counter values carried by the signatures among some outcomes. *)
Fixpoint signature_counters (rs : list (Outcome JsValue)) : list N :=
  match rs with
  | [] => []
  | Fulfilled (JsSignature counter _ _ _ _) :: rest => counter :: signature_counters rest
  | _ :: rest => signature_counters rest
  end.

Definition successes {A : Type} (rs : list (Outcome A)) : nat :=
  length (filter (fun r => is_fulfilled r = true) rs).

(** The counter values [c], [c + 1], ..., [c + n - 1]. *)
Fixpoint counters_from (c : N) (n : nat) : list N :=
  match n with
  | O => []
  | S n' => c :: counters_from (c + 1) n'
  end.

(** The counter values of [n] consecutive signatures from [c] on, as the
    64-bit counter produces them. *)
Fixpoint ticks (c : N) (n : nat) : list N :=
  match n with
  | O => []
  | S n' => c :: ticks (Native.advance c) n'
  end.

(** The round trips that a native step makes. *)
Definition round_trips {A : Type} (f : Native.Session -> A * Native.Session)
    (s : Native.Session) : list (Native.Request * Native.Reply) :=
  drop (length (Native.wire s)) (Native.wire (snd (f s))).

(** The round trips that a call of the facade makes the engine do. *)
Definition facade_round_trips {A : Type} (c : Async Native.Session A)
    (w : World Native.Session) : list (Native.Request * Native.Reply) :=
  drop (length (Native.wire (native w))) (Native.wire (native (snd (c w)))).

Definition is_handshake (x : Native.Request * Native.Reply) : bool :=
  match x with
  | (Native.Resynchronize, _) => true
  | _ => false
  end.

(** An answer that says that the local counter lags. *)
Definition is_lagging (x : Native.Request * Native.Reply) : bool :=
  match x with
  | (_, Native.Answer true _) => true
  | _ => false
  end.

Definition is_answer (r : Native.Reply) : bool :=
  match r with
  | Native.Answer _ _ => true
  | _ => false
  end.

(** The resynchronization handshakes among some round trips. *)
Definition handshakes (trips : list (Native.Request * Native.Reply)) : nat :=
  length (filter (fun x => is_handshake x = true) trips).

(** Round trips without a handshake and without an answer that reports a
    lagging counter. *)
Definition quiet (trips : list (Native.Request * Native.Reply)) : bool :=
  forallb (fun x => negb (is_handshake x) && negb (is_lagging x)) trips.

(** Where a call stands with its one recovery: nothing reported yet, a
    lagging answer just received, the handshake made, the handshake failed. *)
Inductive Phase : Type := Fresh | Lagged | Recovered | Failed.

Definition phase_step (p : Phase) (x : Native.Request * Native.Reply) : option Phase :=
  match p, x with
  | Fresh, (Native.Endpoint _, Native.Answer true _) => Some Lagged
  | Fresh, (Native.Endpoint _, _) => Some Fresh
  | Lagged, (Native.Resynchronize, Native.Answer _ _) => Some Recovered
  | Lagged, (Native.Resynchronize, _) => Some Failed
  | Recovered, (Native.Endpoint _, _) => Some Recovered
  | _, _ => None
  end.

Fixpoint phase_run (p : Phase) (trips : list (Native.Request * Native.Reply))
  : option Phase :=
  match trips with
  | [] => Some p
  | x :: rest =>
      match phase_step p x with
      | Some p' => phase_run p' rest
      | None => None
      end
  end.

Definition phase_of (recovered : bool) : Phase :=
  if recovered then Recovered else Fresh.

(** The store after some writes, in order. *)
Fixpoint stored (writes : list (string * string)) (m : gmap string string)
  : gmap string string :=
  match writes with
  | [] => m
  | (k, v) :: rest => stored rest (<[k:=v]> m)
  end.

(** A stretch of the fault script without an injected failure. *)
Definition sound (script : list bool) : bool := forallb negb script.

(** What a removal leaves behind: no activation, none of the activation
    state, biometry key and knowledge key in the store, and the cached
    possession-related key as it was. *)
Definition activation_cleared (before after : Native.Session) : Prop :=
  Native.status after = Native.NoActivation /\
  Native.activationId after = None /\
  Native.storage after !! "activationState" = None /\
  Native.storage after !! "biometryKey" = None /\
  Native.storage after !! "knowledgeKey" = None /\
  Native.storage after !! "possessionKey" = Native.storage before !! "possessionKey".

(** An activation made by an earlier release, which still runs protocol V2. *)
Definition legacy (w : World Native.Session) : World Native.Session :=
  Build_World (self w) (Native.set_protocolVersion Native.V2 (native w)) (trace w).

(** An activation whose 64-bit counter stands at a given value. *)
Definition counting_from (c : N) (w : World Native.Session) : World Native.Session :=
  Build_World (self w) (Native.set_signatureCounter c (native w)) (trace w).

(** A native step that does not ask the biometric gate. *)
Definition no_prompt {A : Type} (f : Native.Session -> Outcome A * Native.Session)
    (s : Native.Session) : Prop :=
  Native.prompts (snd (f s)) = Native.prompts s.

(** A client configuration other than the default one. *)
Definition slow_client : PowerAuthClientConfiguration :=
  {| enableUnsecureTraffic := false; connectionTimeout := 60; readTimeout := 60 |}.

Definition configurationA : PowerAuthConfiguration :=
  {| appKey := "APPLICATION_KEY"; appSecret := "APPLICATION_SECRET";
     masterServerPublicKey := "KEY_SERVER_MASTER_PUBLIC";
     baseEndpointUrl := "https://your-powerauth-endpoint.com/" |}.

Definition configurationB : PowerAuthConfiguration :=
  {| appKey := "APPLICATION_KEY"; appSecret := "APPLICATION_SECRET";
     masterServerPublicKey := "KEY_SERVER_MASTER_PUBLIC";
     baseEndpointUrl := "https://another-endpoint.com/" |}.

(** [{usePossession: true, userPassword: "1234"}] *)
Definition with_password : PowerAuthAuthentication :=
  {| usePossession := true; useBiometry := false; userPassword := value "1234";
     biometryMessage := null; biometryTitle := null; biometryKey := undefined |}.

(** The same with a password that is not the one of the activation. *)
Definition wrong_pin : PowerAuthAuthentication :=
  {| usePossession := true; useBiometry := false; userPassword := value "0000";
     biometryMessage := null; biometryTitle := null; biometryKey := undefined |}.

(** [{usePossession: true, useBiometry: true}] with a prompt. *)
Definition with_biometry : PowerAuthAuthentication :=
  {| usePossession := true; useBiometry := true; userPassword := null;
     biometryMessage := value "Confirm the payment"; biometryTitle := value "Payment";
     biometryKey := undefined |}.

(** A started application after [configure(configurationA)]. *)
Definition configured (gate : list Native.GateAnswer) (replies : list Native.Reply)
    (faults : list bool) : World Native.Session :=
  snd (configure (WithObjects configurationA undefined undefined undefined)
         (boot "app" (Native.fresh gate replies faults))).

(** ... and after [createActivation] answered by the server. *)
Definition created (gate : list Native.GateAnswer) (replies : list Native.Reply)
    (faults : list bool) : World Native.Session :=
  snd (createActivation JsNull
         (configured gate (Native.Answer false "activation-1" :: replies) faults)).

(** ... and after [commitActivation(authentication)]. *)
Definition activated (authentication : PowerAuthAuthentication)
    (gate : list Native.GateAnswer) (replies : list Native.Reply) (faults : list bool)
  : World Native.Session :=
  snd (commitActivation authentication (created gate replies faults)).

(** An activation blocked by five requests signed with the wrong password. *)
Definition blocked : World Native.Session :=
  snd (outcomes (repeat (wrong_pin, RequestSignature "POST" "/pa/signature/validate" null) 5)
         (activated with_password [] [] [])).

(** Two signed calls made inside a grouped scope. *)
Definition two_calls : list AuthorizedCall :=
  [RequestSignature "POST" "/pa/signature/validate" (value "{}");
   RequestGetSignature "/pa/token/create" JsNull].

(** ** The compiled form of the asynchronous methods

    The TypeScript compiler turns every [async] method into a call
    [__awaiter(this, void 0, void 0, function () { return __generator(this,
    body) })], where [body] is a [switch] on [_.label] that returns
    operations [[code, payload]].  This section embeds [__generator] (its
    [step] function) and [__awaiter] as they are written, for bodies that
    never delegate to another iterator (operation 5), and the bodies of the
    methods of the class. *)

(** What a slot of the state machine can hold. *)
Inductive Item : Type :=
| IUndefined
| INumber (n : nat)
| IValue (v : JsValue)
| IAuthentication (a : PowerAuthAuthentication)
| IThrown (e : Thrown)
| IPromise (settled : Outcome Item).

(** An operation [[code, payload]]; [[code]] alone has an undefined payload. *)
Record Op : Type := { code : nat; payload : Item }.

(** An entry [[start, catch, finally, end]] of [_.trys]; a hole is [None]. *)
Record TryEntry : Type := {
  at_start : option nat;
  at_catch : option nat;
  at_finally : option nat;
  at_end : option nat
}.

(** The variable [t] of [__generator] while the body runs: [0], [false], an
    operation, or an entry of [_.trys]. *)
Inductive Temp : Type :=
| TZero
| TFalse
| TOp (op : Op)
| TTry (entry : TryEntry).

(** The object [_] ([label], [trys], [ops]); [alive] is false once [_] has
    been set to [0]. *)
Record Generator : Type := {
  label : nat;
  trys : list TryEntry;
  ops : list Op;
  alive : bool
}.

(** [{ label: 0, trys: [], ops: [] }] *)
Definition new_Generator : Generator :=
  {| label := 0; trys := []; ops := []; alive := true |}.

Definition set_label (n : nat) (g : Generator) : Generator :=
  {| label := n; trys := trys g; ops := ops g; alive := alive g |}.

(** [_.trys.push(entry)] *)
Definition push_try (entry : TryEntry) (g : Generator) : Generator :=
  {| label := label g; trys := (trys g ++ [entry])%list; ops := ops g; alive := alive g |}.

(** [_.trys.pop()] *)
Definition pop_try (g : Generator) : Generator :=
  {| label := label g; trys := removelast (trys g); ops := ops g; alive := alive g |}.

(** [_.ops.push(op)] and [_.ops.pop()] *)
Definition push_op (op : Op) (g : Generator) : Generator :=
  {| label := label g; trys := trys g; ops := (ops g ++ [op])%list; alive := alive g |}.

Definition pop_op (g : Generator) : Generator :=
  {| label := label g; trys := trys g; ops := removelast (ops g); alive := alive g |}.

(** [_ = 0] *)
Definition finished (g : Generator) : Generator :=
  {| label := label g; trys := trys g; ops := ops g; alive := false |}.

(** [_.sent()]: [if (t[0] & 1) throw t[1]; return t[1];], the thrown value
    on the left, the returned one on the right. *)
Definition sent (t : Temp) : Item + Item :=
  match t with
  | TOp op =>
      if Nat.eqb (Nat.land (code op) 1) 0 then inr (payload op) else inl (payload op)
  | TTry entry =>
      let second := match at_catch entry with Some n => INumber n | None => IUndefined end in
      match at_start entry with
      | Some n => if Nat.eqb (Nat.land n 1) 0 then inr second else inl second
      | None => inr second
      end
  | TZero | TFalse => inr IUndefined
  end.

(** What one run of a body gives: an operation, an exception, or a step
    that this embedding has no value for (a value of the wrong type where
    the method needs an authentication object or an error). *)
Inductive BodyResult : Type :=
| BReturn (op : Op)
| BThrow (e : Item)
| BUnmodelled.

(** What one call of [step] gives: [{ value, done }], an exception, no value
    in this embedding, or no result within the given number of turns of the
    [while] loop. *)
Inductive StepResult : Type :=
| Stepped (result : Item) (done : bool)
| Threw (e : Item)
| StepUnmodelled
| StepOutOfFuel.

(** [a < b] where [b] may be [undefined]. *)
Definition lt_slot (a : nat) (b : option nat) : bool :=
  match b with Some n => Nat.ltb a n | None => false end.

(** Truthiness of a slot of an entry. *)
Definition truthy_slot (b : option nat) : bool :=
  match b with Some n => negb (Nat.eqb n 0) | None => false end.

Section Compiled.
Context {St : Type} {B : Bridge St}.

Definition Body : Type := Temp -> Generator -> World St -> BodyResult * Generator * World St.

(** The tail of [step]: [if (op[0] & 5) throw op[1]; return { value: op[0] ?
    op[1] : void 0, done: true };] *)
Definition step_end (op : Op) : StepResult :=
  if negb (Nat.eqb (Nat.land (code op) 5) 0) then Threw (payload op)
  else Stepped (if Nat.eqb (code op) 0 then IUndefined else payload op) true.

(** One turn of the [while (_)] loop of [step(op)] in [__generator], with
    [y] never set; [continue_with] is the rest of the loop. *)
Definition turn (continue_with : Generator -> Op -> World St -> StepResult * Generator * World St)
    (body : Body) (g : Generator) (op : Op) (w : World St)
  : StepResult * Generator * World St :=
  if negb (alive g) then (step_end op, g, w)
  else
    (* [op = body.call(thisArg, _)] inside the [try], then the next turn *)
    let run (t : Temp) (g : Generator) :=
      match body t g w with
      | (BReturn op', g', w') => continue_with g' op' w'
      | (BThrow e, g', w') => continue_with g' {| code := 6; payload := e |} w'
      | (BUnmodelled, g', w') => (StepUnmodelled, g', w')
      end in
    match code op with
    | 0 | 1 => run (TOp op) g
    | 4 => (Stepped (payload op) false, set_label (S (label g)) g, w)
    | 5 => (StepUnmodelled, g, w)
    | 7 =>
        match last (ops g) with
        | Some op' => continue_with (pop_try (pop_op g)) op' w
        | None => (StepUnmodelled, g, w)
        end
    | c =>
        match last (trys g) with
        | None =>
            if Nat.eqb c 6 || Nat.eqb c 2 then continue_with (finished g) op w
            else if Nat.eqb c 3 then
              match payload op with
              | INumber l => run TFalse (set_label l g)
              | _ => (StepUnmodelled, g, w)
              end
            else continue_with (pop_try g) op w
        | Some entry =>
            if Nat.eqb c 3 &&
               match payload op, at_start entry with
               | INumber l, Some s => Nat.ltb s l && lt_slot l (at_end entry)
               | _, _ => false
               end
            then
              match payload op with
              | INumber l => run (TTry entry) (set_label l g)
              | _ => (StepUnmodelled, g, w)
              end
            else if Nat.eqb c 6 && lt_slot (label g) (at_catch entry) then
              run (TOp op) (set_label (default 0 (at_catch entry)) g)
            else if lt_slot (label g) (at_finally entry) then
              run (TTry entry)
                (push_op op (set_label (default 0 (at_finally entry)) g))
            else
              continue_with
                (pop_try (if truthy_slot (at_finally entry) then pop_op g else g))
                op w
        end
    end.

(** [step(op)]; [fuel] bounds the turns of the loop. *)
Fixpoint step (fuel : nat) (body : Body) (g : Generator) (op : Op) (w : World St)
  : StepResult * Generator * World St :=
  match fuel with
  | O => (StepOutOfFuel, g, w)
  | S fuel' => turn (step fuel' body) body g op w
  end.

(** A promise, or a value adopted as a resolved promise, once settled. *)
Fixpoint settle (v : Item) : Item + Item :=
  match v with
  | IPromise (Fulfilled x) => settle x
  | IPromise (Rejected e) => inl (IThrown e)
  | _ => inr v
  end.

(** How the promise returned by [__awaiter] ends. *)
Inductive Settled : Type :=
| Resolved (v : Item)
| RejectedWith (e : Item)
| Unmodelled
| OutOfFuel.

(** [step(result)] of [__awaiter]: resolve when the generator is done,
    otherwise wait for [result.value] and hand what it settles to back to
    the generator through [next] or [throw]; [resume_with] is the rest of
    the promise chain. *)
Definition on_result (resume_with : Generator -> Op -> World St -> Settled * World St)
    (result : StepResult * Generator * World St) : Settled * World St :=
  match result with
  | (Stepped v true, _, w') =>
      (match settle v with inr x => Resolved x | inl e => RejectedWith e end, w')
  | (Stepped v false, g', w') =>
      match settle v with
      | inr x => resume_with g' {| code := 0; payload := x |} w'
      | inl e => resume_with g' {| code := 1; payload := e |} w'
      end
  | (Threw e, _, w') => (RejectedWith e, w')
  | (StepUnmodelled, _, w') => (Unmodelled, w')
  | (StepOutOfFuel, _, w') => (OutOfFuel, w')
  end.

(** The promise chain of [__awaiter]; [fuel] bounds its length and the turns
    of each [step]. *)
Fixpoint awaiter_loop (fuel : nat) (body : Body) (g : Generator) (op : Op) (w : World St)
  : Settled * World St :=
  match fuel with
  | O => (OutOfFuel, w)
  | S fuel' => on_result (awaiter_loop fuel' body) (step fuel body g op w)
  end.

(** [__awaiter(this, void 0, void 0, function () { return __generator(this,
    body); })]: the first step is [generator.next()]. *)
Definition __awaiter (fuel : nat) (body : Body) (w : World St) : Settled * World St :=
  awaiter_loop fuel body new_Generator {| code := 0; payload := IUndefined |} w.

End Compiled.


(** ** The bodies of the asynchronous methods *)

(** The promise of a computation that has run. *)
Definition promise_of {A : Type} (inj : A -> Item) (r : Outcome A) : Item :=
  IPromise match r with
           | Fulfilled a => Fulfilled (inj a)
           | Rejected e => Rejected e
           end.

(** How a promise of the class ends, in the terms of [__awaiter]. *)
Definition settled_as {A : Type} (inj : A -> Item) (r : Outcome A) : Settled :=
  match r with
  | Fulfilled a => Resolved (inj a)
  | Rejected e => RejectedWith (IThrown e)
  end.

(** The name and the arguments of the native call of each method that takes
    an authentication object, given the object that [authenticate] returned:
    [_c.concat([_d.sent(), ...])]. *)
Definition native_request (c : AuthorizedCall) (prepared : PowerAuthAuthentication)
  : string * list JsValue :=
  match c with
  | RequestSignature method uriId body =>
      ("requestSignature",
       [JsAuthentication prepared; JsString method; JsString uriId;
        js_of_nullable JsString body])
  | RequestGetSignature uriId params =>
      ("requestGetSignature",
       [JsAuthentication prepared; JsString uriId;
        match params with JsNull | JsUndefined => JsNull | _ => params end])
  | OfflineSignature uriId nonce body =>
      ("offlineSignature",
       [JsAuthentication prepared; JsString uriId; js_of_nullable JsString body;
        JsString nonce])
  | FetchEncryptionKey index =>
      ("fetchEncryptionKey", [JsAuthentication prepared; JsNumber index])
  | SignDataWithDevicePrivateKey data =>
      ("signDataWithDevicePrivateKey", [JsAuthentication prepared; JsString data])
  | ActivationRecoveryData => ("activationRecoveryData", [JsAuthentication prepared])
  | ConfirmRecoveryCode recoveryCode =>
      ("confirmRecoveryCode", [JsString recoveryCode; JsAuthentication prepared])
  | RemoveActivationWithAuthentication =>
      ("removeActivationWithAuthentication", [JsAuthentication prepared])
  end.

Section Bodies.
Context {St : Type} {B : Bridge St}.

(** [isConfigured]: [return [2, this.wrapper.call("isConfigured")]]. *)
Definition isConfigured_body : Body (St := St) :=
  fun t _a w =>
    match label _a with
    | 0 =>
        let '(r, w') := call "isConfigured" [] w in
        (BReturn {| code := 2; payload := promise_of IValue r |}, _a, w')
    | _ => (BUnmodelled, _a, w)
    end.

(** The methods that take an authentication object: label 0 yields
    [this.wrapper.authenticate(authentication)], label 1 makes the native
    call with [_d.sent()] in place of the authentication; all return its
    promise, except [confirmRecoveryCode], which yields it and at label 2
    returns [{ alreadyConfirmed: _e.sent() }]. *)
Definition authorized_body (c : AuthorizedCall) (authentication : PowerAuthAuthentication)
  : Body (St := St) :=
  fun t _d w =>
    match label _d with
    | 0 =>
        let '(r, w') := authenticate authentication None w in
        (BReturn {| code := 4; payload := promise_of IAuthentication r |}, _d, w')
    | 1 =>
        match sent t with
        | inl e => (BThrow e, _d, w)
        | inr (IAuthentication prepared) =>
            let '(r, w') :=
              call (fst (native_request c prepared)) (snd (native_request c prepared)) w in
            match c with
            | ConfirmRecoveryCode _ =>
                (BReturn {| code := 4; payload := promise_of IValue r |}, _d, w')
            | _ => (BReturn {| code := 2; payload := promise_of IValue r |}, _d, w')
            end
        | inr _ => (BUnmodelled, _d, w)
        end
    | 2 =>
        match c with
        | ConfirmRecoveryCode _ =>
            match sent t with
            | inl e => (BThrow e, _d, w)
            | inr (IValue alreadyConfirmed) =>
                (BReturn {| code := 2;
                            payload := IValue (JsObject [("alreadyConfirmed",
                                                          alreadyConfirmed)]) |}, _d, w)
            | inr _ => (BUnmodelled, _d, w)
            end
        | _ => (BUnmodelled, _d, w)
        end
    | _ => (BUnmodelled, _d, w)
    end.

(** [groupedBiometricAuthentication]: labels 0 to 8 as compiled, with the
    two entries [[1, 7, , 8]] and [[3, 5, , 6]] of [_a.trys].  [reusable] is
    assigned at label 2 only, which falls through to label 3. *)
Definition groupedBiometricAuthentication_body
    (authentication : PowerAuthAuthentication)
    (groupedAuthenticationCalls : PowerAuthAuthentication -> Async St unit)
  : Body (St := St) :=
  fun t _a w =>
    let case_1 (_a : Generator) :=
      let _a :=
        push_try {| at_start := Some 1; at_catch := Some 7; at_finally := None;
                    at_end := Some 8 |} _a in
      let '(r, w') := authenticate authentication (Some true) w in
      (BReturn {| code := 4; payload := promise_of IAuthentication r |}, _a, w') in
    let case_3 (reusable : PowerAuthAuthentication) (_a : Generator) :=
      let _a :=
        push_try {| at_start := Some 3; at_catch := Some 5; at_finally := None;
                    at_end := Some 6 |} _a in
      let '(r, w') :=
        (_ <~ emit (EvCallback reusable) ;; groupedAuthenticationCalls reusable) w in
      (BReturn {| code := 4; payload := promise_of (fun _ => IUndefined) r |}, _a, w') in
    match label _a with
    | 0 =>
        if Bool.eqb (useBiometry authentication) false
        then (BThrow (IThrown (PowerAuthError None
                (Some "Requesting biometric authentication, but `useBiometry` is set to false."))),
              _a, w)
        else case_1 (set_label 1 _a)
    | 1 => case_1 _a
    | 2 =>
        match sent t with
        | inl e => (BThrow e, _a, w)
        | inr (IAuthentication reusable) => case_3 reusable (set_label 3 _a)
        | inr _ => (BUnmodelled, _a, w)
        end
    | 4 =>
        match sent t with
        | inl e => (BThrow e, _a, w)
        | inr _ => (BReturn {| code := 3; payload := INumber 6 |}, _a, w)
        end
    | 5 =>
        match sent t with
        | inl e => (BThrow e, _a, w)
        | inr (IThrown e_1) =>
            (BThrow (IThrown (PowerAuthError (Some e_1)
               (Some "Your 'groupedAuthenticationCalls' function threw an exception. Please make sure that you catch errors yourself."))),
             _a, w)
        | inr _ => (BUnmodelled, _a, w)
        end
    | 6 => (BReturn {| code := 3; payload := INumber 8 |}, _a, w)
    | 7 =>
        match sent t with
        | inl e => (BThrow e, _a, w)
        | inr (IThrown e_2) => (BThrow (IThrown (processException e_2)), _a, w)
        | inr _ => (BUnmodelled, _a, w)
        end
    | 8 => (BReturn {| code := 2; payload := IUndefined |}, _a, w)
    | _ => (BUnmodelled, _a, w)
    end.

End Bodies.


(** ** Sequences of method calls *)

(** The methods of the class that take no authentication object, other than
    [configure] and [deconfigure]. *)
Inductive PlainCall : Type :=
| IsConfigured
| HasValidActivation
| CanStartActivation
| HasPendingActivation
| FetchActivationStatus
| CreateActivation (activation : JsValue)
| CommitActivation (authentication : PowerAuthAuthentication)
| GetActivationIdentifier
| GetActivationFingerprint
| RemoveActivationLocal
| VerifyServerSignedData (data signature : string) (masterKey : bool)
| ChangePassword (oldPassword newPassword : string)
| UnsafeChangePassword (oldPassword newPassword : string)
| AddBiometryFactor (password title description : string)
| HasBiometryFactor
| RemoveBiometryFactor
| GetBiometryInfo
| ValidatePassword (password : string)
| HasActivationRecoveryData.

(** One call of a method of the class; the callback of a grouped scope is a
    chain of authorised calls. *)
Inductive Invocation : Type :=
| Plain (p : PlainCall)
| Authorized (c : AuthorizedCall) (authentication : PowerAuthAuthentication)
| Configure (arguments : ConfigureArguments)
| Deconfigure
| Grouped (authentication : PowerAuthAuthentication) (calls : list AuthorizedCall).

Section Programs.
Context {St : Type} {B : Bridge St}.

Definition plain (p : PlainCall) : Async St JsValue :=
  match p with
  | IsConfigured => isConfigured
  | HasValidActivation => hasValidActivation
  | CanStartActivation => canStartActivation
  | HasPendingActivation => hasPendingActivation
  | FetchActivationStatus => fetchActivationStatus
  | CreateActivation activation => createActivation activation
  | CommitActivation authentication => commitActivation authentication
  | GetActivationIdentifier => getActivationIdentifier
  | GetActivationFingerprint => getActivationFingerprint
  | RemoveActivationLocal => removeActivationLocal
  | VerifyServerSignedData data signature masterKey =>
      verifyServerSignedData data signature masterKey
  | ChangePassword oldPassword newPassword => changePassword oldPassword newPassword
  | UnsafeChangePassword oldPassword newPassword =>
      unsafeChangePassword oldPassword newPassword
  | AddBiometryFactor password title description =>
      addBiometryFactor password title description
  | HasBiometryFactor => hasBiometryFactor
  | RemoveBiometryFactor => removeBiometryFactor
  | GetBiometryInfo => getBiometryInfo
  | ValidatePassword password => validatePassword password
  | HasActivationRecoveryData => hasActivationRecoveryData
  end.

(** A call with its settled promise; [void] is [undefined]. *)
Definition invoke (i : Invocation) : Async St JsValue :=
  match i with
  | Plain p => plain p
  | Authorized c authentication => authorized c authentication
  | Configure arguments => configure arguments
  | Deconfigure => deconfigure
  | Grouped authentication calls =>
      _ <~ groupedBiometricAuthentication authentication (chain calls) ;;
      resolve JsUndefined
  end.

(** Calls made one after the other, each one awaited and its rejection
    caught by the caller. *)
Fixpoint run (program : list Invocation) (w : World St) : list (Outcome JsValue) * World St :=
  match program with
  | [] => ([], w)
  | i :: rest =>
      let '(r, w1) := invoke i w in
      let '(rs, w2) := run rest w1 in
      (r :: rs, w2)
  end.

(** The events that a program adds to the trace. *)
Definition run_events (program : list Invocation) (w : World St) : list Event :=
  drop (length (trace w)) (trace (snd (run program w))).

(** The cached properties after [configure(arguments)]. *)
Definition remembered (arguments : ConfigureArguments) (this : PowerAuth) : PowerAuth :=
  let '(c, cc, bc, kc) := configure_values arguments in
  {| instanceId := instanceId this;
     configuration := value c;
     clientConfiguration := value cc;
     biometryConfiguration := value bc;
     keychainConfiguration := value kc |}.

(** The cached properties as the calls of [configure] and [deconfigure] in
    a program leave them, whatever the native side answered. *)
Fixpoint cache_after (program : list Invocation) (this : PowerAuth) : PowerAuth :=
  match program with
  | [] => this
  | Configure arguments :: rest => cache_after rest (remembered arguments this)
  | Deconfigure :: rest => cache_after rest (forgotten this)
  | _ :: rest => cache_after rest this
  end.

End Programs.

(** The four cached properties are all unset, all [null], or all set. *)
Definition coherent (this : PowerAuth) : Prop :=
  (configuration this = undefined /\ clientConfiguration this = undefined /\
   biometryConfiguration this = undefined /\ keychainConfiguration this = undefined) \/
  (configuration this = null /\ clientConfiguration this = null /\
   biometryConfiguration this = null /\ keychainConfiguration this = null) \/
  (is_missing (configuration this) = false /\
   is_missing (clientConfiguration this) = false /\
   is_missing (biometryConfiguration this) = false /\
   is_missing (keychainConfiguration this) = false).

(** The grouped scopes of a program that ask for biometry. *)
Fixpoint biometric_scopes (program : list Invocation) : nat :=
  match program with
  | [] => 0
  | Grouped authentication _ :: rest =>
      (if useBiometry authentication then 1 else 0) + biometric_scopes rest
  | _ :: rest => biometric_scopes rest
  end.

(** The authentication objects among the arguments of a native call. *)
Fixpoint carried_authentications (args : list JsValue) : list PowerAuthAuthentication :=
  match args with
  | [] => []
  | JsAuthentication a :: rest => a :: carried_authentications rest
  | _ :: rest => carried_authentications rest
  end.

(** What [confirmRecoveryCode] makes of the native result; the other
    methods pass it on. *)
Definition surfaced (c : AuthorizedCall) (r : Outcome JsValue) : Outcome JsValue :=
  match c, r with
  | ConfirmRecoveryCode _, Fulfilled alreadyConfirmed =>
      Fulfilled (JsObject [("alreadyConfirmed", alreadyConfirmed)])
  | _, _ => r
  end.

(** The bridge of the modelled engine on another platform. *)
Definition bridge_on (os : string) : Bridge Native.Session :=
  Build_Bridge Native.Session Native.call Native.authenticate Native.processException
    PowerAuthClientConfiguration_default PowerAuthBiometryConfiguration_default
    PowerAuthKeychainConfiguration_default os.


(** ** Calls and the activation they run under *)

(** The native method behind each method without an authentication object. *)
Definition plain_name (p : PlainCall) : string :=
  match p with
  | IsConfigured => "isConfigured"
  | HasValidActivation => "hasValidActivation"
  | CanStartActivation => "canStartActivation"
  | HasPendingActivation => "hasPendingActivation"
  | FetchActivationStatus => "fetchActivationStatus"
  | CreateActivation _ => "createActivation"
  | CommitActivation _ => "commitActivation"
  | GetActivationIdentifier => "activationIdentifier"
  | GetActivationFingerprint => "activationFingerprint"
  | RemoveActivationLocal => "removeActivationLocal"
  | VerifyServerSignedData _ _ _ => "verifyServerSignedData"
  | ChangePassword _ _ => "changePassword"
  | UnsafeChangePassword _ _ => "unsafeChangePassword"
  | AddBiometryFactor _ _ _ => "addBiometryFactor"
  | HasBiometryFactor => "hasBiometryFactor"
  | RemoveBiometryFactor => "removeBiometryFactor"
  | GetBiometryInfo => "getBiometryInfo"
  | ValidatePassword _ => "validatePassword"
  | HasActivationRecoveryData => "hasActivationRecoveryData"
  end.

(** The native methods that start or end an activation: the counter of an
    activation starts with the first and ends with the other two. *)
Definition is_lifecycle_name (name : string) : bool :=
  String.eqb name "commitActivation" ||
  String.eqb name "removeActivationLocal" ||
  String.eqb name "removeActivationWithAuthentication".

(** A call that neither starts nor ends an activation. *)
Definition within_activation (i : Invocation) : bool :=
  match i with
  | Plain p => negb (is_lifecycle_name (plain_name p))
  | Authorized c _ => is_signing_operation c
  | Grouped _ calls => forallb is_signing_operation calls
  | Configure _ | Deconfigure => true
  end.

(** A call of one of the three signature operations. *)
Definition is_signature_invocation (i : Invocation) : bool :=
  match i with
  | Authorized c _ => is_signature_operation c
  | _ => false
  end.


(** The counter values under which signatures were produced while a
    program ran. *)
Definition issued_during (program : list Invocation) (w : World Native.Session)
  : list N :=
  drop (length (Native.issued (native w)))
    (Native.issued (native (snd (run program w)))).

(** The native calls among some events. *)
Definition is_native_call (ev : Event) : bool :=
  match ev with
  | EvCall _ _ => true
  | _ => false
  end.

Definition native_calls (evs : list Event) : nat :=
  length (filter (fun ev => is_native_call ev = true) evs).


(** ** Relations and predicates on the computations of the engine *)

(** A computation of the engine that keeps a relation between the state it
    starts from and the state it leaves. *)
Definition Preserves (R : relation Native.Session) {A : Type} (f : Native.M A) : Prop :=
  forall s, R s (snd (f s)).

(** The gate was not asked. *)
Definition same_prompts (s s' : Native.Session) : Prop :=
  Native.prompts s' = Native.prompts s.

(** The secure storage holds what it held. *)
Definition same_store (s s' : Native.Session) : Prop :=
  Native.storage s' = Native.storage s.

(** A session seen as its store and its fault script over the rest. *)
Definition at_store (m : gmap string string) (script : list bool) (s : Native.Session)
  : Native.Session :=
  Native.set_storage m (Native.set_faults script s).

(** What undoing one write makes of the store. *)
Definition restored_in (k : string) (old : option string) (m : gmap string string)
  : gmap string string :=
  match old with
  | Some v => <[k:=v]> m
  | None => delete k m
  end.

(** The store after the remembered writes are undone, the latest first. *)
Fixpoint unwind (undo : list (string * option string)) (m : gmap string string)
  : gmap string string :=
  match undo with
  | [] => m
  | (k, old) :: rest => unwind rest (restored_in k old m)
  end.

(** What a run of writes remembers, the latest first. *)
Fixpoint undo_log (writes : list (string * string)) (m : gmap string string)
    (undo : list (string * option string)) : list (string * option string) :=
  match writes with
  | [] => undo
  | (k, v) :: rest => undo_log rest (<[k:=v]> m) ((k, m !! k) :: undo)
  end.

(** From one state to a later one of the same activation: some signatures
    more were issued, under the counter values that the 64-bit counter
    went through. *)
Definition grows (s s' : Native.Session) : Prop :=
  exists k,
    Native.issued s' = (Native.issued s ++ ticks (Native.signatureCounter s) k)%list /\
    Native.signatureCounter s' = Nat.iter k Native.advance (Native.signatureCounter s).

(** What a computation of the engine hands out when it is fulfilled. *)
Definition Returns {A : Type} (P : A -> Prop) (f : Native.M A) : Prop :=
  forall s a, fst (f s) = Fulfilled a -> P a.

(** A value that is a signature header. *)
Definition is_signature (v : JsValue) : bool :=
  match v with
  | JsSignature _ _ _ _ _ => true
  | _ => false
  end.

(** The native methods of the three signature operations. *)
Definition is_signature_name (name : string) : bool :=
  String.eqb name "requestSignature" ||
  String.eqb name "requestGetSignature" ||
  String.eqb name "offlineSignature".

(** A rejection with [CounterDesynchronized]. *)
Definition desynchronized {A : Type} (r : Outcome A) : bool :=
  match r with
  | Rejected (NativeRejection CounterDesynchronized) => true
  | _ => false
  end.

(** Where a step of a call ends, by its outcome: in [Failed] when it is
    rejected with [CounterDesynchronized], and otherwise where the allowance
    of the call stands. *)
Definition settles {A : Type} (p : Phase) (r : Outcome A) (s : Native.Session) : Prop :=
  if desynchronized r then p = Failed else p = phase_of (Native.recovered s).

(** A step of the engine whose round trips go on from where the call stands
    with its one recovery. *)
Definition Wired {A : Type} (f : Native.M A) : Prop :=
  forall s, exists trips p,
    Native.wire (snd (f s)) = (Native.wire s ++ trips)%list /\
    phase_run (phase_of (Native.recovered s)) trips = Some p /\
    settles p (fst (f s)) (snd (f s)).

(** A step that stays off the wire, keeps the allowance and is not
    rejected with [CounterDesynchronized]. *)
Definition Local {A : Type} (f : Native.M A) : Prop :=
  forall s,
    Native.wire (snd (f s)) = Native.wire s /\
    Native.recovered (snd (f s)) = Native.recovered s /\
    desynchronized (fst (f s)) = false.

(** A change of the state that stays off the wire and keeps the allowance. *)
Definition offline (h : Native.Session -> Native.Session) : Prop :=
  forall s, Native.wire (h s) = Native.wire s /\ Native.recovered (h s) = Native.recovered s.

(** A scope of grouped calls makes several calls of the engine. *)
Definition is_grouped (i : Invocation) : bool :=
  match i with
  | Grouped _ _ => true
  | _ => false
  end.

(** The round trips of one call and its outcome, with at most one recovery:
    at most one handshake is made; either no answer reports a lagging
    counter, no handshake is made and the outcome is not
    [CounterDesynchronized]; or the first answer that reports a lagging
    counter is followed at once by the one handshake, after which the call
    goes on without another handshake when the handshake is answered, and
    ends there, rejected with [CounterDesynchronized], when it is not. *)
Definition recovers_once {A : Type} (trips : list (Native.Request * Native.Reply))
    (r : Outcome A) : Prop :=
  handshakes trips <= 1 /\
  ((quiet trips = true /\ desynchronized r = false) \/
   exists before url body h after,
     trips = (before ++ (Native.Endpoint url, Native.Answer true body) ::
                        (Native.Resynchronize, h) :: after)%list /\
     quiet before = true /\
     handshakes after = 0 /\
     if is_answer h then desynchronized r = false
     else after = [] /\ desynchronized r = true).
(** * Properties of the facade, for any bridge *)

Section Facade.
Context {St : Type} {B : Bridge St}.

Lemma call_run (name : string) (args : list JsValue) (w : World St) :
  call name args w =
  (fst (wrapper_call name args (native w)),
   Build_World (self w) (snd (wrapper_call name args (native w)))
     (trace w ++ [EvCall name args])%list).
Proof.
  unfold call, await, emit, lift_native; simpl.
  destruct (wrapper_call name args (native w)); reflexivity.
Qed.

Lemma authenticate_run (a : PowerAuthAuthentication) (r : option bool) (w : World St) :
  authenticate a r w =
  (fst (wrapper_authenticate a r (native w)),
   Build_World (self w) (snd (wrapper_authenticate a r (native w)))
     (trace w ++ [EvAuthenticate a r])%list).
Proof.
  unfold authenticate, await, emit, lift_native; simpl.
  destruct (wrapper_authenticate a r (native w)); reflexivity.
Qed.

Lemma emitted_app {A : Type} (c : Async St A) (w : World St) (evs : list Event) :
  trace (snd (c w)) = (trace w ++ evs)%list -> emitted c w = evs.
Proof. intros H. unfold emitted. rewrite H. apply drop_app_length. Qed.

Lemma gate_unlocks_app (l k : list Event) :
  gate_unlocks (l ++ k) = gate_unlocks l + gate_unlocks k.
Proof. unfold gate_unlocks. rewrite filter_app, length_app. reflexivity. Qed.

Lemma gate_unlocks_cons (ev : Event) (l : list Event) :
  gate_unlocks (ev :: l) = (if is_gate_unlock ev then 1 else 0) + gate_unlocks l.
Proof.
  unfold gate_unlocks. destruct (is_gate_unlock ev) eqn:E.
  - rewrite filter_cons_True by assumption. reflexivity.
  - rewrite filter_cons_False by congruence. reflexivity.
Qed.

Lemma callback_arguments_app (l k : list Event) :
  callback_arguments (l ++ k) = (callback_arguments l ++ callback_arguments k)%list.
Proof.
  induction l as [|ev l IH]; simpl; [reflexivity|].
  destruct ev; simpl; rewrite IH; reflexivity.
Qed.

(** A method of the shape [call(name, await authenticate(a), ...)] adds
    the authentication without the reusable flag and, if that succeeded,
    one native call. *)
Lemma authorized_trace (c : AuthorizedCall) (a : PowerAuthAuthentication) (w : World St) :
  exists evs,
    trace (snd (authorized c a w)) = (trace w ++ evs)%list /\
    gate_unlocks evs = 0 /\ callback_arguments evs = [].
Proof.
  destruct c; simpl;
    unfold requestSignature, requestGetSignature, offlineSignature, fetchEncryptionKey,
      signDataWithDevicePrivateKey, activationRecoveryData, confirmRecoveryCode,
      removeActivationWithAuthentication, await, resolve;
    rewrite authenticate_run;
    destruct (wrapper_authenticate a None (native w)) as [[sent|e] n]; simpl;
    try (eexists [EvAuthenticate a None]; split; [reflexivity | split; reflexivity]);
    rewrite call_run; simpl;
    try (match goal with |- context [fst ?x] => destruct x as [[v|e] n']; simpl end);
    rewrite <- app_assoc;
    (eexists; split; [reflexivity | split; reflexivity]).
Qed.

Lemma chain_plain (cs : list AuthorizedCall) : plain_callback (chain cs).
Proof.
  intros r. induction cs as [|c cs IH]; intros w; simpl.
  - exists []. rewrite app_nil_r. repeat split.
  - unfold await.
    destruct (authorized_trace c r w) as (evs1 & H1 & G1 & C1).
    destruct (authorized c r w) as [[v|e] w1]; simpl in *.
    + destruct (IH w1) as (evs2 & H2 & G2 & C2).
      exists (evs1 ++ evs2)%list.
      rewrite H2, H1, app_assoc, gate_unlocks_app, callback_arguments_app, G1, G2, C1, C2.
      repeat split.
    + exists evs1. repeat split; assumption.
Qed.

(** Every method without an authentication object, other than [configure]
    and [deconfigure], is one native call. *)
Lemma plain_call (p : PlainCall) :
  exists name args, forall w : World St, plain p w = call name args w.
Proof.
  destruct p; simpl; try (do 2 eexists; intros w; reflexivity).
  unfold addBiometryFactor.
  destruct (String.eqb Platform_OS "android"); do 2 eexists; intros w; reflexivity.
Qed.

Lemma authorized_run (c : AuthorizedCall) (authentication : PowerAuthAuthentication)
    (w : World St) :
  authorized c authentication w =
  match wrapper_authenticate authentication None (native w) with
  | (Rejected e, n) =>
      (Rejected e,
       Build_World (self w) n (trace w ++ [EvAuthenticate authentication None])%list)
  | (Fulfilled prepared, n) =>
      let request := native_request c prepared in
      (surfaced c (fst (wrapper_call (fst request) (snd request) n)),
       Build_World (self w) (snd (wrapper_call (fst request) (snd request) n))
         (trace w ++ [EvAuthenticate authentication None;
                      EvCall (fst request) (snd request)])%list)
  end.
Proof.
  destruct c; simpl;
    unfold requestSignature, requestGetSignature, offlineSignature, fetchEncryptionKey,
      signDataWithDevicePrivateKey, activationRecoveryData, confirmRecoveryCode,
      removeActivationWithAuthentication, await, resolve;
    rewrite authenticate_run;
    destruct (wrapper_authenticate authentication None (native w)) as [[prepared|e] n];
    simpl; try reflexivity;
    rewrite call_run; simpl; rewrite <- app_assoc; simpl;
    try reflexivity.
  destruct (wrapper_call "confirmRecoveryCode"
              [JsString recoveryCode; JsAuthentication prepared] n) as [[v|e] n'];
    reflexivity.
Qed.

End Facade.

Section FacadeClaims.
Context {St : Type} {B : Bridge St}.

(** Whatever the native side answers, [configure] leaves in the cached
    properties the values computed from the arguments of this very call. *)
Lemma configure_caches_arguments (arguments : ConfigureArguments) (w : World St) :
  let '(c, cc, bc, kc) := configure_values arguments in
  self (snd (configure arguments w)) =
  {| instanceId := instanceId (self w);
     configuration := value c;
     clientConfiguration := value cc;
     biometryConfiguration := value bc;
     keychainConfiguration := value kc |}.
Proof.
  unfold configure.
  destruct (configure_values arguments) as [[[c cc] bc] kc].
  unfold await, update_self; simpl. rewrite call_run. reflexivity.
Qed.

(** C9. [configure] called with a [PowerAuthConfiguration] object makes one
    native call, ["configure"], with that object and, for each optional
    configuration that is omitted or [null], the [default()] of its class
    (a supplied one is passed on); the five-argument form passes a
    configuration built from the four strings, the default client
    configuration with [enableUnsecureTraffic] set from the fifth argument,
    and the default biometry and keychain configurations. *)
Theorem configure_passes_defaults (w : World St) :
  (forall configuration client biometry keychain,
      exists cc bc kc,
        emitted (configure (WithObjects configuration client biometry keychain)) w =
        [EvCall "configure"
           [JsConfiguration configuration; JsClientConfiguration cc;
            JsBiometryConfiguration bc; JsKeychainConfiguration kc]] /\
        (is_missing client = true -> cc = PowerAuthClientConfiguration_default) /\
        (is_missing biometry = true -> bc = PowerAuthBiometryConfiguration_default) /\
        (is_missing keychain = true -> kc = PowerAuthKeychainConfiguration_default) /\
        (forall v, client = value v -> cc = v) /\
        (forall v, biometry = value v -> bc = v) /\
        (forall v, keychain = value v -> kc = v)) /\
  (forall key secret masterKey url (unsecure : bool),
      emitted (configure (WithKeys key secret masterKey url unsecure)) w =
      [EvCall "configure"
         [JsConfiguration (Build_PowerAuthConfiguration key secret masterKey url);
          JsClientConfiguration
            (set_enableUnsecureTraffic unsecure PowerAuthClientConfiguration_default);
          JsBiometryConfiguration PowerAuthBiometryConfiguration_default;
          JsKeychainConfiguration PowerAuthKeychainConfiguration_default]] /\
      enableUnsecureTraffic
        (set_enableUnsecureTraffic unsecure PowerAuthClientConfiguration_default) =
      unsecure).
Proof.
  split.
  - intros configuration client biometry keychain.
    exists (nullish_or client PowerAuthClientConfiguration_default),
           (nullish_or biometry PowerAuthBiometryConfiguration_default),
           (nullish_or keychain PowerAuthKeychainConfiguration_default).
    split.
    + apply emitted_app. unfold configure; simpl.
      unfold await, update_self; simpl. rewrite call_run. reflexivity.
    + repeat split; intros;
        try (destruct client; simpl in *; congruence);
        try (destruct biometry; simpl in *; congruence);
        try (destruct keychain; simpl in *; congruence).
  - intros. split; [|reflexivity].
    apply emitted_app. unfold configure; simpl.
    unfold await, update_self; simpl. rewrite call_run. reflexivity.
Qed.

(** C10. [deconfigure] first sets the four cached properties to [null] and
    only then makes the native call, so the native call runs on an instance
    whose properties are already cleared, and they are [null] afterwards
    whether the promise is fulfilled or rejected. *)
Theorem deconfigure_clears_first (w : World St) :
  deconfigure w =
    call "deconfigure" [] (Build_World (forgotten (self w)) (native w) (trace w)) /\
  emitted deconfigure w = [EvCall "deconfigure" []] /\
  forall outcome w', deconfigure w = (outcome, w') ->
    configuration (self w') = null /\
    clientConfiguration (self w') = null /\
    biometryConfiguration (self w') = null /\
    keychainConfiguration (self w') = null.
Proof.
  assert (E : deconfigure w =
              call "deconfigure" [] (Build_World (forgotten (self w)) (native w) (trace w)))
    by reflexivity.
  split; [exact E|]. split.
  - apply emitted_app. rewrite E, call_run. reflexivity.
  - intros outcome w' H. rewrite E, call_run in H.
    injection H as _ <-. repeat split.
Qed.

(** C6. With [useBiometry == false] the promise is rejected with a
    [PowerAuthError] that has no original exception, and nothing else
    happens: the world is unchanged, so [authenticate] is not called and
    the callback is not invoked. *)
Theorem grouped_without_biometry_rejects (authentication : PowerAuthAuthentication)
    (groupedAuthenticationCalls : PowerAuthAuthentication -> Async St unit) (w : World St) :
  useBiometry authentication = false ->
  groupedBiometricAuthentication authentication groupedAuthenticationCalls w =
    (Rejected (PowerAuthError None
       (Some "Requesting biometric authentication, but `useBiometry` is set to false.")),
     w) /\
  emitted (groupedBiometricAuthentication authentication groupedAuthenticationCalls) w = [].
Proof.
  intros H. unfold emitted, groupedBiometricAuthentication. rewrite H. simpl.
  split; [reflexivity|]. apply drop_all.
Qed.

(** The events of a grouped scope, for any bridge.  With [useBiometry ==
    true] and a callback that does no unlock of its own, the scope makes
    exactly one call to [authenticate] with the reusable flag, as its first
    step.  If that call succeeds, the callback is invoked exactly once, with
    the object it returned; if it fails, the callback is not invoked and the
    promise is rejected with the processed error. *)
Lemma grouped_scope_events (authentication : PowerAuthAuthentication)
    (groupedAuthenticationCalls : PowerAuthAuthentication -> Async St unit) (w : World St) :
  useBiometry authentication = true ->
  plain_callback groupedAuthenticationCalls ->
  let evs := emitted (groupedBiometricAuthentication authentication
                        groupedAuthenticationCalls) w in
  gate_unlocks evs = 1 /\
  head evs = Some (EvAuthenticate authentication (Some true)) /\
  match fst (wrapper_authenticate authentication (Some true) (native w)) with
  | Fulfilled reusable => callback_arguments evs = [reusable]
  | Rejected e =>
      callback_arguments evs = [] /\
      fst (groupedBiometricAuthentication authentication groupedAuthenticationCalls w) =
        Rejected (processException e)
  end.
Proof.
  intros Hb Hcb evs. subst evs.
  assert (Ha := authenticate_run authentication (Some true) w).
  unfold emitted, groupedBiometricAuthentication. rewrite Hb. simpl.
  unfold try_catch, await, throw. rewrite Ha.
  destruct (wrapper_authenticate authentication (Some true) (native w))
    as [[reusable|e] n]; simpl.
  - unfold emit; simpl.
    destruct (Hcb reusable
                {| self := self w; native := n;
                   trace := ((trace w ++ [EvAuthenticate authentication (Some true)]) ++
                             [EvCallback reusable])%list |})
      as (evs & Ht & Hg & Hc).
    simpl in Ht.
    assert (Hdrop :
      drop (length (trace w))
        (trace (snd (groupedAuthenticationCalls reusable
                {| self := self w; native := n;
                   trace := ((trace w ++ [EvAuthenticate authentication (Some true)]) ++
                             [EvCallback reusable])%list |}))) =
      EvAuthenticate authentication (Some true) :: EvCallback reusable :: evs).
    { rewrite Ht, <- !app_assoc. apply drop_app_length. }
    destruct (groupedAuthenticationCalls reusable _) as [[u|e] w2];
      simpl in *; rewrite Hdrop; simpl; rewrite Hc;
      (split; [|split; reflexivity]);
      rewrite !gate_unlocks_cons, Hg; reflexivity.
  - rewrite drop_app_length. repeat split.
Qed.

End FacadeClaims.

(** * Properties of the facade over the modelled engine *)

Section Engine.

(** *** Computations of the engine that keep a relation between states *)

Section Frames.
Context (R : relation Native.Session) `{!PreOrder R}.

Lemma Preserves_ret {A : Type} (a : A) : Preserves R (Native.ret a).
Proof. intros s. reflexivity. Qed.

Lemma Preserves_reject {A : Type} (kind : ErrorKind) : Preserves R (@Native.reject A kind).
Proof. intros s. reflexivity. Qed.

Lemma Preserves_raise {A : Type} (e : Thrown) : Preserves R (@Native.raise A e).
Proof. intros s. reflexivity. Qed.

Lemma Preserves_read {A : Type} (f : Native.Session -> A) : Preserves R (Native.read f).
Proof. intros s. reflexivity. Qed.

Lemma Preserves_modify (h : Native.Session -> Native.Session) :
  (forall s, R s (h s)) -> Preserves R (Native.modify h).
Proof. intros H s. apply H. Qed.

Lemma Preserves_bind {A B : Type} (f : Native.M A) (g : A -> Native.M B) :
  Preserves R f -> (forall a, Preserves R (g a)) -> Preserves R (Native.bind f g).
Proof.
  intros Hf Hg s. unfold Native.bind.
  specialize (Hf s). destruct (f s) as [[a|e] s1]; simpl in *; [|exact Hf].
  etransitivity; [exact Hf|apply Hg].
Qed.

Lemma Preserves_inspect {A B : Type} (f : Native.M A) (k : Outcome A -> Native.M B) :
  Preserves R f -> (forall r, Preserves R (k r)) -> Preserves R (Native.inspect f k).
Proof.
  intros Hf Hk s. unfold Native.inspect.
  specialize (Hf s). destruct (f s) as [r s1]; simpl in *.
  etransitivity; [exact Hf|apply Hk].
Qed.

End Frames.

(** The structure of a method of the engine, taken apart. *)
Ltac framing :=
  repeat first
    [ apply Preserves_ret; apply _
    | apply Preserves_reject; apply _
    | apply Preserves_raise; apply _
    | apply Preserves_read; apply _
    | apply Preserves_bind; [apply _| |intros ?]
    | apply Preserves_inspect; [apply _| |intros ?]
    | match goal with
      | |- Preserves _ (match ?x with _ => _ end) => destruct x
      | |- Preserves _ (if ?b then _ else _) => destruct b
      end ].

Ltac open_methods :=
  unfold Native.configure, Native.deconfigure, Native.status_is,
    Native.fetchActivationStatus, Native.createActivation, Native.commitActivation,
    Native.activationIdentifier, Native.activationFingerprint,
    Native.removeActivationLocal, Native.removeActivationWithAuthentication,
    Native.verifyServerSignedData, Native.changePassword, Native.unsafeChangePassword,
    Native.addBiometryFactor, Native.hasBiometryFactor, Native.removeBiometryFactor,
    Native.getBiometryInfo, Native.validatePassword, Native.hasActivationRecoveryData,
    Native.activationRecoveryData, Native.confirmRecoveryCode, Native.validate,
    Native.unlockVault, Native.signing, Native.configured_only.

(** The cases of the dispatch on the name of a native method. *)
Ltac dispatching :=
  unfold Native.dispatch;
  repeat match goal with
         | |- context [if String.eqb ?x ?y then _ else _] =>
             let E := fresh "E" in destruct (String.eqb x y) eqn:E
         end;
  repeat match goal with
         | |- context [match ?x with _ => _ end] => is_var x; destruct x
         end.

(** A relation that the collaborators and the bookkeeping of the engine
    keep is kept by every native method that neither starts nor ends an
    activation; a relation that the start and the end of an activation keep
    as well is kept by every native method. *)
Section Kept.
Context (R : relation Native.Session) `{!PreOrder R}.
Hypothesis H_send : forall q, Preserves R (Native.send q).
Hypothesis H_issue : Preserves R Native.issue.
Hypothesis H_set : forall k v, Preserves R (Native.storage_set k v).
Hypothesis H_remove : forall k, Preserves R (Native.storage_remove k).
Hypothesis H_recovered : forall b s, R s (Native.set_recovered b s).
Hypothesis H_wrong : forall s, R s (Native.wrong_password s).
Hypothesis H_attempts : forall s, R s (Native.set_failedAttempts 0 s).
Hypothesis H_configure :
  forall c s, R s (Native.set_status Native.NoActivation (Native.set_config (Some c) s)).
Hypothesis H_deconfigure : forall s, R s (Native.set_config None s).
Hypothesis H_created :
  forall body s,
    R s (Native.set_status Native.PendingCreation (Native.set_pending (Some body) s)).
Hypothesis H_upgraded : forall s, R s (Native.set_protocolVersion Native.V3 s).

Ltac kept_step :=
  first
    [ apply H_send
    | apply H_issue
    | apply H_set
    | apply H_remove
    | apply Preserves_modify; intros ?;
      first [ apply H_recovered | apply H_wrong | apply H_attempts | apply H_configure
            | apply H_deconfigure | apply H_created | apply H_upgraded ] ].

Lemma exchange_kept (url : string) : Preserves R (Native.exchange url).
Proof. unfold Native.exchange. repeat (framing; try kept_step). Qed.

Lemma computeSignature_kept (a : PowerAuthAuthentication) (method uriId : string)
    (nonce : Nullable string) (data : JsValue) :
  Preserves R (Native.computeSignature a method uriId nonce data).
Proof. unfold Native.computeSignature. repeat (framing; try kept_step). Qed.

Lemma dispatch_kept (name : string) (args : list JsValue) :
  is_lifecycle_name name = false ->
  Preserves R (Native.dispatch name args).
Proof.
  unfold is_lifecycle_name. intros Hname.
  dispatching;
    try (rewrite ?E, ?E0, ?E1, ?E2, ?E3, ?E4, ?E5, ?E6, ?E7, ?E8, ?E9, ?E10, ?E11, ?E12
           in Hname; simpl in Hname; discriminate Hname);
    open_methods;
    repeat (framing;
            try first [kept_step | apply exchange_kept | apply computeSignature_kept]).
Qed.

Lemma call_kept (name : string) (args : list JsValue) :
  is_lifecycle_name name = false ->
  Preserves R (Native.call name args).
Proof.
  intros Hname s. unfold Native.call.
  pose proof (dispatch_kept name args Hname (Native.set_recovered false s)) as H.
  destruct (Native.dispatch name args (Native.set_recovered false s)) as [r s1].
  simpl in *. etransitivity; [apply H_recovered|].
  etransitivity; [exact H|apply H_recovered].
Qed.

Hypothesis H_clear : forall s, R s (Native.clear_activation s).
Hypothesis H_abandon :
  forall s, R s (Native.set_pending None (Native.clear_activation s)).
Hypothesis H_commit :
  forall s,
    R s (Native.set_status Native.Valid
           (Native.set_signatureCounter 0
              (Native.set_issued []
                 (Native.set_protocolVersion Native.V3
                    (Native.set_failedAttempts 0
                       (Native.set_activationId (Native.pending s)
                          (Native.set_pending None s))))))).

Ltac all_step :=
  first
    [ kept_step
    | apply Preserves_modify; intros ?;
      first [apply H_clear | apply H_abandon | apply H_commit] ].

Lemma rollback_kept (undo : list (string * option string)) :
  Preserves R (Native.rollback undo).
Proof.
  induction undo as [|[k old] undo IH]; simpl; [apply Preserves_ret; apply _|].
  apply Preserves_bind; [apply _| |intros _; exact IH].
  destruct old; [apply H_set|apply H_remove].
Qed.

Lemma persist_kept (writes : list (string * string))
    (undo : list (string * option string)) :
  Preserves R (Native.persist writes undo).
Proof.
  revert undo. induction writes as [|[k v] writes IH]; intros undo; simpl;
    repeat (framing; try first [all_step | apply rollback_kept | apply IH]).
Qed.

Lemma dispatch_all (name : string) (args : list JsValue) :
  Preserves R (Native.dispatch name args).
Proof.
  dispatching; open_methods;
    repeat (framing;
            try first [ all_step | apply exchange_kept | apply computeSignature_kept
                      | apply persist_kept ]).
Qed.

Lemma call_all (name : string) (args : list JsValue) :
  Preserves R (Native.call name args).
Proof.
  intros s. unfold Native.call.
  pose proof (dispatch_all name args (Native.set_recovered false s)) as H.
  destruct (Native.dispatch name args (Native.set_recovered false s)) as [r s1].
  simpl in *. etransitivity; [apply H_recovered|].
  etransitivity; [exact H|apply H_recovered].
Qed.

End Kept.
(** *** From the native methods to the calls of the facade *)

Lemma plain_named (p : PlainCall) :
  exists args, forall w : World Native.Session,
    plain p w = call (plain_name p) args w.
Proof.
  destruct p; simpl; try (eexists; intros w; reflexivity).
Qed.

Lemma authorized_named (c : AuthorizedCall) (prepared : PowerAuthAuthentication) :
  is_lifecycle_name (fst (native_request c prepared)) = negb (is_signing_operation c).
Proof. destruct c; reflexivity. Qed.

(** What the authentication step and the native methods keep, the calls of
    the facade keep. *)
Section Lifted.
Context (R : relation Native.Session) `{!PreOrder R}.
Hypothesis H_authenticate : forall a r s, R s (snd (Native.authenticate a r s)).

Lemma authorized_lifted (c : AuthorizedCall) (a : PowerAuthAuthentication)
    (w : World Native.Session) :
  (forall prepared,
      Preserves R (Native.call (fst (native_request c prepared))
                     (snd (native_request c prepared)))) ->
  R (native w) (native (snd (authorized c a w))).
Proof.
  intros Hcall. rewrite authorized_run.
  change (@wrapper_authenticate Native.Session Native.bridge) with Native.authenticate.
  change (@wrapper_call Native.Session Native.bridge) with Native.call.
  pose proof (H_authenticate a None (native w)) as Ha.
  destruct (Native.authenticate a None (native w)) as [[prepared|e] s1]; simpl in *;
    [|exact Ha].
  etransitivity; [exact Ha|apply Hcall].
Qed.

Lemma chain_lifted (cs : list AuthorizedCall) (r : PowerAuthAuthentication)
    (w : World Native.Session) :
  (forall c prepared, In c cs ->
      Preserves R (Native.call (fst (native_request c prepared))
                     (snd (native_request c prepared)))) ->
  R (native w) (native (snd (chain cs r w))).
Proof.
  revert w. induction cs as [|c cs IH]; intros w Hcall; simpl; [reflexivity|].
  unfold await.
  pose proof (authorized_lifted c r w (fun p => Hcall c p (or_introl eq_refl))) as H1.
  destruct (authorized c r w) as [[v|e] w1]; simpl in *; [|exact H1].
  etransitivity; [exact H1|].
  apply IH. intros c' p Hin. apply Hcall. right. exact Hin.
Qed.

Lemma grouped_lifted (a : PowerAuthAuthentication) (cs : list AuthorizedCall)
    (w : World Native.Session) :
  (forall c prepared, In c cs ->
      Preserves R (Native.call (fst (native_request c prepared))
                     (snd (native_request c prepared)))) ->
  R (native w) (native (snd (groupedBiometricAuthentication a (chain cs) w))).
Proof.
  intros Hcall. unfold groupedBiometricAuthentication.
  destruct (useBiometry a); simpl; [|reflexivity].
  unfold try_catch, await, throw. rewrite authenticate_run.
  change (@wrapper_authenticate Native.Session Native.bridge) with Native.authenticate.
  pose proof (H_authenticate a (Some true) (native w)) as Ha.
  destruct (Native.authenticate a (Some true) (native w)) as [[r|e] s1]; simpl in *;
    [|exact Ha].
  unfold emit; simpl.
  match goal with
  | |- context [chain cs r ?w1] =>
      pose proof (chain_lifted cs r w1 Hcall) as Hc;
      destruct (chain cs r w1) as [[u|e] w2]
  end; simpl in *; (etransitivity; [exact Ha|exact Hc]).
Qed.

Lemma invoke_kept (i : Invocation) (w : World Native.Session) :
  (forall name args, is_lifecycle_name name = false ->
      Preserves R (Native.call name args)) ->
  within_activation i = true ->
  R (native w) (native (snd (invoke i w))).
Proof.
  intros Hcall Hi. destruct i as [p|c a|arguments| |a cs]; simpl in *.
  - destruct (plain_named p) as (args & ->). rewrite call_run. simpl.
    apply Hcall. apply negb_true_iff. exact Hi.
  - apply authorized_lifted. intros prepared. apply Hcall.
    rewrite authorized_named, Hi. reflexivity.
  - unfold configure. destruct (configure_values arguments) as [[[c cc] bc] kc].
    unfold await, update_self; simpl. rewrite call_run. simpl.
    exact (Hcall "configure" _ eq_refl _).
  - unfold deconfigure, await, update_self; simpl. rewrite call_run. simpl.
    exact (Hcall "deconfigure" _ eq_refl _).
  - unfold await, resolve.
    pose proof (grouped_lifted a cs w) as Hg.
    destruct (groupedBiometricAuthentication a (chain cs) w) as [[u|e] w1]; simpl in *;
      apply Hg; intros c prepared Hin; apply Hcall;
      rewrite authorized_named;
      rewrite forallb_forall in Hi; rewrite (Hi c Hin); reflexivity.
Qed.

Lemma invoke_all (i : Invocation) (w : World Native.Session) :
  (forall name args, Preserves R (Native.call name args)) ->
  R (native w) (native (snd (invoke i w))).
Proof.
  intros Hcall. destruct i as [p|c a|arguments| |a cs]; simpl in *.
  - destruct (plain_named p) as (args & ->). rewrite call_run. simpl. apply Hcall.
  - apply authorized_lifted. intros prepared. apply Hcall.
  - unfold configure. destruct (configure_values arguments) as [[[c cc] bc] kc].
    unfold await, update_self; simpl. rewrite call_run. simpl. apply Hcall.
  - unfold deconfigure, await, update_self; simpl. rewrite call_run. simpl. apply Hcall.
  - unfold await, resolve.
    pose proof (grouped_lifted a cs w) as Hg.
    destruct (groupedBiometricAuthentication a (chain cs) w) as [[u|e] w1]; simpl in *;
      apply Hg; intros c prepared Hin; apply Hcall.
Qed.

End Lifted.

(** *** Only the authentication step asks the gate *)

#[local] Instance same_prompts_preorder : PreOrder same_prompts.
Proof.
  split; [intros s; reflexivity|].
  intros a b c H1 H2. unfold same_prompts in *. congruence.
Qed.

(** The collaborators other than the gate, and the bookkeeping of the
    engine, one by one. *)
Ltac collaborators :=
  try apply _;
  try (intros; intros ?);
  intros;
  unfold Native.send, Native.issue, Native.storage_set, Native.storage_remove,
    Native.wrong_password, Native.reject;
  repeat match goal with
         | |- context [match Native.replies ?s with _ => _ end] =>
             destruct (Native.replies s)
         | |- context [match Native.faults ?s with _ => _ end] =>
             destruct (Native.faults s) as [|[|] ?]
         | |- context [if Nat.leb ?a ?b then _ else _] => destruct (Nat.leb a b)
         end.

Lemma call_no_prompt (name : string) (args : list JsValue) (s : Native.Session) :
  no_prompt (Native.call name args) s.
Proof.
  revert s. apply (call_all same_prompts); collaborators; reflexivity.
Qed.

(** A descriptor that is already bound to key material passes the
    authentication step as it is, without a prompt. *)
Lemma authenticate_bound (a : PowerAuthAuthentication) (r : option bool)
    (s : Native.Session) :
  Native.has_value (biometryKey a) = true ->
  Native.authenticate a r s = (Fulfilled a, s).
Proof.
  intros H. unfold Native.authenticate. rewrite H, andb_false_r. reflexivity.
Qed.


(** The authentication step of a descriptor that asks for biometry and is
    not yet bound asks the gate exactly once; what it returns is bound. *)
Lemma authenticate_unbound (a : PowerAuthAuthentication) (r : option bool)
    (s : Native.Session) :
  useBiometry a = true ->
  Native.has_value (biometryKey a) = false ->
  Native.prompts (snd (Native.authenticate a r s)) = S (Native.prompts s) /\
  forall reusable, fst (Native.authenticate a r s) = Fulfilled reusable ->
    Native.has_value (biometryKey reusable) = true.
Proof.
  intros Hb Hk. unfold Native.authenticate, Native.unlock, Native.reject.
  rewrite Hb, Hk. simpl.
  destruct (Native.gate s) as [|[| |] rest]; simpl;
    try destruct (Native.storage s !! "biometryKey"); simpl;
    (split; [reflexivity|]); intros reusable H; try discriminate H.
  injection H as <-. reflexivity.
Qed.

Lemma chain_no_prompt (cs : list AuthorizedCall) (reusable : PowerAuthAuthentication)
    (w : World Native.Session) :
  Native.has_value (biometryKey reusable) = true ->
  Native.prompts (native (snd (chain cs reusable w))) = Native.prompts (native w).
Proof.
  intros Hk. revert w. induction cs as [|c cs IH]; intros w; simpl; [reflexivity|].
  unfold await.
  assert (Hc : Native.prompts (native (snd (authorized c reusable w))) =
               Native.prompts (native w)).
  { rewrite authorized_run.
    change (@wrapper_authenticate Native.Session Native.bridge) with Native.authenticate.
    rewrite (authenticate_bound reusable None (native w) Hk). simpl.
    apply call_no_prompt. }
  destruct (authorized c reusable w) as [[v|e] w1]; simpl in *.
  - rewrite IH. exact Hc.
  - exact Hc.
Qed.

(** C5, as the code has it.  For a descriptor with [useBiometry == true]
    that is not yet bound to key material and a callback that is a chain of
    authorised calls, the scope makes exactly one call to [authenticate] with
    the reusable flag and the gate is asked exactly once, however many calls
    the callback makes.  If that unlock succeeds, the callback is invoked
    exactly once, with the resulting descriptor, which is bound to the key;
    if it fails, the callback is not invoked and the promise is rejected with
    the processed error. *)
Theorem grouped_single_unlock (authentication : PowerAuthAuthentication)
    (calls : list AuthorizedCall) (w : World Native.Session) :
  useBiometry authentication = true ->
  Native.has_value (biometryKey authentication) = false ->
  let scope := groupedBiometricAuthentication authentication (chain calls) in
  gate_unlocks (emitted scope w) = 1 /\
  Native.prompts (native (snd (scope w))) = S (Native.prompts (native w)) /\
  match fst (Native.authenticate authentication (Some true) (native w)) with
  | Fulfilled reusable =>
      callback_arguments (emitted scope w) = [reusable] /\
      Native.has_value (biometryKey reusable) = true
  | Rejected e =>
      callback_arguments (emitted scope w) = [] /\
      fst (scope w) = Rejected (Native.processException e)
  end.
Proof.
  intros Hb Hk scope.
  destruct (grouped_scope_events authentication (chain calls) w Hb (chain_plain calls))
    as (Hg & _ & Hc).
  destruct (authenticate_unbound authentication (Some true) (native w) Hb Hk)
    as (Hp & Hbound).
  split; [exact Hg|]. split.
  - subst scope. unfold groupedBiometricAuthentication. rewrite Hb. simpl.
    unfold try_catch, await, throw, emit. rewrite authenticate_run.
    change (@wrapper_authenticate Native.Session Native.bridge) with Native.authenticate.
    destruct (Native.authenticate authentication (Some true) (native w))
      as [[reusable|e] s1]; cbn [fst snd] in *.
    + pose proof (chain_no_prompt calls reusable
                    {| self := self w; native := s1;
                       trace := ((trace w ++ [EvAuthenticate authentication (Some true)]) ++
                                 [EvCallback reusable])%list |}
                    (Hbound reusable eq_refl)) as Hn.
      simpl in Hn.
      destruct (chain calls reusable _) as [[u|e] w2]; simpl in *; congruence.
    + simpl. exact Hp.
  - change (@wrapper_authenticate Native.Session Native.bridge) with Native.authenticate
      in Hc.
    destruct (fst (Native.authenticate authentication (Some true) (native w)))
      as [reusable|e].
    + split; [exact Hc|]. apply Hbound. reflexivity.
    + exact Hc.
Qed.

(** Two signed calls inside one scope, the user approving the dialog: one
    prompt, one invocation of the callback, two signatures. *)
Lemma grouped_single_unlock_witness :
  let w := activated with_biometry [Native.Approve] [] [] in
  let scope := groupedBiometricAuthentication with_biometry (chain two_calls) in
  gate_unlocks (emitted scope w) = 1 /\
  Native.prompts (native (snd (scope w))) = 1 /\
  callback_arguments (emitted scope w) = [Native.with_biometryKey "biometry" with_biometry] /\
  fst (scope w) = Fulfilled tt /\
  Native.signatureCounter (native (snd (scope w))) = 2%N.
Proof.
  intros w scope.
  destruct (grouped_single_unlock with_biometry two_calls w eq_refl eq_refl)
    as (Hg & Hp & Hc).
  split; [exact Hg|]. split; [exact Hp|].
  split; [|split; vm_compute; reflexivity].
  assert (E : fst (Native.authenticate with_biometry (Some true) (native w)) =
              Fulfilled (Native.with_biometryKey "biometry" with_biometry))
    by (vm_compute; reflexivity).
  rewrite E in Hc. exact (proj1 Hc).
Defined.

(** C5 as stated fails: the user dismisses the dialog, [authenticate] is
    rejected and the callback is never invoked. *)
Lemma grouped_scope_cancelled :
  let w := activated with_biometry [Native.Cancel] [] [] in
  let scope := groupedBiometricAuthentication with_biometry (chain two_calls) in
  useBiometry with_biometry = true /\
  gate_unlocks (emitted scope w) = 1 /\
  callback_arguments (emitted scope w) = [] /\
  length (callback_arguments (emitted scope w)) <> 1 /\
  fst (scope w) =
    Rejected (PowerAuthError (Some (NativeRejection (BiometryFailed UserCancelled))) None).
Proof.
  vm_compute. repeat split. discriminate.
Qed.

(** *** The cached configuration *)

(** A native call leaves the allowance of the call before it as it found
    it. *)
Lemma restored (s : Native.Session) :
  Native.set_recovered (Native.recovered s) (Native.set_recovered false s) = s.
Proof. destruct s; reflexivity. Qed.

(** On an instance that the engine holds configured, [configure] is
    rejected with [AlreadyConfigured] and the engine keeps its configuration. *)
Lemma configure_again_rejected (arguments : ConfigureArguments)
    (w : World Native.Session) :
  Native.is_configured (native w) = true ->
  fst (configure arguments w) = Rejected (NativeRejection AlreadyConfigured) /\
  native (snd (configure arguments w)) = native w.
Proof.
  intros Hcfg. unfold configure.
  destruct (configure_values arguments) as [[[c cc] bc] kc].
  unfold await, update_self. simpl. rewrite call_run. simpl.
  unfold Native.call. cbn [Native.dispatch String.eqb Ascii.eqb Bool.eqb].
  unfold Native.configure, Native.bind, Native.read, Native.reject.
  unfold Native.is_configured in Hcfg. simpl.
  destruct (Native.config (native w)); [|discriminate]. simpl.
  rewrite restored. split; reflexivity.
Qed.

(** C4, on the code.  After [configure(configurationA)] has succeeded, a call
    [configure(configurationB, slow_client)] is rejected with
    [AlreadyConfigured] and the engine keeps the first configuration, but the
    cached properties of the instance now hold the configuration and the
    client configuration of the rejected call. *)
Theorem second_configure_overwrites_cache :
  let w1 := configured [] [] [] in
  let second := configure (WithObjects configurationB (value slow_client) null null) in
  configuration (self w1) = value configurationA /\
  clientConfiguration (self w1) = value PowerAuthClientConfiguration_default /\
  Native.config (native w1) = Some configurationA /\
  fst (second w1) = Rejected (NativeRejection AlreadyConfigured) /\
  Native.config (native (snd (second w1))) = Some configurationA /\
  configuration (self (snd (second w1))) = value configurationB /\
  clientConfiguration (self (snd (second w1))) = value slow_client /\
  configuration (self (snd (second w1))) <> configuration (self w1) /\
  clientConfiguration (self (snd (second w1))) <> clientConfiguration (self w1).
Proof.
  vm_compute. repeat split; discriminate.
Qed.

(** [deconfigure] on an instance that was never configured: the native call
    is rejected and the cached properties are [null] all the same. *)
Lemma deconfigure_rejected_clears :
  let w := boot "app" (Native.fresh [] [] []) in
  fst (deconfigure w) = Rejected (NativeRejection NotConfigured) /\
  self (snd (deconfigure w)) = forgotten (new_PowerAuth "app").
Proof. vm_compute. split; reflexivity. Qed.

(** The documented basic call, and an advanced call that leaves two of the
    optional configurations out. *)
Lemma configure_passes_defaults_witness :
  let w := boot "app" (Native.fresh [] [] []) in
  emitted (configure (WithObjects configurationA undefined (value
             {| linkItemsToCurrentSet := false; fallbackToDevicePasscode := true;
                confirmBiometricAuthentication := false;
                authenticateOnBiometricKeySetup := true |}) null)) w =
    [EvCall "configure"
       [JsConfiguration configurationA;
        JsClientConfiguration PowerAuthClientConfiguration_default;
        JsBiometryConfiguration
          {| linkItemsToCurrentSet := false; fallbackToDevicePasscode := true;
             confirmBiometricAuthentication := false;
             authenticateOnBiometricKeySetup := true |};
        JsKeychainConfiguration PowerAuthKeychainConfiguration_default]] /\
  emitted (configure (WithKeys "APPLICATION_KEY" "APPLICATION_SECRET"
                        "KEY_SERVER_MASTER_PUBLIC" "https://your-powerauth-endpoint.com/"
                        true)) w =
    [EvCall "configure"
       [JsConfiguration configurationA;
        JsClientConfiguration
          (set_enableUnsecureTraffic true PowerAuthClientConfiguration_default);
        JsBiometryConfiguration PowerAuthBiometryConfiguration_default;
        JsKeychainConfiguration PowerAuthKeychainConfiguration_default]].
Proof.
  intros w.
  destruct (configure_passes_defaults w) as [Hobjects Hkeys].
  split.
  - destruct (Hobjects configurationA undefined
                (value {| linkItemsToCurrentSet := false; fallbackToDevicePasscode := true;
                          confirmBiometricAuthentication := false;
                          authenticateOnBiometricKeySetup := true |}) null)
      as (cc & bc & kc & -> & Hc & _ & Hk & _ & Hb & _).
    rewrite (Hc eq_refl), (Hk eq_refl), (Hb _ eq_refl). reflexivity.
  - exact (proj1 (Hkeys "APPLICATION_KEY" "APPLICATION_SECRET" "KEY_SERVER_MASTER_PUBLIC"
                    "https://your-powerauth-endpoint.com/" true)).
Defined.

(** A descriptor fresh from the constructor has [useBiometry == false]. *)
Lemma grouped_without_biometry_rejects_witness :
  let w := activated with_password [Native.Approve] [] [] in
  groupedBiometricAuthentication new_PowerAuthAuthentication (chain two_calls) w =
    (Rejected (PowerAuthError None
       (Some "Requesting biometric authentication, but `useBiometry` is set to false.")),
     w) /\
  emitted (groupedBiometricAuthentication new_PowerAuthAuthentication (chain two_calls)) w
    = [].
Proof.
  intros w.
  exact (grouped_without_biometry_rejects new_PowerAuthAuthentication (chain two_calls) w
           eq_refl).
Defined.

(** *** Removal *)

(** Preparing an authentication object shows at most a prompt: it leaves
    the configuration, the activation, the store, the wire and the record
    of the signatures alone. *)
Lemma authenticate_frame (a : PowerAuthAuthentication) (r : option bool)
    (s : Native.Session) :
  let s' := snd (Native.authenticate a r s) in
  Native.config s' = Native.config s /\
  Native.status s' = Native.status s /\
  Native.signatureCounter s' = Native.signatureCounter s /\
  Native.activationId s' = Native.activationId s /\
  Native.storage s' = Native.storage s /\
  Native.replies s' = Native.replies s /\
  Native.wire s' = Native.wire s /\
  Native.issued s' = Native.issued s /\
  Native.recovered s' = Native.recovered s.
Proof.
  unfold Native.authenticate, Native.unlock, Native.reject.
  destruct (useBiometry a && negb (Native.has_value (biometryKey a))); simpl;
    [|repeat split].
  destruct (Native.gate s) as [|[| |] rest]; simpl;
    try destruct (Native.storage s !! "biometryKey"); simpl; repeat split.
Qed.

#[local] Instance same_store_preorder : PreOrder same_store.
Proof.
  split; [intros s; reflexivity|].
  intros a b c H1 H2. unfold same_store in *. congruence.
Qed.

Lemma clear_activation_cleared (before s : Native.Session) (b : bool) :
  Native.storage s = Native.storage before ->
  activation_cleared before (Native.set_recovered b (Native.clear_activation s)).
Proof.
  intros E. unfold activation_cleared, Native.clear_activation; simpl.
  rewrite E. repeat split.
  - apply lookup_delete_eq.
  - rewrite lookup_delete_ne by discriminate. apply lookup_delete_eq.
  - rewrite !lookup_delete_ne by discriminate. apply lookup_delete_eq.
  - rewrite !lookup_delete_ne by discriminate. reflexivity.
Qed.

(** A remote removal that is fulfilled has cleared the activation of the
    state it reached, whose store is the one it started from. *)
Lemma removal_fulfilled (a : PowerAuthAuthentication) (s : Native.Session) :
  is_fulfilled (fst (Native.removeActivationWithAuthentication a s)) = true ->
  exists s2,
    Native.storage s2 = Native.storage s /\
    snd (Native.removeActivationWithAuthentication a s) = Native.clear_activation s2.
Proof.
  unfold Native.removeActivationWithAuthentication, Native.configured_only, Native.bind,
    Native.read, Native.reject, Native.inspect, Native.modify, Native.ret, Native.raise.
  destruct (Native.config s); [|discriminate].
  assert (Hsig := computeSignature_kept same_store
                    ltac:(collaborators; reflexivity) ltac:(collaborators; reflexivity)
                    ltac:(collaborators; reflexivity)
                    a "POST" "/pa/activation/remove" undefined JsNull s).
  destruct (Native.status s); try discriminate;
    (destruct (Native.computeSignature a "POST" "/pa/activation/remove" undefined JsNull s)
       as [[v|e] s1]; simpl in *; [|discriminate];
     assert (Hx := exchange_kept same_store
                     ltac:(collaborators; reflexivity) ltac:(collaborators; reflexivity)
                     ltac:(collaborators; reflexivity) "/pa/activation/remove" s1);
     destruct (Native.exchange "/pa/activation/remove" s1) as [[body|e] s2];
     simpl in *; unfold same_store in *;
     [intros _; exists s2; split; [congruence|reflexivity]|];
     destruct (Native.already_removed e s2); simpl; [|discriminate];
     intros _; exists s2; split; [congruence|reflexivity]).
Qed.

(** C7, as the code documents it.  On a configured instance in Valid or
    Blocked, [removeActivationLocal] succeeds and
    [removeActivationWithAuthentication], when it succeeds, does the same:
    the status becomes NoActivation, the identifier is dropped, and the
    activation state, the biometry key and the knowledge key are removed from
    the store, while the cached possession-related key stays as it was. *)
Theorem removal_clears_activation (a : PowerAuthAuthentication)
    (w : World Native.Session) :
  Native.is_configured (native w) = true ->
  Native.status (native w) = Native.Valid \/ Native.status (native w) = Native.Blocked ->
  (fst (removeActivationLocal w) = Fulfilled JsUndefined /\
   activation_cleared (native w) (native (snd (removeActivationLocal w)))) /\
  (is_fulfilled (fst (removeActivationWithAuthentication a w)) = true ->
   activation_cleared (native w)
     (native (snd (removeActivationWithAuthentication a w)))).
Proof.
  intros Hcfg Hst. unfold Native.is_configured in Hcfg. split.
  - unfold removeActivationLocal. rewrite call_run. simpl.
    unfold Native.call. cbn [Native.dispatch String.eqb Ascii.eqb Bool.eqb].
    unfold Native.removeActivationLocal, Native.configured_only, Native.bind,
      Native.read, Native.reject, Native.modify, Native.ret. simpl.
    destruct (Native.config (native w)); [|discriminate].
    cbn [Native.status Native.set_recovered].
    destruct Hst as [E | E]; rewrite E; simpl;
      (split; [reflexivity|apply clear_activation_cleared; reflexivity]).
  - change (removeActivationWithAuthentication a w)
      with (authorized RemoveActivationWithAuthentication a w).
    rewrite authorized_run.
    change (@wrapper_authenticate Native.Session Native.bridge) with Native.authenticate.
    change (@wrapper_call Native.Session Native.bridge) with Native.call.
    destruct (authenticate_frame a None (native w)) as (_ & _ & _ & _ & F5 & _).
    destruct (Native.authenticate a None (native w)) as [[sent|e] s1]; simpl in *;
      [|discriminate].
    unfold Native.call. cbn [Native.dispatch String.eqb Ascii.eqb Bool.eqb].
    pose proof (removal_fulfilled sent (Native.set_recovered false s1)) as Hr.
    destruct (Native.removeActivationWithAuthentication sent
                (Native.set_recovered false s1)) as [r s2]; simpl in *.
    intros Hok. destruct (Hr Hok) as (s3 & Hs3 & ->).
    apply clear_activation_cleared. congruence.
Qed.

(** Both removals on an activation committed with possession and password,
    the server confirming the remote removal; and the local removal of a
    blocked activation. *)
Lemma removal_clears_activation_witness :
  let w := activated with_password [] [Native.Answer false "removed"] [] in
  activation_cleared (native w) (native (snd (removeActivationLocal w))) /\
  activation_cleared (native w)
    (native (snd (removeActivationWithAuthentication with_password w))) /\
  Native.status (native blocked) = Native.Blocked /\
  activation_cleared (native blocked) (native (snd (removeActivationLocal blocked))).
Proof.
  intros w.
  assert (Hcfg : Native.is_configured (native w) = true) by (vm_compute; reflexivity).
  assert (Hst : Native.status (native w) = Native.Valid \/
                Native.status (native w) = Native.Blocked)
    by (left; vm_compute; reflexivity).
  destruct (removal_clears_activation with_password w Hcfg Hst) as [[_ H1] H2].
  split; [exact H1|]. split; [apply H2; vm_compute; reflexivity|].
  assert (Hb : Native.status (native blocked) = Native.Blocked)
    by (vm_compute; reflexivity).
  split; [exact Hb|].
  refine (proj2 (proj1 (removal_clears_activation with_password blocked _ (or_intror Hb)))).
  vm_compute. reflexivity.
Defined.

(** C7 as stated fails: after [removeActivationLocal] on an activation
    committed with possession and password, the store still holds the
    possession-related key. *)
Lemma removal_keeps_possession_key :
  let w := activated with_password [] [] [] in
  Native.status (native w) = Native.Valid /\
  fst (removeActivationLocal w) = Fulfilled JsUndefined /\
  Native.status (native (snd (removeActivationLocal w))) = Native.NoActivation /\
  Native.storage (native (snd (removeActivationLocal w))) !! "possessionKey" =
    Some "possession" /\
  Native.storage (native (snd (removeActivationLocal w))) <> ∅.
Proof.
  intros w.
  assert (H : Native.storage (native (snd (removeActivationLocal w))) !! "possessionKey" =
              Some "possession") by (vm_compute; reflexivity).
  repeat split; try (vm_compute; reflexivity); try exact H.
  intros E. rewrite E in H. rewrite lookup_empty in H. discriminate.
Qed.

(** *** The commit of an activation *)

#[local] Arguments at_store : simpl never.

Lemma at_store_here (s : Native.Session) :
  at_store (Native.storage s) (Native.faults s) s = s.
Proof. destruct s; reflexivity. Qed.

Lemma storage_set_run (k v : string) (m : gmap string string) (script : list bool)
    (s : Native.Session) :
  Native.storage_set k v (at_store m script s) =
  match script with
  | true :: rest => (Rejected (NativeRejection StorageError), at_store m rest s)
  | _ :: rest => (Fulfilled tt, at_store (<[k:=v]> m) rest s)
  | [] => (Fulfilled tt, at_store (<[k:=v]> m) [] s)
  end.
Proof. destruct script as [|[|] rest]; reflexivity. Qed.

Lemma storage_remove_run (k : string) (m : gmap string string) (script : list bool)
    (s : Native.Session) :
  Native.storage_remove k (at_store m script s) =
  match script with
  | true :: rest => (Rejected (NativeRejection StorageError), at_store m rest s)
  | _ :: rest => (Fulfilled tt, at_store (delete k m) rest s)
  | [] => (Fulfilled tt, at_store (delete k m) [] s)
  end.
Proof. destruct script as [|[|] rest]; reflexivity. Qed.

Lemma restored_insert (k v : string) (m : gmap string string) :
  restored_in k (m !! k) (<[k:=v]> m) = m.
Proof.
  unfold restored_in. destruct (m !! k) as [x|] eqn:E.
  - rewrite insert_insert_eq. apply insert_id. assumption.
  - rewrite delete_insert_eq. apply delete_id. assumption.
Qed.

Lemma unwind_undo_log (writes : list (string * string)) (m : gmap string string)
    (undo : list (string * option string)) :
  unwind (undo_log writes m undo) (stored writes m) = unwind undo m.
Proof.
  revert m undo. induction writes as [|[k v] writes IH]; intros m undo; simpl;
    [reflexivity|].
  rewrite IH. simpl. rewrite restored_insert. reflexivity.
Qed.

Lemma length_undo_log (writes : list (string * string)) (m : gmap string string)
    (undo : list (string * option string)) :
  length (undo_log writes m undo) = length writes + length undo.
Proof.
  revert m undo. induction writes as [|[k v] writes IH]; intros m undo; simpl;
    [reflexivity|].
  rewrite IH. simpl. lia.
Qed.

Lemma restore_run (k : string) (old : option string) (m : gmap string string)
    (script : list bool) (s : Native.Session) :
  Native.restore k old (at_store m script s) =
  match script with
  | true :: rest => (Rejected (NativeRejection StorageError), at_store m rest s)
  | _ :: rest => (Fulfilled tt, at_store (restored_in k old m) rest s)
  | [] => (Fulfilled tt, at_store (restored_in k old m) [] s)
  end.
Proof.
  destruct old; simpl; [apply storage_set_run|apply storage_remove_run].
Qed.

(** A rollback that meets no fault undoes every write. *)
Lemma rollback_sound (undo : list (string * option string)) (m : gmap string string)
    (script : list bool) (s : Native.Session) :
  sound (take (length undo) script) = true ->
  Native.rollback undo (at_store m script s) =
  (Fulfilled tt, at_store (unwind undo m) (drop (length undo) script) s).
Proof.
  revert m script. induction undo as [|[k old] undo IH]; intros m script H; simpl.
  - rewrite drop_0. reflexivity.
  - unfold Native.bind. rewrite restore_run.
    destruct script as [|[|] rest]; simpl in *; try discriminate.
    + rewrite (IH _ []) by (rewrite take_nil; reflexivity).
      rewrite drop_nil. reflexivity.
    + rewrite IH by exact H. reflexivity.
Qed.

(** A rollback that meets a fault is rejected on the way; only the store
    and the script have moved. *)
Lemma rollback_fault (undo : list (string * option string)) (m : gmap string string)
    (script : list bool) (s : Native.Session) :
  sound (take (length undo) script) = false ->
  exists m1 script1,
    Native.rollback undo (at_store m script s) =
    (Rejected (NativeRejection StorageError), at_store m1 script1 s).
Proof.
  revert m script. induction undo as [|[k old] undo IH]; intros m script H; simpl in *.
  - discriminate.
  - unfold Native.bind. rewrite restore_run.
    destruct script as [|[|] rest]; simpl in *.
    + discriminate.
    + eauto.
    + apply IH. exact H.
Qed.

(** Writes that meet no fault are all made. *)
Lemma persist_sound (writes : list (string * string))
    (undo : list (string * option string)) (m : gmap string string)
    (script : list bool) (s : Native.Session) :
  sound (take (length writes) script) = true ->
  Native.persist writes undo (at_store m script s) =
  (Fulfilled tt, at_store (stored writes m) (drop (length writes) script) s).
Proof.
  revert undo m script. induction writes as [|[k v] writes IH]; intros undo m script H;
    simpl.
  - rewrite drop_0. reflexivity.
  - unfold Native.bind, Native.read, Native.inspect. rewrite storage_set_run.
    destruct script as [|[|] rest]; simpl in *; try discriminate.
    + rewrite (IH _ _ []) by (rewrite take_nil; reflexivity).
      rewrite drop_nil. reflexivity.
    + rewrite IH by exact H. reflexivity.
Qed.

Lemma persist_cons (k v : string) (writes : list (string * string))
    (undo : list (string * option string)) (s : Native.Session) :
  Native.persist ((k, v) :: writes) undo s =
  match Native.storage_set k v s with
  | (Fulfilled _, s1) => Native.persist writes ((k, Native.storage s !! k) :: undo) s1
  | (Rejected _, s1) =>
      match Native.rollback undo s1 with
      | (Fulfilled _, s2) => (Rejected (NativeRejection StorageError), s2)
      | (Rejected _, s2) =>
          (Rejected (NativeRejection CorruptedState),
           Native.set_pending None (Native.clear_activation s2))
      end
  end.
Proof.
  cbn [Native.persist]. unfold Native.bind, Native.read, Native.inspect.
  destruct (Native.storage_set k v s) as [[u|e] s1]; [reflexivity|].
  destruct (Native.rollback undo s1) as [[u|e'] s2]; reflexivity.
Qed.

(** The write number [length ok] fails: the writes before it were made and
    are rolled back. *)
Lemma persist_fault (writes : list (string * string))
    (undo : list (string * option string)) (m : gmap string string)
    (ok rest : list bool) (s : Native.Session) :
  sound ok = true ->
  length ok < length writes ->
  Native.persist writes undo (at_store m (ok ++ true :: rest) s) =
  let made := take (length ok) writes in
  match Native.rollback (undo_log made m undo) (at_store (stored made m) rest s) with
  | (Fulfilled _, s2) => (Rejected (NativeRejection StorageError), s2)
  | (Rejected _, s2) =>
      (Rejected (NativeRejection CorruptedState),
       Native.set_pending None (Native.clear_activation s2))
  end.
Proof.
  revert undo m ok. induction writes as [|[k v] writes IH]; intros undo m ok Hok Hlen;
    [simpl in Hlen; lia|].
  rewrite persist_cons.
  destruct ok as [|[|] ok]; try discriminate.
  - change ([] ++ true :: rest)%list with (true :: rest).
    rewrite storage_set_run. reflexivity.
  - change ((false :: ok) ++ true :: rest)%list with (false :: (ok ++ true :: rest))%list.
    rewrite storage_set_run.
    rewrite IH by (try assumption; simpl in Hlen; lia). reflexivity.
Qed.

(** A script with a fault among its first [n] entries has a first one. *)
Lemma first_fault (n : nat) (script : list bool) :
  sound (take n script) = false ->
  exists ok rest,
    script = (ok ++ true :: rest)%list /\ sound ok = true /\ length ok < n.
Proof.
  revert script. induction n as [|n IH]; intros script H.
  - rewrite take_0 in H. discriminate.
  - destruct script as [|[|] script]; simpl in H; try discriminate.
    + exists [], script. repeat split. simpl. lia.
    + destruct (IH script H) as (ok & rest & -> & Hok & Hlen).
      exists (false :: ok), rest. repeat split; simpl; try assumption. lia.
Qed.

Lemma call_commitActivation (a : PowerAuthAuthentication) (s : Native.Session) :
  Native.call "commitActivation" [JsAuthentication a] s =
  let '(r, s1) := Native.commitActivation a (Native.set_recovered false s) in
  (r, Native.set_recovered (Native.recovered s) s1).
Proof. reflexivity. Qed.

(** From PendingCreation the native commit is the run of its writes,
    followed by the move to Valid when all of them were made. *)
Lemma commit_from_pending (a : PowerAuthAuthentication) (s : Native.Session) :
  Native.is_configured s = true ->
  Native.status s = Native.PendingCreation ->
  Native.call "commitActivation" [JsAuthentication a] s =
  match Native.persist (Native.commit_writes a s) []
          (at_store (Native.storage s) (Native.faults s) (Native.set_recovered false s)) with
  | (Fulfilled _, s1) =>
      (Fulfilled JsUndefined,
       Native.set_recovered (Native.recovered s)
         (Native.set_status Native.Valid
            (Native.set_signatureCounter 0
               (Native.set_issued []
                  (Native.set_protocolVersion Native.V3
                     (Native.set_failedAttempts 0
                        (Native.set_activationId (Native.pending s1)
                           (Native.set_pending None s1))))))))
  | (Rejected e, s1) => (Rejected e, Native.set_recovered (Native.recovered s) s1)
  end.
Proof.
  intros Hcfg Hst. unfold Native.is_configured in Hcfg.
  rewrite call_commitActivation.
  unfold Native.commitActivation, Native.configured_only, Native.bind, Native.read.
  cbn [Native.config Native.status Native.set_recovered].
  destruct (Native.config s); [|discriminate].
  change (Native.status (Native.set_recovered false s)) with (Native.status s).
  rewrite Hst.
  change (Native.commit_writes a (Native.set_recovered false s))
    with (Native.commit_writes a s).
  replace (at_store (Native.storage s) (Native.faults s) (Native.set_recovered false s))
    with (Native.set_recovered false s) by (destruct s; reflexivity).
  destruct (Native.persist (Native.commit_writes a s) [] (Native.set_recovered false s))
    as [[u|e] s1]; reflexivity.
Qed.

Lemma commit_not_pending (a : PowerAuthAuthentication) (s : Native.Session) :
  Native.is_configured s = true ->
  Native.status s <> Native.PendingCreation ->
  Native.call "commitActivation" [JsAuthentication a] s =
  (Rejected (NativeRejection InvalidActivationState), s).
Proof.
  intros Hcfg Hst. unfold Native.is_configured in Hcfg.
  rewrite call_commitActivation.
  unfold Native.commitActivation, Native.configured_only, Native.bind, Native.read.
  cbn [Native.config Native.status Native.set_recovered].
  destruct (Native.config s); [|discriminate].
  change (Native.status (Native.set_recovered false s)) with (Native.status s).
  destruct (Native.status s) eqn:E; try congruence;
    unfold Native.reject; rewrite restored; reflexivity.
Qed.

(** C2.  [commitActivation] on a configured instance is atomic.  Outside
    PendingCreation it is rejected with InvalidActivationState and the engine
    is left as it was.  From PendingCreation: when none of its writes meets an
    injected failure it is fulfilled, the status is Valid with a zero counter
    and the pending identifier, and the store holds every write; when the
    write after the sound stretch [ok] of the fault script fails, the commit
    is rejected and is never Valid: with a rollback that meets no failure it
    is rejected with StorageError and status, store, identifier, counter and
    pending activation are those before the commit; with a rollback that
    fails it is rejected with CorruptedState and the activation is cleared to
    NoActivation, with no activation state, biometry key, knowledge key or
    pending activation left.  In every case a Valid status after the commit
    means that the commit was fulfilled and every write is in the store. *)
Theorem commitActivation_atomic (a : PowerAuthAuthentication)
    (w : World Native.Session) :
  let s := native w in
  let r := fst (commitActivation a w) in
  let s' := native (snd (commitActivation a w)) in
  let writes := Native.commit_writes a s in
  Native.is_configured s = true ->
  (Native.status s <> Native.PendingCreation ->
   r = Rejected (NativeRejection InvalidActivationState) /\ s' = s) /\
  (Native.status s = Native.PendingCreation ->
   (sound (take (length writes) (Native.faults s)) = true ->
    r = Fulfilled JsUndefined /\
    Native.status s' = Native.Valid /\
    Native.storage s' = stored writes (Native.storage s) /\
    Native.activationId s' = Native.pending s /\
    Native.signatureCounter s' = 0%N /\
    Native.pending s' = None) /\
   (forall ok rest : list bool,
      Native.faults s = (ok ++ true :: rest)%list ->
      sound ok = true ->
      length ok < length writes ->
      is_fulfilled r = false /\
      Native.status s' <> Native.Valid /\
      (sound (take (length ok) rest) = true ->
       r = Rejected (NativeRejection StorageError) /\
       Native.status s' = Native.PendingCreation /\
       Native.storage s' = Native.storage s /\
       Native.activationId s' = Native.activationId s /\
       Native.signatureCounter s' = Native.signatureCounter s /\
       Native.pending s' = Native.pending s) /\
      (sound (take (length ok) rest) = false ->
       r = Rejected (NativeRejection CorruptedState) /\
       Native.status s' = Native.NoActivation /\
       Native.activationId s' = None /\
       Native.pending s' = None /\
       Native.storage s' !! "activationState" = None /\
       Native.storage s' !! "biometryKey" = None /\
       Native.storage s' !! "knowledgeKey" = None)) /\
   (Native.status s' = Native.Valid ->
    r = Fulfilled JsUndefined /\
    Native.storage s' = stored writes (Native.storage s))).
Proof.
  intros s r s' writes Hcfg. subst r s'. unfold commitActivation. rewrite call_run.
  change (@wrapper_call Native.Session Native.bridge) with Native.call.
  cbn [fst snd native]. fold s.
  split.
  { intros Hst. rewrite (commit_not_pending a s Hcfg Hst). split; reflexivity. }
  intros Hst. rewrite (commit_from_pending a s Hcfg Hst). fold writes.
  set (P := Native.persist writes []
              (at_store (Native.storage s) (Native.faults s)
                 (Native.set_recovered false s))).
  assert (Hsound :
    sound (take (length writes) (Native.faults s)) = true ->
    P = (Fulfilled tt,
         at_store (stored writes (Native.storage s))
           (drop (length writes) (Native.faults s)) (Native.set_recovered false s)))
    by (intros H; apply persist_sound; exact H).
  assert (Hfault : forall ok rest : list bool,
    Native.faults s = (ok ++ true :: rest)%list ->
    sound ok = true ->
    length ok < length writes ->
    (sound (take (length ok) rest) = true ->
     P = (Rejected (NativeRejection StorageError),
          at_store (Native.storage s) (drop (length ok) rest)
            (Native.set_recovered false s))) /\
    (sound (take (length ok) rest) = false ->
     exists m1 script1,
       P = (Rejected (NativeRejection CorruptedState),
            Native.set_pending None
              (Native.clear_activation
                 (at_store m1 script1 (Native.set_recovered false s)))))).
  { intros ok rest E Hok Hlen. subst P. rewrite E.
    rewrite (persist_fault writes [] _ ok rest _ Hok Hlen). cbv zeta.
    assert (Hn : length (undo_log (take (length ok) writes) (Native.storage s) []) =
                 length ok).
    { rewrite length_undo_log, length_take. simpl. lia. }
    split; intros Hr.
    - rewrite rollback_sound by (rewrite Hn; exact Hr).
      rewrite unwind_undo_log, Hn. reflexivity.
    - destruct (rollback_fault (undo_log (take (length ok) writes) (Native.storage s) [])
                  (stored (take (length ok) writes) (Native.storage s)) rest
                  (Native.set_recovered false s)) as (m1 & script1 & ->);
        [rewrite Hn; exact Hr|].
      exists m1, script1. reflexivity. }
  assert (Hfaulty : forall ok rest : list bool,
    Native.faults s = (ok ++ true :: rest)%list ->
    sound ok = true ->
    length ok < length writes ->
    is_fulfilled (fst P) = false /\ Native.status (snd P) <> Native.Valid).
  { intros ok rest E Hok Hlen.
    destruct (Hfault ok rest E Hok Hlen) as [H1 H2].
    destruct (sound (take (length ok) rest)) eqn:Hr.
    - rewrite (H1 eq_refl).
      split; [reflexivity|]. simpl. rewrite Hst. discriminate.
    - destruct (H2 eq_refl) as (m1 & script1 & ->).
      split; [reflexivity|]. simpl. discriminate. }
  split; [|split].
  - intros H. rewrite (Hsound H). simpl. repeat split.
  - intros ok rest E Hok Hlen.
    destruct (Hfault ok rest E Hok Hlen) as [H1 H2].
    destruct (Hfaulty ok rest E Hok Hlen) as [Ho Hv].
    split; [|split; [|split]].
    + destruct P as [[u|e] s1]; [discriminate|reflexivity].
    + destruct P as [[u|e] s1]; [discriminate|exact Hv].
    + intros Hr. rewrite (H1 Hr). simpl. rewrite Hst. repeat split.
    + intros Hr. destruct (H2 Hr) as (m1 & script1 & ->). simpl.
      repeat split.
      * apply lookup_delete_eq.
      * rewrite lookup_delete_ne by discriminate. apply lookup_delete_eq.
      * rewrite !lookup_delete_ne by discriminate. apply lookup_delete_eq.
  - destruct (sound (take (length writes) (Native.faults s))) eqn:Hs.
    + rewrite (Hsound eq_refl). simpl. intros _. split; reflexivity.
    + destruct (first_fault _ _ Hs) as (ok & rest & E & Hok & Hlen).
      destruct (Hfaulty ok rest E Hok Hlen) as [Ho Hv].
      destruct P as [[u|e] s1]; [discriminate|]. simpl. intros Hvalid. contradiction.
Qed.

(** Three commits with possession and password, which make three writes:
    one that meets no failure; one whose third write fails and is rolled
    back; one whose second write fails and whose rollback fails too. *)
Lemma commitActivation_atomic_witness :
  let w1 := created [] [] [] in
  let w2 := created [] [] [false; false; true] in
  let w3 := created [] [] [false; true; true] in
  (fst (commitActivation with_password w1) = Fulfilled JsUndefined /\
   Native.status (native (snd (commitActivation with_password w1))) = Native.Valid /\
   Native.storage (native (snd (commitActivation with_password w1))) =
     stored (Native.commit_writes with_password (native w1)) (Native.storage (native w1))) /\
  (fst (commitActivation with_password w2) = Rejected (NativeRejection StorageError) /\
   Native.status (native (snd (commitActivation with_password w2))) =
     Native.PendingCreation /\
   Native.storage (native (snd (commitActivation with_password w2))) =
     Native.storage (native w2)) /\
  (fst (commitActivation with_password w3) = Rejected (NativeRejection CorruptedState) /\
   Native.status (native (snd (commitActivation with_password w3))) =
     Native.NoActivation /\
   Native.pending (native (snd (commitActivation with_password w3))) = None).
Proof.
  intros w1 w2 w3.
  assert (C1 : Native.is_configured (native w1) = true) by (vm_compute; reflexivity).
  assert (C2 : Native.is_configured (native w2) = true) by (vm_compute; reflexivity).
  assert (C3 : Native.is_configured (native w3) = true) by (vm_compute; reflexivity).
  assert (P1 : Native.status (native w1) = Native.PendingCreation)
    by (vm_compute; reflexivity).
  assert (P2 : Native.status (native w2) = Native.PendingCreation)
    by (vm_compute; reflexivity).
  assert (P3 : Native.status (native w3) = Native.PendingCreation)
    by (vm_compute; reflexivity).
  split; [|split].
  - destruct (commitActivation_atomic with_password w1 C1) as [_ H].
    destruct (H P1) as [H1 _].
    destruct H1 as (R & S & M & _); [vm_compute; reflexivity|].
    split; [exact R|]. split; [exact S|exact M].
  - destruct (commitActivation_atomic with_password w2 C2) as [_ H].
    destruct (H P2) as [_ [H2 _]].
    destruct (H2 [false; false] []) as (_ & _ & H3 & _);
      [vm_compute; reflexivity|reflexivity|vm_compute; lia|].
    destruct H3 as (R & S & M & _); [vm_compute; reflexivity|].
    split; [exact R|]. split; [exact S|exact M].
  - destruct (commitActivation_atomic with_password w3 C3) as [_ H].
    destruct (H P3) as [_ [H2 _]].
    destruct (H2 [false] [true]) as (_ & _ & _ & H3);
      [vm_compute; reflexivity|reflexivity|vm_compute; lia|].
    destruct H3 as (R & S & _ & Pn & _); [vm_compute; reflexivity|].
    split; [exact R|]. split; [exact S|exact Pn].
Defined.

(** *** Signing without a valid activation *)








(** *** The signature counter *)

Lemma ticks_app (c : N) (k1 k2 : nat) :
  ticks c (k1 + k2) = (ticks c k1 ++ ticks (Nat.iter k1 Native.advance c) k2)%list.
Proof.
  revert c. induction k1 as [|k1 IH]; intros c; [reflexivity|].
  rewrite Nat.iter_succ_r. cbn [Nat.add ticks app]. rewrite IH. reflexivity.
Qed.

Lemma iter_advance_add (c : N) (k1 k2 : nat) :
  Nat.iter (k1 + k2) Native.advance c =
  Nat.iter k2 Native.advance (Nat.iter k1 Native.advance c).
Proof. rewrite Nat.add_comm. apply Nat.iter_add. Qed.

Lemma length_ticks (c : N) (k : nat) : length (ticks c k) = k.
Proof. revert c. induction k as [|k IH]; intros c; simpl; [|rewrite IH]; reflexivity. Qed.

#[local] Instance grows_preorder : PreOrder grows.
Proof.
  split.
  - intros s. exists 0. simpl. rewrite app_nil_r. split; reflexivity.
  - intros a b c (k1 & I1 & C1) (k2 & I2 & C2). exists (k1 + k2).
    rewrite I2, C2, I1, C1, ticks_app, iter_advance_add, app_assoc. split; reflexivity.
Qed.

Lemma grows_same (s s' : Native.Session) :
  Native.issued s' = Native.issued s ->
  Native.signatureCounter s' = Native.signatureCounter s ->
  grows s s'.
Proof.
  intros I C. exists 0. simpl. rewrite app_nil_r. split; assumption.
Qed.

(** Every native method that neither starts nor ends an activation lets
    the record of the signatures grow with the counter. *)
Lemma call_grows (name : string) (args : list JsValue) :
  is_lifecycle_name name = false ->
  Preserves grows (Native.call name args).
Proof.
  apply (call_kept grows); collaborators;
    first [apply grows_same; reflexivity | exists 1; split; reflexivity].
Qed.

Lemma authenticate_grows (a : PowerAuthAuthentication) (r : option bool)
    (s : Native.Session) :
  grows s (snd (Native.authenticate a r s)).
Proof.
  destruct (authenticate_frame a r s) as (_ & _ & C & _ & _ & _ & _ & I & _).
  apply grows_same; assumption.
Qed.

Lemma invoke_grows (i : Invocation) (w : World Native.Session) :
  within_activation i = true ->
  grows (native w) (native (snd (invoke i w))).
Proof.
  apply (invoke_kept grows authenticate_grows). apply call_grows.
Qed.

(** *** What the native methods return *)

Section Results.
Context {A : Type} (P : A -> Prop).

Lemma Returns_ret (a : A) : P a -> Returns P (Native.ret a).
Proof. intros H s a' E. injection E as <-. exact H. Qed.

Lemma Returns_reject (kind : ErrorKind) : Returns P (Native.reject kind).
Proof. intros s a E. discriminate E. Qed.

Lemma Returns_raise (e : Thrown) : Returns P (Native.raise e).
Proof. intros s a E. discriminate E. Qed.

Lemma Returns_read (f : Native.Session -> A) : (forall s, P (f s)) -> Returns P (Native.read f).
Proof. intros H s a E. injection E as <-. apply H. Qed.

Lemma Returns_bind {B : Type} (f : Native.M B) (g : B -> Native.M A) :
  (forall b, Returns P (g b)) -> Returns P (Native.bind f g).
Proof.
  intros Hg s a. unfold Native.bind.
  destruct (f s) as [[b|e] s1]; simpl; [apply Hg|discriminate].
Qed.

Lemma Returns_inspect {B : Type} (f : Native.M B) (k : Outcome B -> Native.M A) :
  (forall r, Returns P (k r)) -> Returns P (Native.inspect f k).
Proof.
  intros Hk s a. unfold Native.inspect.
  destruct (f s) as [r s1]; simpl. apply Hk.
Qed.

End Results.

Ltac returning :=
  repeat first
    [ apply Returns_reject
    | apply Returns_raise
    | apply Returns_bind; intros ?
    | apply Returns_inspect; intros ?
    | apply Returns_read; intros ?
    | apply Returns_ret
    | match goal with
      | |- Returns _ (match ?x with _ => _ end) => destruct x
      | |- Returns _ (if ?b then _ else _) => destruct b
      end ];
  repeat match goal with
         | |- context [match ?x with _ => _ end] => destruct x
         | |- context [if ?b then _ else _] => destruct b
         end;
  try reflexivity.

(** Only the three signature operations hand out a signature header. *)
Lemma dispatch_no_signature (name : string) (args : list JsValue) :
  is_signature_name name = false ->
  Returns (fun v => is_signature v = false) (Native.dispatch name args).
Proof.
  unfold is_signature_name. intros Hname.
  dispatching;
    try (rewrite ?E, ?E0, ?E1, ?E2, ?E3, ?E4, ?E5, ?E6, ?E7, ?E8, ?E9, ?E10, ?E11, ?E12,
           ?E13, ?E14, ?E15, ?E16, ?E17, ?E18, ?E19, ?E20 in Hname;
         simpl in Hname; discriminate Hname);
    open_methods; returning.
Qed.

Lemma call_no_signature (name : string) (args : list JsValue) (s : Native.Session) :
  is_signature_name name = false ->
  signature_counters [fst (Native.call name args s)] = [].
Proof.
  intros Hname. unfold Native.call.
  pose proof (dispatch_no_signature name args Hname (Native.set_recovered false s)) as H.
  destruct (Native.dispatch name args (Native.set_recovered false s)) as [[v|e] s1];
    simpl in *; [|reflexivity].
  specialize (H v eq_refl). destruct v; try discriminate H; reflexivity.
Qed.

(** A call other than one of the three signature operations does not hand
    out a signature header. *)
Lemma invoke_no_signature (i : Invocation) (w : World Native.Session) :
  is_signature_invocation i = false ->
  signature_counters [fst (invoke i w)] = [].
Proof.
  intros Hi. destruct i as [p|c a|arguments| |a cs]; cbn [invoke].
  - destruct (plain_named p) as (args & ->). rewrite call_run. cbn [fst].
    apply call_no_signature. destruct p; reflexivity.
  - rewrite authorized_run.
    change (@wrapper_authenticate Native.Session Native.bridge) with Native.authenticate.
    change (@wrapper_call Native.Session Native.bridge) with Native.call.
    destruct (Native.authenticate a None (native w)) as [[prepared|e] s1];
      cbn [fst snd]; [|reflexivity].
    pose proof (call_no_signature (fst (native_request c prepared))
                  (snd (native_request c prepared)) s1) as H.
    destruct c; try discriminate Hi; specialize (H eq_refl);
      destruct (fst (Native.call _ _ s1)) as [v|e]; try reflexivity;
      destruct v; try discriminate H; reflexivity.
  - unfold configure. destruct (configure_values arguments) as [[[c cc] bc] kc].
    unfold await, update_self; simpl. rewrite call_run. simpl.
    apply call_no_signature. reflexivity.
  - unfold deconfigure, await, update_self; simpl. rewrite call_run. simpl.
    apply call_no_signature. reflexivity.
  - unfold await, resolve.
    destruct (groupedBiometricAuthentication a (chain cs) w) as [[u|e] w1]; reflexivity.
Qed.

(** A signature is made under the current counter value, which advances by
    one; a signature that is refused leaves the counter alone. *)
Lemma computeSignature_counts (a : PowerAuthAuthentication) (method uriId : string)
    (nonce : Nullable string) (data : JsValue) (s : Native.Session) :
  match Native.computeSignature a method uriId nonce data s with
  | (Fulfilled v, s') =>
      v = JsSignature (Native.signatureCounter s) method uriId nonce data /\
      Native.issued s' = (Native.issued s ++ [Native.signatureCounter s])%list /\
      Native.signatureCounter s' = Native.advance (Native.signatureCounter s)
  | (Rejected _, s') =>
      Native.issued s' = Native.issued s /\
      Native.signatureCounter s' = Native.signatureCounter s
  end.
Proof.
  unfold Native.computeSignature, Native.bind, Native.read, Native.reject, Native.modify,
    Native.issue, Native.ret, Native.wrong_password.
  destruct (negb (usePossession a || useBiometry a || Native.has_value (userPassword a)));
    [split; reflexivity|].
  destruct (useBiometry a && negb (Native.biometry_unlocked a s));
    [split; reflexivity|].
  destruct (negb (Native.password_accepted a s)); cbn.
  - destruct (Nat.leb (Native.maxFailedAttempts s) (S (Native.failedAttempts s)));
      split; reflexivity.
  - repeat split.
Qed.

Lemma successes_cons {A : Type} (r : Outcome A) (rs : list (Outcome A)) :
  successes (r :: rs) = (if is_fulfilled r then 1 else 0) + successes rs.
Proof.
  unfold successes. rewrite filter_cons.
  destruct (decide (is_fulfilled r = true)) as [E|E].
  - rewrite E. reflexivity.
  - destruct (is_fulfilled r); [congruence|reflexivity].
Qed.

Lemma signature_counters_cons (r : Outcome JsValue) (rs : list (Outcome JsValue)) :
  signature_counters (r :: rs) = (signature_counters [r] ++ signature_counters rs)%list.
Proof. destruct r as [[]|]; reflexivity. Qed.

(** The engine's signature operations, one call: a signature at the current
    counter value when the call is fulfilled, none when it is rejected. *)
Lemma signature_call (c : AuthorizedCall) (prepared : PowerAuthAuthentication)
    (s : Native.Session) :
  is_signature_operation c = true ->
  let request := native_request c prepared in
  let r := fst (Native.call (fst request) (snd request) s) in
  let s' := snd (Native.call (fst request) (snd request) s) in
  exists k,
    Native.issued s' = (Native.issued s ++ ticks (Native.signatureCounter s) k)%list /\
    Native.signatureCounter s' = Nat.iter k Native.advance (Native.signatureCounter s) /\
    signature_counters [r] = ticks (Native.signatureCounter s) k /\
    k = successes [r].
Proof.
  intros Hc request r s'. subst request r s'.
  assert (Hnone : forall e : Thrown,
    exists k,
      Native.issued (Native.set_recovered (Native.recovered s) (Native.set_recovered false s)) =
        (Native.issued s ++ ticks (Native.signatureCounter s) k)%list /\
      Native.signatureCounter
        (Native.set_recovered (Native.recovered s) (Native.set_recovered false s)) =
        Nat.iter k Native.advance (Native.signatureCounter s) /\
      signature_counters [Rejected e] = ticks (Native.signatureCounter s) k /\
      k = successes [@Rejected JsValue e]).
  { intros e. exists 0. cbn. rewrite app_nil_r. repeat split. }
  destruct c as [method uriId body|uriId params|uriId nonce body| | | | | ];
    try discriminate Hc; unfold Native.call;
    cbn [native_request fst snd Native.dispatch String.eqb Ascii.eqb Bool.eqb];
    unfold Native.signing, Native.configured_only, Native.bind, Native.read, Native.reject;
    change (Native.config (Native.set_recovered false s)) with (Native.config s);
    (destruct (Native.config s); [|apply Hnone]);
    change (Native.status (Native.set_recovered false s)) with (Native.status s);
    (destruct (Native.status s); try apply Hnone);
    match goal with
    | |- context [Native.computeSignature ?a ?m ?u ?n ?d ?x] =>
        pose proof (computeSignature_counts a m u n d x) as H;
        destruct (Native.computeSignature a m u n d x) as [[v|e] s1]
    end;
    cbn [fst snd Native.issued Native.signatureCounter Native.set_recovered] in *.
  all: try (destruct H as (-> & I & C); exists 1; rewrite I, C; repeat split).
  all: destruct H as (I & C); exists 0; rewrite I, C; cbn; rewrite app_nil_r;
    repeat split.
Qed.

(** One call of the facade that neither starts nor ends an activation. *)
Lemma invoke_counts (i : Invocation) (w : World Native.Session) :
  within_activation i = true ->
  let c := Native.signatureCounter (native w) in
  let r := fst (invoke i w) in
  let s' := native (snd (invoke i w)) in
  exists k,
    Native.issued s' = (Native.issued (native w) ++ ticks c k)%list /\
    Native.signatureCounter s' = Nat.iter k Native.advance c /\
    sublist (signature_counters [r]) (ticks c k) /\
    (is_signature_invocation i = true ->
     signature_counters [r] = ticks c k /\ k = successes [r]).
Proof.
  intros Hi c r s'. subst c r s'.
  destruct (is_signature_invocation i) eqn:Hs.
  - destruct i as [p|op a|arguments| |a cs]; try discriminate Hs. cbn [invoke].
    simpl in Hs. rewrite authorized_run.
    change (@wrapper_authenticate Native.Session Native.bridge) with Native.authenticate.
    change (@wrapper_call Native.Session Native.bridge) with Native.call.
    destruct (authenticate_frame a None (native w)) as (_ & _ & C & _ & _ & _ & _ & I & _).
    destruct (Native.authenticate a None (native w)) as [[prepared|e] s1];
      cbn [fst snd native] in *.
    + destruct (signature_call op prepared s1 Hs) as (k & I1 & C1 & S1 & K1).
      cbv zeta in *. rewrite I, C in *. exists k.
      assert (Hsurf : surfaced op (fst (Native.call (fst (native_request op prepared))
                                          (snd (native_request op prepared)) s1)) =
                      fst (Native.call (fst (native_request op prepared))
                             (snd (native_request op prepared)) s1))
        by (destruct op; try discriminate Hs; reflexivity).
      rewrite Hsurf. split; [exact I1|]. split; [exact C1|].
      split; [rewrite S1; reflexivity|]. intros _. split; assumption.
    + exists 0. cbn. rewrite app_nil_r. repeat split; try assumption. constructor.
  - destruct (invoke_grows i w Hi) as (k & I & C). exists k.
    split; [exact I|]. split; [exact C|].
    rewrite (invoke_no_signature i w Hs).
    split; [apply sublist_nil_l|]. discriminate.
Qed.

(** A program of calls none of which starts or ends an activation. *)
Lemma run_counts (program : list Invocation) (w : World Native.Session) :
  forallb within_activation program = true ->
  let c := Native.signatureCounter (native w) in
  let rs := fst (run program w) in
  let s' := native (snd (run program w)) in
  exists k,
    Native.issued s' = (Native.issued (native w) ++ ticks c k)%list /\
    Native.signatureCounter s' = Nat.iter k Native.advance c /\
    sublist (signature_counters rs) (ticks c k) /\
    (forallb is_signature_invocation program = true ->
     signature_counters rs = ticks c k /\ k = successes rs).
Proof.
  revert w. induction program as [|i program IH]; intros w Hp; cbv zeta.
  - exists 0. cbn. rewrite app_nil_r. repeat split. constructor.
  - cbn [forallb] in Hp. apply andb_true_iff in Hp. destruct Hp as [Hi Hp].
    destruct (invoke_counts i w Hi) as (k1 & I1 & C1 & S1 & E1).
    cbn [run]. destruct (invoke i w) as [r w1]. cbn [fst snd] in *.
    destruct (IH w1 Hp) as (k2 & I2 & C2 & S2 & E2). cbv zeta in *.
    destruct (run program w1) as [rs w2]. cbn [fst snd] in *.
    rewrite C1 in I2, C2, S2, E2. rewrite I1 in I2.
    exists (k1 + k2). rewrite I2, C2, ticks_app, iter_advance_add, app_assoc.
    split; [reflexivity|]. split; [reflexivity|].
    rewrite signature_counters_cons, successes_cons. split.
    + apply sublist_app; assumption.
    + cbn [forallb]. intros H. apply andb_true_iff in H. destruct H as [Hs1 Hs2].
      destruct (E1 Hs1) as [A1 B1]. destruct (E2 Hs2) as [A2 B2].
      rewrite A1, A2. split; [reflexivity|].
      rewrite successes_cons in B1.
      change (successes (@nil (Outcome JsValue))) with 0 in B1. lia.
Qed.

(** While the 64-bit counter does not wrap, it counts. *)
Lemma ticks_in_range (c : N) (k : nat) :
  (c + N.of_nat k < Native.uint64_modulus)%N ->
  ticks c k = counters_from c k /\
  Nat.iter k Native.advance c = (c + N.of_nat k)%N.
Proof.
  revert c. induction k as [|k IH]; intros c H.
  - simpl. rewrite N.add_0_r. split; reflexivity.
  - assert (Ha : Native.advance c = (c + 1)%N).
    { unfold Native.advance. apply N.mod_small. lia. }
    destruct (IH (c + 1)%N) as [T I]; [lia|].
    rewrite Nat.iter_succ_r. cbn [ticks counters_from]. rewrite Ha, T, I.
    split; [reflexivity|lia].
Qed.

Lemma counters_from_above (c x : N) (k : nat) :
  In x (counters_from c k) -> (c <= x)%N.
Proof.
  revert c. induction k as [|k IH]; intros c; simpl; [tauto|].
  intros [<-|H]; [lia|]. apply IH in H. lia.
Qed.

Lemma counters_from_NoDup (c : N) (k : nat) : List.NoDup (counters_from c k).
Proof.
  revert c. induction k as [|k IH]; intros c; simpl; constructor.
  - intros H. apply counters_from_above in H. lia.
  - apply IH.
Qed.

(** C1, as the engine counts.  Over a program of calls none of which starts
    or ends an activation, and as long as the 64-bit counter does not wrap:
    the counter ends at its initial value plus the number of signatures that
    the engine produced, those of [requestSignature], [requestGetSignature]
    and [offlineSignature] and those that sign a vault unlock, a password
    validation or a resynchronization handshake; these signatures were made
    under the consecutive counter values from the initial one on, no value
    twice, and none that an earlier signature of the activation used; every
    signature header handed out carries one of these values, in order; and
    when the program consists of the three signature operations only, the
    headers carry exactly these values and their number is the number of
    fulfilled calls. *)
Theorem counter_counts_signatures (program : list Invocation)
    (w : World Native.Session) :
  forallb within_activation program = true ->
  let c := Native.signatureCounter (native w) in
  let rs := fst (run program w) in
  let s' := native (snd (run program w)) in
  let new := issued_during program w in
  (c + N.of_nat (length new) < Native.uint64_modulus)%N ->
  Native.issued s' = (Native.issued (native w) ++ new)%list /\
  Native.signatureCounter s' = (c + N.of_nat (length new))%N /\
  new = counters_from c (length new) /\
  List.NoDup new /\
  (List.NoDup (Native.issued (native w)) ->
   (forall x, In x (Native.issued (native w)) -> (x < c)%N) ->
   List.NoDup (Native.issued s')) /\
  sublist (signature_counters rs) new /\
  (forallb is_signature_invocation program = true ->
   signature_counters rs = new /\ length new = successes rs).
Proof.
  intros Hp c rs s' new. subst c rs s' new. unfold issued_during.
  destruct (run_counts program w Hp) as (k & I & C & S & E). cbv zeta in *.
  rewrite I, drop_app_length, length_ticks. intros Hrange.
  destruct (ticks_in_range _ k Hrange) as [T HN]. rewrite T in *. rewrite HN in C.
  split; [reflexivity|]. split; [exact C|]. split; [reflexivity|].
  split; [apply counters_from_NoDup|]. split; [|split; [exact S|]].
  - intros Hnd Hlt. apply NoDup_ListNoDup. apply NoDup_app. split; [|split].
    + apply NoDup_ListNoDup. exact Hnd.
    + intros x Hx Hy. apply list_elem_of_In in Hx, Hy.
      apply Hlt in Hx. apply counters_from_above in Hy. lia.
    + apply NoDup_ListNoDup. apply counters_from_NoDup.
  - intros Hs. destruct (E Hs) as [A B]. split; [exact A|exact B].
Qed.

(** On an activation committed with possession and password: a signed
    request, a vault unlock, a request refused for a wrong password and an
    offline signature.  Three signatures are made, under 0, 1 and 2, two of
    them handed out as headers. *)
Lemma counter_counts_signatures_witness :
  let w := activated with_password [] [Native.Answer false "KEY"] [] in
  let program :=
    [Authorized (RequestSignature "POST" "/pa/signature/validate" null) with_password;
     Authorized (FetchEncryptionKey 1) with_password;
     Authorized (RequestSignature "POST" "/pa/signature/validate" null) wrong_pin;
     Authorized (OfflineSignature "/operation/authorize" "bm9uY2U=" null) with_password] in
  issued_during program w = [0; 1; 2]%N /\
  signature_counters (fst (run program w)) = [0; 2]%N /\
  Native.signatureCounter (native (snd (run program w))) =
    (Native.signatureCounter (native w) + N.of_nat (length (issued_during program w)))%N /\
  List.NoDup (issued_during program w) /\
  sublist (signature_counters (fst (run program w))) (issued_during program w).
Proof.
  intros w program.
  assert (H1 : forallb within_activation program = true) by (vm_compute; reflexivity).
  assert (H2 : (Native.signatureCounter (native w) +
                N.of_nat (length (issued_during program w)) < Native.uint64_modulus)%N)
    by (vm_compute; reflexivity).
  destruct (counter_counts_signatures program w H1 H2) as (_ & C & _ & D & _ & S & _).
  split; [vm_compute; reflexivity|]. split; [vm_compute; reflexivity|].
  split; [exact C|]. split; [exact D|exact S].
Defined.

(** C1 as stated fails.  On a Valid activation whose counter is 0, two
    requests are signed with a vault unlock between them: the two signature
    operations are fulfilled, under the counter values 0 and 2, and the
    counter ends at 3, not at 2.  And the counter is a 64-bit one: from its
    last value a fulfilled signature takes it to 0. *)
Lemma counter_outruns_signature_operations :
  let w := activated with_password [] [Native.Answer false "KEY"] [] in
  let sign := Authorized (RequestSignature "POST" "/pa/signature/validate" null)
                with_password in
  let program := [sign; Authorized (FetchEncryptionKey 1) with_password; sign] in
  let last := counting_from 18446744073709551615 w in
  (Native.status (native w) = Native.Valid /\
   Native.signatureCounter (native w) = 0%N /\
   successes (fst (run program w)) = 3 /\
   signature_counters (fst (run program w)) = [0; 2]%N /\
   Native.signatureCounter (native (snd (run program w))) = 3%N /\
   Native.signatureCounter (native (snd (run program w))) <>
     (Native.signatureCounter (native w) + 2)%N) /\
  (Native.status (native last) = Native.Valid /\
   signature_counters (fst (run [sign] last)) = [18446744073709551615%N] /\
   Native.signatureCounter (native (snd (run [sign] last))) = 0%N /\
   Native.signatureCounter (native (snd (run [sign] last))) <>
     (Native.signatureCounter (native last) + 1)%N).
Proof.
  vm_compute. repeat split; discriminate.
Qed.

(** *** Recovery from a lagging counter *)

Lemma phase_run_app (p : Phase) (l1 l2 : list (Native.Request * Native.Reply)) :
  phase_run p (l1 ++ l2) =
  match phase_run p l1 with
  | Some p1 => phase_run p1 l2
  | None => None
  end.
Proof.
  revert p. induction l1 as [|x l1 IH]; intros p; simpl; [reflexivity|].
  destruct (phase_step p x); [apply IH|reflexivity].
Qed.

Lemma Local_ret {A : Type} (a : A) : Local (Native.ret a).
Proof. intros s. repeat split. Qed.

Lemma Local_modify (h : Native.Session -> Native.Session) :
  offline h -> Local (Native.modify h).
Proof. intros H s. destruct (H s) as [W R]. repeat split; assumption. Qed.

Lemma Local_reject {A : Type} (kind : ErrorKind) :
  kind <> CounterDesynchronized -> Local (@Native.reject A kind).
Proof. intros H s. repeat split. simpl. destruct kind; congruence. Qed.

Lemma Local_bind {A B : Type} (f : Native.M A) (g : A -> Native.M B) :
  Local f -> (forall a, Local (g a)) -> Local (Native.bind f g).
Proof.
  intros Hf Hg s. unfold Native.bind.
  destruct (Hf s) as (W & R & D). destruct (f s) as [[a|e] s1]; simpl in *.
  - destruct (Hg a s1) as (W2 & R2 & D2). repeat split; congruence.
  - repeat split; assumption.
Qed.

Lemma Local_inspect {A B : Type} (f : Native.M A) (k : Outcome A -> Native.M B) :
  Local f -> (forall r, Local (k r)) -> Local (Native.inspect f k).
Proof.
  intros Hf Hk s. unfold Native.inspect.
  destruct (Hf s) as (W & R & D). destruct (f s) as [r s1]; simpl in *.
  destruct (Hk r s1) as (W2 & R2 & D2). repeat split; congruence.
Qed.

Lemma Local_storage_set (k v : string) : Local (Native.storage_set k v).
Proof.
  intros s. unfold Native.storage_set, Native.reject.
  destruct (Native.faults s) as [|[|] rest]; repeat split.
Qed.

Lemma Local_storage_remove (k : string) : Local (Native.storage_remove k).
Proof.
  intros s. unfold Native.storage_remove, Native.reject.
  destruct (Native.faults s) as [|[|] rest]; repeat split.
Qed.

Lemma Local_issue : Local Native.issue.
Proof. intros s. repeat split. Qed.

Lemma Local_rollback (undo : list (string * option string)) :
  Local (Native.rollback undo).
Proof.
  induction undo as [|[k old] undo IH]; simpl; [apply Local_ret|].
  apply Local_bind; [|intros _; exact IH].
  destruct old; [apply Local_storage_set|apply Local_storage_remove].
Qed.

Lemma offline_abandon :
  offline (fun s => Native.set_pending None (Native.clear_activation s)).
Proof. intros s. split; reflexivity. Qed.

Lemma Local_persist (writes : list (string * string))
    (undo : list (string * option string)) :
  Local (Native.persist writes undo).
Proof.
  revert undo. induction writes as [|[k v] writes IH]; intros undo; simpl;
    [apply Local_ret|].
  apply Local_bind; [intros s; repeat split|intros old].
  apply Local_inspect; [apply Local_storage_set|intros [u|e]]; [apply IH|].
  apply Local_inspect; [apply Local_rollback|intros [u|e']].
  - apply Local_reject. discriminate.
  - apply Local_bind; [apply Local_modify, offline_abandon|intros _].
    apply Local_reject. discriminate.
Qed.

Lemma Wired_local {A : Type} (f : Native.M A) : Local f -> Wired f.
Proof.
  intros H s. destruct (H s) as (W & R & D).
  exists [], (phase_of (Native.recovered s)). rewrite app_nil_r.
  split; [exact W|]. split; [reflexivity|].
  unfold settles. rewrite D, R. reflexivity.
Qed.

Lemma Wired_ret {A : Type} (a : A) : Wired (Native.ret a).
Proof. apply Wired_local, Local_ret. Qed.

Lemma Wired_read {A : Type} (f : Native.Session -> A) : Wired (Native.read f).
Proof. apply Wired_local. intros s. repeat split. Qed.

Lemma Wired_modify (h : Native.Session -> Native.Session) :
  offline h -> Wired (Native.modify h).
Proof. intros H. apply Wired_local, Local_modify, H. Qed.

Lemma Wired_reject {A : Type} (kind : ErrorKind) :
  kind <> CounterDesynchronized -> Wired (@Native.reject A kind).
Proof. intros H. apply Wired_local, Local_reject, H. Qed.

Lemma Wired_raise {A : Type} (e : Thrown) :
  desynchronized (@Rejected A e) = false -> Wired (@Native.raise A e).
Proof. intros H. apply Wired_local. intros s. repeat split. exact H. Qed.

Lemma Wired_bind {A B : Type} (f : Native.M A) (g : A -> Native.M B) :
  Wired f -> (forall a, Wired (g a)) -> Wired (Native.bind f g).
Proof.
  intros Hf Hg s. unfold Native.bind.
  destruct (Hf s) as (t1 & p1 & W1 & P1 & S1).
  destruct (f s) as [[a|e] s1]; simpl in *.
  - unfold settles in S1. simpl in S1. subst p1.
    destruct (Hg a s1) as (t2 & p2 & W2 & P2 & S2).
    exists (t1 ++ t2)%list, p2. rewrite W2, W1, app_assoc, phase_run_app, P1.
    repeat split; assumption.
  - exists t1, p1. repeat split; assumption.
Qed.

(** The outcome of a step on the wire is looked at: what is made of a
    rejection with [CounterDesynchronized] stays off the wire and is such a
    rejection again. *)
Lemma Wired_inspect {A B : Type} (f : Native.M A) (k : Outcome A -> Native.M B) :
  Wired f ->
  (forall r, desynchronized r = false -> Wired (k r)) ->
  (forall r s, desynchronized r = true ->
     Native.wire (snd (k r s)) = Native.wire s /\ desynchronized (fst (k r s)) = true) ->
  Wired (Native.inspect f k).
Proof.
  intros Hf Hk Hd s. unfold Native.inspect.
  destruct (Hf s) as (t1 & p1 & W1 & P1 & S1).
  destruct (f s) as [r s1]; simpl in *. unfold settles in S1.
  destruct (desynchronized r) eqn:D.
  - destruct (Hd r s1 D) as [W2 D2]. exists t1, p1.
    rewrite W2. split; [exact W1|]. split; [exact P1|].
    unfold settles. rewrite D2. exact S1.
  - subst p1. destruct (Hk r D s1) as (t2 & p2 & W2 & P2 & S2).
    exists (t1 ++ t2)%list, p2. rewrite W2, W1, app_assoc, phase_run_app, P1.
    repeat split; assumption.
Qed.

Lemma Wired_inspect_local {A B : Type} (f : Native.M A) (k : Outcome A -> Native.M B) :
  Local f -> (forall r, Wired (k r)) -> Wired (Native.inspect f k).
Proof.
  intros Hf Hk s. unfold Native.inspect.
  destruct (Hf s) as (W1 & R1 & D1).
  destruct (f s) as [r s1]; simpl in *.
  destruct (Hk r s1) as (t2 & p2 & W2 & P2 & S2).
  exists t2, p2. rewrite W2, W1, <- R1. repeat split; assumption.
Qed.

(** One exchange with the server: the round trip, and the handshake when the
    answer reports a lagging counter and the call has its recovery left. *)
Lemma Wired_exchange (url : string) : Wired (Native.exchange url).
Proof.
  intros s. unfold Native.exchange, Native.bind, Native.send, Native.read,
    Native.modify, Native.issue, Native.reject, Native.ret, settles.
  destruct (Native.replies s) as [|[lagging body|code|] rest]; cbn.
  - exists [(Native.Endpoint url, Native.Unreachable)], (phase_of (Native.recovered s)).
    repeat split. destruct (Native.recovered s); reflexivity.
  - destruct (Native.recovered s) eqn:R; destruct lagging; cbn; rewrite ?R.
    + exists [(Native.Endpoint url, Native.Answer true body)], Recovered.
      repeat split.
    + exists [(Native.Endpoint url, Native.Answer false body)], Recovered.
      repeat split.
    + destruct rest as [|[l2 b2|code|] rest]; cbn.
      * exists [(Native.Endpoint url, Native.Answer true body);
                (Native.Resynchronize, Native.Unreachable)], Failed.
        rewrite <- app_assoc. repeat split.
      * exists [(Native.Endpoint url, Native.Answer true body);
                (Native.Resynchronize, Native.Answer l2 b2)], Recovered.
        rewrite <- app_assoc. repeat split.
      * exists [(Native.Endpoint url, Native.Answer true body);
                (Native.Resynchronize, Native.Refused code)], Failed.
        rewrite <- app_assoc. repeat split.
      * exists [(Native.Endpoint url, Native.Answer true body);
                (Native.Resynchronize, Native.Unreachable)], Failed.
        rewrite <- app_assoc. repeat split.
    + exists [(Native.Endpoint url, Native.Answer false body)], Fresh.
      repeat split.
  - exists [(Native.Endpoint url, Native.Refused code)], (phase_of (Native.recovered s)).
    repeat split. destruct (Native.recovered s); reflexivity.
  - exists [(Native.Endpoint url, Native.Unreachable)], (phase_of (Native.recovered s)).
    repeat split. destruct (Native.recovered s); reflexivity.
Qed.

Lemma offline_wrong_password : offline Native.wrong_password.
Proof.
  intros s. unfold Native.wrong_password.
  destruct (Nat.leb (Native.maxFailedAttempts s) (S (Native.failedAttempts s)));
    split; reflexivity.
Qed.

(** The structure of a method of the engine, taken apart along the wire. *)
Ltac wiring :=
  repeat first
    [ apply Wired_ret
    | apply Wired_read
    | apply Wired_exchange
    | apply Wired_reject; discriminate
    | apply Wired_local, Local_issue
    | apply Wired_local, Local_storage_set
    | apply Wired_local, Local_storage_remove
    | apply Wired_local, Local_persist
    | apply Wired_modify; first [apply offline_wrong_password | intros ?; split; reflexivity]
    | apply Wired_bind; [|intros ?]
    | apply Wired_inspect_local; [apply Local_storage_remove|intros ?]
    | match goal with
      | |- Wired (match ?x with _ => _ end) => destruct x
      | |- Wired (if ?b then _ else _) => destruct b
      end ].

Lemma Wired_computeSignature (a : PowerAuthAuthentication) (method uriId : string)
    (nonce : Nullable string) (data : JsValue) :
  Wired (Native.computeSignature a method uriId nonce data).
Proof. unfold Native.computeSignature. wiring. Qed.

(** The remote removal looks at the outcome of its exchange: a rejection
    with [CounterDesynchronized] is none of the codes that mean already
    removed, and is passed on. *)
Lemma Wired_removal (a : PowerAuthAuthentication) :
  Wired (Native.removeActivationWithAuthentication a).
Proof.
  unfold Native.removeActivationWithAuthentication, Native.configured_only.
  apply Wired_bind; [apply Wired_read|intros c].
  destruct c; [|apply Wired_reject; discriminate].
  apply Wired_bind; [apply Wired_read|intros st].
  destruct st; try (apply Wired_reject; discriminate);
    (apply Wired_bind; [apply Wired_computeSignature|intros _];
     apply Wired_inspect; [apply Wired_exchange| |]).
  all: try (intros [body|e] D; [wiring|];
            apply Wired_bind; [apply Wired_read|intros gone];
            destruct gone; [wiring|apply Wired_raise; exact D]).
  all: intros [body|e] s D; [discriminate D|];
    destruct e as [kind|original message]; [|discriminate D];
    destruct kind; try discriminate D; split; reflexivity.
Qed.

(** Every method of the engine is wired. *)
Lemma Wired_dispatch (name : string) (args : list JsValue) :
  Wired (Native.dispatch name args).
Proof.
  dispatching;
    first [ apply Wired_removal
          | unfold Native.configure, Native.deconfigure, Native.status_is,
              Native.fetchActivationStatus, Native.createActivation,
              Native.commitActivation, Native.activationIdentifier,
              Native.activationFingerprint, Native.removeActivationLocal,
              Native.verifyServerSignedData, Native.changePassword,
              Native.unsafeChangePassword, Native.addBiometryFactor,
              Native.hasBiometryFactor, Native.removeBiometryFactor,
              Native.getBiometryInfo, Native.validatePassword,
              Native.hasActivationRecoveryData, Native.activationRecoveryData,
              Native.confirmRecoveryCode, Native.validate, Native.unlockVault,
              Native.signing, Native.configured_only;
            repeat (wiring; try apply Wired_computeSignature) ].
Qed.

Lemma handshakes_cons (x : Native.Request * Native.Reply)
    (l : list (Native.Request * Native.Reply)) :
  handshakes (x :: l) = (if is_handshake x then 1 else 0) + handshakes l.
Proof.
  unfold handshakes. rewrite filter_cons.
  destruct (decide (is_handshake x = true)) as [E|E].
  - rewrite E. reflexivity.
  - destruct (is_handshake x); [congruence|reflexivity].
Qed.

Lemma handshakes_app (l1 l2 : list (Native.Request * Native.Reply)) :
  handshakes (l1 ++ l2) = handshakes l1 + handshakes l2.
Proof. unfold handshakes. rewrite filter_app, length_app. reflexivity. Qed.

Lemma quiet_handshakes (l : list (Native.Request * Native.Reply)) :
  quiet l = true -> handshakes l = 0.
Proof.
  induction l as [|x l IH]; [reflexivity|]. cbn [quiet forallb].
  intros H. apply andb_true_iff in H. destruct H as [Hx Hl].
  apply andb_true_iff in Hx. destruct Hx as [Hx _].
  rewrite handshakes_cons, (IH Hl). destruct (is_handshake x); [discriminate|reflexivity].
Qed.

Lemma phase_run_Failed (trips : list (Native.Request * Native.Reply)) (p : Phase) :
  phase_run Failed trips = Some p -> trips = [] /\ p = Failed.
Proof.
  destruct trips as [|[q r] trips]; simpl.
  - intros H. injection H as <-. split; reflexivity.
  - discriminate.
Qed.

Lemma phase_run_Recovered (trips : list (Native.Request * Native.Reply)) (p : Phase) :
  phase_run Recovered trips = Some p -> handshakes trips = 0 /\ p = Recovered.
Proof.
  induction trips as [|[q r] trips IH]; simpl.
  - intros H. injection H as <-. split; reflexivity.
  - destruct q; [|discriminate]. intros H. destruct (IH H) as [H0 ->].
    rewrite handshakes_cons, H0. split; reflexivity.
Qed.

(** What a run of the phases from [Fresh] says about the round trips. *)
Lemma phase_run_Fresh (trips : list (Native.Request * Native.Reply)) (p : Phase) :
  phase_run Fresh trips = Some p ->
  match p with
  | Fresh => quiet trips = true
  | Lagged => True
  | Recovered =>
      exists before url body h after,
        trips = (before ++ (Native.Endpoint url, Native.Answer true body) ::
                           (Native.Resynchronize, h) :: after)%list /\
        quiet before = true /\ handshakes after = 0 /\ is_answer h = true
  | Failed =>
      exists before url body h,
        trips = (before ++ [(Native.Endpoint url, Native.Answer true body);
                            (Native.Resynchronize, h)])%list /\
        quiet before = true /\ is_answer h = false
  end.
Proof.
  induction trips as [|[q r] trips IH]; simpl.
  - intros H. injection H as <-. reflexivity.
  - destruct q as [url|]; [|discriminate].
    assert (Hquiet : forall r', (forall body, r' <> Native.Answer true body) ->
                       phase_step Fresh (Native.Endpoint url, r') = Some Fresh /\
                       negb (is_handshake (Native.Endpoint url, r')) &&
                       negb (is_lagging (Native.Endpoint url, r')) = true).
    { intros r' Hr. destruct r' as [[|] body|code|]; try (split; reflexivity).
      exfalso. exact (Hr body eq_refl). }
    destruct r as [[|] body|code|].
    + destruct trips as [|[q2 h] trips]; simpl.
      * intros H. injection H as <-. exact I.
      * destruct q2; [discriminate|].
        destruct h as [l2 b2|code|]; intros H.
        -- destruct (phase_run_Recovered _ _ H) as [H0 ->].
           exists [], url, body, (Native.Answer l2 b2), trips. repeat split. exact H0.
        -- destruct (phase_run_Failed _ _ H) as [-> ->].
           exists [], url, body, (Native.Refused code). repeat split.
        -- destruct (phase_run_Failed _ _ H) as [-> ->].
           exists [], url, body, Native.Unreachable. repeat split.
    + intros H. specialize (IH H). destruct p; try exact I.
      * exact IH.
      * destruct IH as (before & u & b & h & after & -> & Q & H0 & Ha).
        exists ((Native.Endpoint url, Native.Answer false body) :: before), u, b, h, after.
        repeat split; assumption.
      * destruct IH as (before & u & b & h & -> & Q & Ha).
        exists ((Native.Endpoint url, Native.Answer false body) :: before), u, b, h.
        repeat split; assumption.
    + intros H. specialize (IH H). destruct p; try exact I.
      * exact IH.
      * destruct IH as (before & u & b & h & after & -> & Q & H0 & Ha).
        exists ((Native.Endpoint url, Native.Refused code) :: before), u, b, h, after.
        repeat split; assumption.
      * destruct IH as (before & u & b & h & -> & Q & Ha).
        exists ((Native.Endpoint url, Native.Refused code) :: before), u, b, h.
        repeat split; assumption.
    + intros H. specialize (IH H). destruct p; try exact I.
      * exact IH.
      * destruct IH as (before & u & b & h & after & -> & Q & H0 & Ha).
        exists ((Native.Endpoint url, Native.Unreachable) :: before), u, b, h, after.
        repeat split; assumption.
      * destruct IH as (before & u & b & h & -> & Q & Ha).
        exists ((Native.Endpoint url, Native.Unreachable) :: before), u, b, h.
        repeat split; assumption.
Qed.

Lemma recovers_once_settled {A : Type} (trips : list (Native.Request * Native.Reply))
    (p : Phase) (r : Outcome A) (recovered : bool) :
  phase_run Fresh trips = Some p ->
  (if desynchronized r then p = Failed else p = phase_of recovered) ->
  recovers_once trips r.
Proof.
  intros Hrun Hp. pose proof (phase_run_Fresh trips p Hrun) as Hn.
  destruct (desynchronized r) eqn:D.
  - subst p. destruct Hn as (before & url & body & h & -> & Q & Ha). split.
    + rewrite handshakes_app, (quiet_handshakes _ Q), !handshakes_cons.
      change (handshakes []) with 0. simpl. lia.
    + right. exists before, url, body, h, []. rewrite Ha. repeat split; assumption.
  - destruct recovered; simpl in Hp; subst p.
    + destruct Hn as (before & url & body & h & after & -> & Q & H0 & Ha). split.
      * rewrite handshakes_app, (quiet_handshakes _ Q), !handshakes_cons, H0. simpl. lia.
      * right. exists before, url, body, h, after. rewrite Ha. repeat split; assumption.
    + split; [rewrite (quiet_handshakes _ Hn); lia|]. left. split; [exact Hn|exact D].
Qed.

(** One call of a native method. *)
Lemma call_recovers_once (name : string) (args : list JsValue) (s : Native.Session) :
  Native.wire (snd (Native.call name args s)) =
    (Native.wire s ++ round_trips (Native.call name args) s)%list /\
  recovers_once (round_trips (Native.call name args) s) (fst (Native.call name args s)).
Proof.
  unfold round_trips, Native.call.
  destruct (Wired_dispatch name args (Native.set_recovered false s))
    as (trips & p & W & P & S).
  destruct (Native.dispatch name args (Native.set_recovered false s)) as [r s1].
  cbn [fst snd Native.wire Native.recovered Native.set_recovered] in *.
  rewrite W, drop_app_length. split; [reflexivity|].
  exact (recovers_once_settled trips p r (Native.recovered s1) P S).
Qed.

Lemma recovers_once_silent {A : Type} (r : Outcome A) :
  desynchronized r = false -> recovers_once [] r.
Proof.
  intros D. split; [unfold handshakes; simpl; lia|]. left. split; [reflexivity|exact D].
Qed.

Lemma recovers_once_outcome {A B : Type} (trips : list (Native.Request * Native.Reply))
    (r : Outcome A) (r' : Outcome B) :
  desynchronized r' = desynchronized r ->
  recovers_once trips r -> recovers_once trips r'.
Proof. unfold recovers_once. intros ->. tauto. Qed.

Lemma surfaced_desynchronized (c : AuthorizedCall) (r : Outcome JsValue) :
  desynchronized (surfaced c r) = desynchronized r.
Proof. destruct c, r; reflexivity. Qed.

Lemma authenticate_offline (a : PowerAuthAuthentication) (reusable : option bool)
    (s : Native.Session) :
  desynchronized (fst (Native.authenticate a reusable s)) = false.
Proof.
  unfold Native.authenticate, Native.unlock, Native.reject.
  destruct (useBiometry a && negb (Native.has_value (biometryKey a))); [|reflexivity].
  destruct (Native.gate s) as [|[| |] rest];
    try destruct (Native.storage s !! "biometryKey"); reflexivity.
Qed.

Lemma facade_call_recovers_once (name : string) (args : list JsValue)
    (w : World Native.Session) :
  recovers_once (facade_round_trips (call name args) w) (fst (call name args w)).
Proof.
  unfold facade_round_trips. rewrite call_run. cbn [fst snd native].
  exact (proj2 (call_recovers_once name args (native w))).
Qed.

(** C8.  Recovery from a lagging counter is attempted at most once per
    call.  In every call of a native method, whatever its name and its
    arguments, and in every call of a method of the facade outside a grouped
    scope, at most one resynchronization handshake is made.  Either no
    answer reports a lagging counter: then no handshake is made and the call
    is not rejected with CounterDesynchronized.  Or the first answer that
    reports a lagging counter is followed at once by the one handshake: when
    the handshake is answered, the call goes on, makes no other handshake
    whatever the later answers report, and is not rejected with
    CounterDesynchronized; when it is not, the call makes no other round trip
    and is rejected with CounterDesynchronized. *)
Theorem recovery_at_most_once (name : string) (args : list JsValue)
    (s : Native.Session) (i : Invocation) (w : World Native.Session) :
  recovers_once (round_trips (Native.call name args) s)
    (fst (Native.call name args s)) /\
  (is_grouped i = false ->
   recovers_once (facade_round_trips (invoke i) w) (fst (invoke i w))).
Proof.
  split; [exact (proj2 (call_recovers_once name args s))|].
  intros Hi. destruct i as [p|c a|arguments| |a cs]; try discriminate Hi; cbn [invoke].
  - destruct (plain_named p) as (args' & E).
    unfold facade_round_trips. rewrite E. apply facade_call_recovers_once.
  - unfold facade_round_trips. rewrite authorized_run.
    change (@wrapper_authenticate Native.Session Native.bridge) with Native.authenticate.
    change (@wrapper_call Native.Session Native.bridge) with Native.call.
    destruct (authenticate_frame a None (native w)) as (_ & _ & _ & _ & _ & _ & W & _).
    pose proof (authenticate_offline a None (native w)) as D.
    destruct (Native.authenticate a None (native w)) as [[prepared|e] s1];
      cbn [fst snd native] in *.
    + rewrite <- W.
      apply (recovers_once_outcome _
               (fst (Native.call (fst (native_request c prepared))
                       (snd (native_request c prepared)) s1)));
        [apply surfaced_desynchronized|].
      exact (proj2 (call_recovers_once _ _ s1)).
    + rewrite W, drop_all. apply recovers_once_silent. exact D.
  - unfold facade_round_trips, configure.
    destruct (configure_values arguments) as [[[c cc] bc] kc].
    unfold await, update_self; simpl. rewrite call_run. cbn [fst snd native].
    exact (proj2 (call_recovers_once _ _ (native w))).
  - unfold facade_round_trips, deconfigure, await, update_self; simpl.
    rewrite call_run. cbn [fst snd native].
    exact (proj2 (call_recovers_once _ _ (native w))).
Qed.

(** The status of an activation that still runs protocol V2 is fetched,
    every answer of the server reporting a lagging counter: the handshake is
    made once, after the first answer, and the two round trips of the upgrade
    follow without another one.  And the same call when the handshake is
    refused. *)
Lemma recovery_at_most_once_witness :
  let answers :=
    [Native.Answer true "ACTIVE"; Native.Answer true "synchronized";
     Native.Answer true "started"; Native.Answer true "committed"] in
  let w := legacy (activated with_password [] answers []) in
  let refused :=
    legacy (activated with_password []
              [Native.Answer true "ACTIVE"; Native.Refused 500;
               Native.Answer false "started"] []) in
  (recovers_once (facade_round_trips fetchActivationStatus w)
     (fst (fetchActivationStatus w)) /\
   facade_round_trips fetchActivationStatus w =
     [(Native.Endpoint "/pa/activation/status", Native.Answer true "ACTIVE");
      (Native.Resynchronize, Native.Answer true "synchronized");
      (Native.Endpoint "/pa/upgrade/start", Native.Answer true "started");
      (Native.Endpoint "/pa/upgrade/commit", Native.Answer true "committed")] /\
   fst (fetchActivationStatus w) = Fulfilled (JsString "ACTIVE")) /\
  (recovers_once (facade_round_trips fetchActivationStatus refused)
     (fst (fetchActivationStatus refused)) /\
   facade_round_trips fetchActivationStatus refused =
     [(Native.Endpoint "/pa/activation/status", Native.Answer true "ACTIVE");
      (Native.Resynchronize, Native.Refused 500)] /\
   fst (fetchActivationStatus refused) =
     Rejected (NativeRejection CounterDesynchronized)).
Proof.
  assert (H : forall w0 : World Native.Session,
             recovers_once (facade_round_trips fetchActivationStatus w0)
               (fst (fetchActivationStatus w0))).
  { intros w0.
    exact (proj2 (recovery_at_most_once EmptyString [] (native w0)
                    (Plain FetchActivationStatus) w0) eq_refl). }
  intros answers w refused. split.
  - split; [apply H|split; vm_compute; reflexivity].
  - split; [apply H|split; vm_compute; reflexivity].
Defined.

End Engine.

(** * The compiled methods against their embedding *)

Section CompiledMethods.
Context {St : Type} {B : Bridge St}.

Lemma step_S (fuel : nat) (body : Body (St := St)) (g : Generator) (op : Op) (w : World St) :
  step (S fuel) body g op w = turn (step fuel body) body g op w.
Proof. reflexivity. Qed.

Lemma awaiter_loop_S (fuel : nat) (body : Body (St := St)) (g : Generator) (op : Op)
    (w : World St) :
  awaiter_loop (S fuel) body g op w =
  on_result (awaiter_loop fuel body) (step (S fuel) body g op w).
Proof. reflexivity. Qed.

#[local] Arguments step : simpl never.
#[local] Arguments awaiter_loop : simpl never.
#[local] Arguments authenticate : simpl never.
#[local] Arguments call : simpl never.
#[local] Arguments emit : simpl never.

Ltac turn_step := rewrite step_S; unfold turn at 1; cbn.
Ltac chain_step := rewrite awaiter_loop_S.
Ltac machine := repeat (first [turn_step | chain_step; turn_step | progress cbn]).

(** X1. [groupedBiometricAuthentication] as compiled, run by [__awaiter]
    over the state machine of [__generator] with its two entries of
    [_.trys], settles as the embedding with [try_catch] does and leaves the
    same world, for every bridge, callback and world, once the fuel covers
    its ten turns. *)
Theorem grouped_compiled (n : nat) (authentication : PowerAuthAuthentication)
    (groupedAuthenticationCalls : PowerAuthAuthentication -> Async St unit) (w : World St) :
  __awaiter (10 + n)
    (groupedBiometricAuthentication_body authentication groupedAuthenticationCalls) w =
  (settled_as (fun _ => IUndefined)
     (fst (groupedBiometricAuthentication authentication groupedAuthenticationCalls w)),
   snd (groupedBiometricAuthentication authentication groupedAuthenticationCalls w)).
Proof.
  unfold __awaiter, groupedBiometricAuthentication.
  change (10 + n) with (S (S (S (S (S (S (S (S (S (S n)))))))))).
  chain_step. turn_step.
  destruct (useBiometry authentication) eqn:Hb; cbn.
  - unfold try_catch, await, throw.
    destruct (authenticate authentication (Some true) w) as [[reusable|e] w1]; cbn.
    + turn_step. chain_step. turn_step. unfold await.
      destruct (emit (EvCallback reusable) w1) as [[u|e] w2] eqn:E.
      2: { unfold emit in E. discriminate E. }
      destruct (groupedAuthenticationCalls reusable w2) as [[u'|e] w3]; cbn.
      * machine. reflexivity.
      * machine. reflexivity.
    + machine. reflexivity.
  - machine. reflexivity.
Qed.

(** X2. Each of the eight methods that take an authentication object, as
    compiled (yield [authenticate], then the native call with [_.sent()];
    for [confirmRecoveryCode] a second yield and the wrapping object),
    settles as its embedding does and leaves the same world. *)
Theorem authorized_compiled (n : nat) (c : AuthorizedCall)
    (authentication : PowerAuthAuthentication) (w : World St) :
  __awaiter (6 + n) (authorized_body c authentication) w =
  (settled_as IValue (fst (authorized c authentication w)),
   snd (authorized c authentication w)).
Proof.
  unfold __awaiter.
  change (6 + n) with (S (S (S (S (S (S n)))))).
  chain_step. turn_step.
  destruct c; cbn;
    unfold requestSignature, requestGetSignature, offlineSignature, fetchEncryptionKey,
      signDataWithDevicePrivateKey, activationRecoveryData, confirmRecoveryCode,
      removeActivationWithAuthentication, await, resolve;
    (destruct (authenticate authentication None w) as [[prepared|e] w1]; cbn;
     [|machine; reflexivity]);
    turn_step; chain_step; turn_step;
    match goal with
    | |- context [call ?name ?args w1] =>
        destruct (call name args w1) as [[v|e] w2]; cbn; machine; reflexivity
    end.
Qed.

(** X3. [isConfigured] as compiled returns the promise of the native call,
    which [__awaiter] adopts: the method settles as that call does. *)
Theorem isConfigured_compiled (n : nat) (w : World St) :
  __awaiter (3 + n) isConfigured_body w =
  (settled_as IValue (fst (isConfigured w)), snd (isConfigured w)).
Proof.
  unfold __awaiter, isConfigured.
  change (3 + n) with (S (S (S n))).
  chain_step. turn_step.
  destruct (call "isConfigured" [] w) as [[v|e] w1]; cbn; machine; reflexivity.
Qed.

(** X4. An asynchronous method never throws to its caller: if the body
    throws in its first run and has no [try] entry in place, the promise
    that [__awaiter] returned is rejected with what was thrown, the effects
    made before the throw stay, and the body is not run again. *)
Theorem awaiter_rejects_on_throw (n : nat) (body : Body (St := St)) (w w' : World St)
    (e : Item) (g' : Generator) :
  body (TOp {| code := 0; payload := IUndefined |}) new_Generator w = (BThrow e, g', w') ->
  trys g' = [] ->
  __awaiter (3 + n) body w = (RejectedWith e, w').
Proof.
  intros Hbody Htrys. unfold __awaiter.
  change (3 + n) with (S (S (S n))).
  chain_step. turn_step. rewrite Hbody.
  turn_step. destruct (alive g') eqn:Ha; cbn; [|reflexivity].
  rewrite Htrys. cbn. turn_step. reflexivity.
Qed.

End CompiledMethods.

(** * Properties of the methods, for any bridge *)

Section Protocol.
Context {St : Type} {B : Bridge St}.

(** X5. The eight methods that take an authentication object follow one
    protocol.  [authenticate] is called first, without the reusable flag.
    If it rejects, the method rejects with the same error and no native call
    is made.  Otherwise exactly one native call follows, and the
    authentication object it carries is the one [authenticate] returned,
    not the one the caller passed; the outcome of that call is the
    outcome of the method ([confirmRecoveryCode] wraps a result into
    [{alreadyConfirmed}]).  The cached properties are not touched. *)
Theorem authorized_authenticates_first (c : AuthorizedCall)
    (authentication : PowerAuthAuthentication) (w : World St) :
  let answer := wrapper_authenticate authentication None (native w) in
  self (snd (authorized c authentication w)) = self w /\
  match fst answer with
  | Rejected e =>
      fst (authorized c authentication w) = Rejected e /\
      native (snd (authorized c authentication w)) = snd answer /\
      emitted (authorized c authentication) w = [EvAuthenticate authentication None]
  | Fulfilled prepared =>
      let request := native_request c prepared in
      let reply := wrapper_call (fst request) (snd request) (snd answer) in
      fst (authorized c authentication w) = surfaced c (fst reply) /\
      native (snd (authorized c authentication w)) = snd reply /\
      emitted (authorized c authentication) w =
        [EvAuthenticate authentication None; EvCall (fst request) (snd request)] /\
      head (carried_authentications (snd request)) = Some prepared
  end.
Proof.
  intros answer. subst answer. unfold emitted. rewrite authorized_run.
  destruct (wrapper_authenticate authentication None (native w)) as [[prepared|e] n];
    simpl.
  - rewrite drop_app_length. repeat split. destruct c; reflexivity.
  - rewrite drop_app_length. repeat split.
Qed.

(** X6. [requestGetSignature] never hands [undefined] parameters to the native
    side: omitted parameters and [null] give the same call, which carries
    [null]; any other parameters are passed on as they are. *)
Theorem requestGetSignature_params (authentication : PowerAuthAuthentication)
    (uriId : string) (params : JsValue) (w : World St) :
  requestGetSignature authentication uriId JsUndefined w =
    requestGetSignature authentication uriId JsNull w /\
  exists sent_params,
    sent_params <> JsUndefined /\
    (params = JsUndefined -> sent_params = JsNull) /\
    (params <> JsUndefined -> sent_params = params) /\
    emitted (requestGetSignature authentication uriId params) w =
      match fst (wrapper_authenticate authentication None (native w)) with
      | Rejected _ => [EvAuthenticate authentication None]
      | Fulfilled prepared =>
          [EvAuthenticate authentication None;
           EvCall "requestGetSignature"
             [JsAuthentication prepared; JsString uriId; sent_params]]
      end.
Proof.
  split; [reflexivity|].
  exists (match params with JsNull | JsUndefined => JsNull | _ => params end).
  split; [destruct params; discriminate|].
  split; [intros ->; reflexivity|].
  split; [destruct params; congruence|].
  unfold emitted.
  change (requestGetSignature authentication uriId params)
    with (authorized (RequestGetSignature uriId params) authentication).
  rewrite authorized_run.
  destruct (wrapper_authenticate authentication None (native w)) as [[prepared|e] n];
    simpl; apply drop_app_length.
Qed.

(** X7. [addBiometryFactor] hands the title and the description of the prompt
    to the native side on Android only: on any other platform two calls
    that differ in them are the same call, which carries the password
    alone. *)
Theorem addBiometryFactor_prompt_android_only (password title description : string)
    (w : World St) :
  Platform_OS <> "android" ->
  (forall title' description',
      addBiometryFactor password title description w =
      addBiometryFactor password title' description' w) /\
  emitted (addBiometryFactor password title description) w =
    [EvCall "addBiometryFactor" [JsString password]].
Proof.
  intros Hos. unfold addBiometryFactor, emitted.
  destruct (String.eqb_spec Platform_OS "android") as [E|_]; [contradiction|].
  split; [reflexivity|]. rewrite call_run. simpl. apply drop_app_length.
Qed.


(** X9. What [configure] caches is what it sends: the four cached properties
    hold, after the call and whatever its outcome, exactly the four
    arguments of the single native call it made; the instance identifier
    is kept. *)
Theorem configure_cache_mirrors_call (arguments : ConfigureArguments) (w : World St) :
  exists c cc bc kc,
    emitted (configure arguments) w =
      [EvCall "configure"
         [JsConfiguration c; JsClientConfiguration cc;
          JsBiometryConfiguration bc; JsKeychainConfiguration kc]] /\
    self (snd (configure arguments w)) =
      {| instanceId := instanceId (self w);
         configuration := value c;
         clientConfiguration := value cc;
         biometryConfiguration := value bc;
         keychainConfiguration := value kc |}.
Proof.
  unfold emitted, configure.
  destruct (configure_values arguments) as [[[c cc] bc] kc].
  exists c, cc, bc, kc.
  unfold await, update_self; simpl. rewrite call_run. simpl.
  rewrite drop_app_length. split; reflexivity.
Qed.

(** *** Sequences of calls *)

(** A chain of authorised calls does not write the cached properties. *)
Lemma chain_self (cs : list AuthorizedCall) (r : PowerAuthAuthentication) (w : World St) :
  self (snd (chain cs r w)) = self w.
Proof.
  revert w. induction cs as [|c cs IH]; intros w; simpl; [reflexivity|].
  unfold await. rewrite authorized_run.
  destruct (wrapper_authenticate r None (native w)) as [[prepared|e] n];
    simpl; [|reflexivity].
  destruct (surfaced c _); simpl; [rewrite IH|]; reflexivity.
Qed.

(** One call: what it appends to the trace, and what it leaves cached. *)
Lemma invoke_frame (i : Invocation) (w : World St) :
  exists evs,
    trace (snd (invoke i w)) = (trace w ++ evs)%list /\
    self (snd (invoke i w)) = cache_after [i] (self w) /\
    gate_unlocks evs = biometric_scopes [i].
Proof.
  destruct i as [p|c a|arguments| |a cs]; simpl.
  - destruct (plain_call p) as (name & args & ->). rewrite call_run. simpl.
    eexists. repeat split.
  - rewrite authorized_run.
    destruct (wrapper_authenticate a None (native w)) as [[prepared|e] n]; simpl;
      eexists; repeat split.
  - unfold configure, remembered.
    destruct (configure_values arguments) as [[[c cc] bc] kc].
    unfold await, update_self; simpl. rewrite call_run. simpl.
    eexists. repeat split.
  - unfold deconfigure, await, update_self; simpl. rewrite call_run. simpl.
    eexists. repeat split.
  - unfold await, resolve, groupedBiometricAuthentication.
    destruct (useBiometry a); simpl.
    + unfold try_catch, await, throw. rewrite authenticate_run.
      destruct (wrapper_authenticate a (Some true) (native w)) as [[r|e] n]; simpl.
      * unfold emit; simpl.
        set (w1 := Build_World (self w) n _).
        destruct (chain_plain cs r w1) as (evs & Ht & Hg & _).
        assert (Hself := chain_self cs r w1).
        destruct (chain cs r w1) as [[u|e] w2]; simpl in *;
          (exists (EvAuthenticate a (Some true) :: EvCallback r :: evs); split;
           [rewrite Ht; unfold w1; simpl; rewrite <- !app_assoc; reflexivity|];
           split; [exact Hself|];
           rewrite !gate_unlocks_cons, Hg; reflexivity).
      * eexists. repeat split.
    + exists []. rewrite app_nil_r. repeat split.
Qed.

Lemma run_cons (i : Invocation) (rest : list Invocation) (w : World St) :
  run (i :: rest) w =
  (fst (invoke i w) :: fst (run rest (snd (invoke i w))),
   snd (run rest (snd (invoke i w)))).
Proof.
  simpl. destruct (invoke i w) as [r w1]. simpl.
  destruct (run rest w1) as [rs w2]. reflexivity.
Qed.

Lemma cache_after_cons (i : Invocation) (rest : list Invocation) (this : PowerAuth) :
  cache_after (i :: rest) this = cache_after rest (cache_after [i] this).
Proof. destruct i; reflexivity. Qed.

Lemma run_self (program : list Invocation) (w : World St) :
  self (snd (run program w)) = cache_after program (self w).
Proof.
  revert w. induction program as [|i rest IH]; intros w; [reflexivity|].
  rewrite run_cons, cache_after_cons. simpl. rewrite IH.
  destruct (invoke_frame i w) as (evs & _ & -> & _). reflexivity.
Qed.

(** X10. The cached properties after any sequence of calls are those of the
    last [configure] or [deconfigure] in it, computed from its arguments
    alone: no other method of the class writes them, and no answer of the
    native side, fulfilled or rejected, has any influence on them: two runs
    of the program from the same cached properties end with the same ones,
    whatever the native states and the traces were. *)
Theorem cache_follows_last_configuration (program : list Invocation) (w : World St) :
  self (snd (run program w)) = cache_after program (self w) /\
  forall w' : World St,
    self w' = self w -> self (snd (run program w')) = self (snd (run program w)).
Proof.
  split; [apply run_self|].
  intros w' Hself. rewrite !run_self, Hself. reflexivity.
Qed.

Lemma cache_after_coherent (program : list Invocation) (this : PowerAuth) :
  coherent this ->
  coherent (cache_after program this) /\
  instanceId (cache_after program this) = instanceId this.
Proof.
  revert this. induction program as [|i rest IH]; intros this H; [split; trivial|].
  rewrite cache_after_cons.
  assert (H1 : coherent (cache_after [i] this) /\
               instanceId (cache_after [i] this) = instanceId this).
  { destruct i; simpl; try (split; trivial).
    - unfold remembered. destruct (configure_values arguments) as [[[c cc] bc] kc].
      right; right. repeat split.
    - unfold remembered. destruct (configure_values arguments) as [[[c cc] bc] kc].
      reflexivity.
    - right; left. repeat split. }
  destruct H1 as [Hc Hi]. destruct (IH _ Hc) as [Hc' Hi'].
  split; [exact Hc'|]. rewrite Hi'. exact Hi.
Qed.

(** X11. On an instance made by the constructor, whatever methods are called
    and whatever the native side answers, the four cached properties are
    after every call all unset, all [null] or all set, and the instance
    still belongs to the identifier it was created with. *)
Theorem cache_coherent (id : string) (program : list Invocation) (n : St)
    (evs : list Event) :
  coherent (self (snd (run program (Build_World (new_PowerAuth id) n evs)))) /\
  instanceId (self (snd (run program (Build_World (new_PowerAuth id) n evs)))) = id.
Proof.
  rewrite run_self. simpl.
  apply (cache_after_coherent program (new_PowerAuth id)).
  left. repeat split.
Qed.

Lemma run_trace (program : list Invocation) (w : World St) :
  exists evs,
    trace (snd (run program w)) = (trace w ++ evs)%list /\
    gate_unlocks evs = biometric_scopes program.
Proof.
  revert w. induction program as [|i rest IH]; intros w.
  - exists []. rewrite app_nil_r. split; reflexivity.
  - rewrite run_cons. simpl snd.
    destruct (invoke_frame i w) as (evs1 & Ht1 & _ & Hg1).
    destruct (IH (snd (invoke i w))) as (evs2 & Ht2 & Hg2).
    exists (evs1 ++ evs2)%list. rewrite Ht2, Ht1, app_assoc. split; [reflexivity|].
    rewrite gate_unlocks_app, Hg1, Hg2.
    destruct i as [| | | |a cs]; simpl; try reflexivity.
    destruct (useBiometry a); simpl; lia.
Qed.

(** X12. The reusable flag is the mark of a grouped scope.  In any sequence of
    calls, the calls of [authenticate] with [makeReusable == true] are as
    many as the grouped scopes whose authentication asks for biometry: each
    such scope makes exactly one, a scope without biometry makes none, and
    no other method makes any, whatever the native side answers. *)
Theorem reusable_only_in_scopes (program : list Invocation) (w : World St) :
  gate_unlocks (run_events program w) = biometric_scopes program.
Proof.
  unfold run_events.
  destruct (run_trace program w) as (evs & -> & <-).
  rewrite drop_app_length. reflexivity.
Qed.

End Protocol.

(** *** The theorems above at concrete inputs *)

(** On iOS the title and the description do not reach the native side. *)
Lemma addBiometryFactor_prompt_android_only_witness :
  let w := activated with_password [] [] [] in
  @Platform_OS _ (bridge_on "ios") = "ios" /\
  emitted (@addBiometryFactor _ (bridge_on "ios") "1234" "Payments" "Enable biometry") w =
    [EvCall "addBiometryFactor" [JsString "1234"]].
Proof.
  intros w. split; [reflexivity|].
  refine (proj2 (@addBiometryFactor_prompt_android_only _ (bridge_on "ios")
                   "1234" "Payments" "Enable biometry" w _)).
  discriminate.
Defined.


(** The body of [groupedBiometricAuthentication] throws before its first
    [yield] when the authentication does not ask for biometry. *)
Lemma awaiter_rejects_on_throw_witness :
  let w := activated with_password [] [] [] in
  __awaiter 3 (groupedBiometricAuthentication_body new_PowerAuthAuthentication
                 (chain two_calls)) w =
  (RejectedWith (IThrown (PowerAuthError None
     (Some "Requesting biometric authentication, but `useBiometry` is set to false."))),
   w).
Proof.
  intros w.
  exact (awaiter_rejects_on_throw 0
           (groupedBiometricAuthentication_body new_PowerAuthAuthentication
              (chain two_calls)) w w _ new_Generator eq_refl eq_refl).
Defined.
